(** * rcsection: flexural design of reinforced-concrete sections

    A shallow embedding of the analysis/design engine of the repository
    ([core/engine.py], [core/helpers.py], [core/material/material.py],
    [core/section/rectangular.py], [core/section/tshape.py],
    [core/exceptions.py]) and the properties its specification states.

    Numbers.  Every quantity of the program is a Python [float] (the few
    [int]s of the lookup tables are promoted on first use).  They are
    modelled here as real numbers with exact arithmetic: [+], [-], [*],
    [abs], [max] and [math.sqrt] are the operations of [R], comparisons
    are the decidable order of [R] read as booleans.  Rounding, infinite
    results and NaN are outside the model.  The one overflow that raises
    is modelled: a power [x ** n] whose value is too large for a float
    raises [OverflowError], and is the fallible [float_pow].

    Division.  Python raises [ZeroDivisionError] on a zero divisor.  A
    division whose divisor is computed from the inputs is therefore the
    fallible [fdiv]; a division by a literal constant (or by the constant
    elastic modulus of steel) is the total [/].

    Exceptions.  A method that can raise returns a [result]; [raise] is
    [Raise e], and sequencing stops at the first exception, as in Python. *)

From Stdlib Require Import Reals Lra Psatz Bool List Sorted Permutation ZArith.
Import ListNotations.
Open Scope R_scope.

(* ================================================================== *)
(** ** Booleans from the order of the reals *)
(* ================================================================== *)

Definition Rltb (a b : R) : bool := if Rlt_dec a b then true else false.
Definition Rleb (a b : R) : bool := if Rle_dec a b then true else false.
Definition Rgtb (a b : R) : bool := Rltb b a.
Definition Rgeb (a b : R) : bool := Rleb b a.

Infix "<?" := Rltb (at level 70, no associativity) : R_scope.
Infix "<=?" := Rleb (at level 70, no associativity) : R_scope.
Infix ">?" := Rgtb (at level 70, no associativity) : R_scope.
Infix ">=?" := Rgeb (at level 70, no associativity) : R_scope.

(* ================================================================== *)
(** ** core/exceptions.py *)
(* ================================================================== *)

Module Exceptions.

(** [SectionCapacityError] carries a message; the constructor names the
    [raise] statement of [core/engine.py] that built it (the numbers it
    formats are kept as arguments). *)
Inductive CapacityMessage : Type :=
| TensionTooLarge                          (* get_maximum_capacity: As_max < 0 *)
| DemandExceedsMax (mu max_phi_mn : R)     (* design_flexural_reinforcement *)
| StrengthInsufficient (phi_mn mu : R)     (* check_section_adequacy_or_raise *)
| AxialLoadExceeded (pu max_pu_limit : R)  (* _check_axial_load_limit *)
| InvalidSectionData                       (* _analyze_rectangular: b=0 or fck=0 *)
| FlangeWidthZero                          (* _analyze_tsection, first denominator *)
| WebWidthZero                             (* _analyze_tsection, second denominator *)
| NeutralAxisOutside.                      (* c <= 0, both analyzers *)

Inductive exn : Type :=
| ValueError
| ZeroDivisionError
| OverflowError
| NotImplementedError
| MaterialError
| SectionError
| SectionCapacityError (message : CapacityMessage)
| DuctilityError (et et_min : R)
| MinReinforcementError (phi_mn mcr_check_val : R).

Definition is_SectionCapacityError (e : exn) : Prop :=
  match e with SectionCapacityError _ => True | _ => False end.

End Exceptions.
Export Exceptions.

(** The outcome of a call: a value, or the exception it raised. *)
Inductive result (A : Type) : Type :=
| Ok (a : A)
| Raise (e : exn).
Arguments Ok {A} a.
Arguments Raise {A} e.

Definition bind {A B : Type} (m : result A) (k : A -> result B) : result B :=
  match m with
  | Ok a => k a
  | Raise e => Raise e
  end.

Notation "x <- m ;; k" := (bind m (fun x => k))
  (at level 61, m at next level, right associativity).
Notation "m ;;; k" := (bind m (fun _ => k))
  (at level 61, right associativity).

(** Python's [/] on floats. *)
Definition fdiv (a b : R) : result R :=
  if Req_dec_T b 0 then Raise ZeroDivisionError else Ok (a / b).

(** Python's [math.sqrt], which raises [ValueError] on a negative argument. *)
Definition math_sqrt (x : R) : result R :=
  if x <? 0 then Raise ValueError else Ok (sqrt x).

(** The largest finite float ([sys.float_info.max]). *)
Definition FLOAT_MAX : R := 1.7976931348623157e308.

(** Python's [x ** n] on a float, for a literal exponent [n]: it raises
    [OverflowError] when the result is too large for a float.  The test
    is made on the exact value of the power; how the power is rounded
    next to the threshold is outside the model. *)
Definition float_pow (x : R) (n : nat) : result R :=
  if Rabs (x ^ n) >? FLOAT_MAX then Raise OverflowError else Ok (x ^ n).

(* ================================================================== *)
(** ** core/helpers.py *)
(* ================================================================== *)

Module Helpers.

Definition TOLERANCE : R := 1e-9.

Definition is_greater_or_equal (a b : R) : bool := (a - b) >? - TOLERANCE.

Definition is_less_or_equal (a b : R) : bool := (a - b) <? TOLERANCE.

Definition is_equal (a b : R) : bool := Rabs (a - b) <? TOLERANCE.

End Helpers.
Export Helpers.

(* ================================================================== *)
(** ** core/material/material.py *)
(* ================================================================== *)

Module Material.

(** The keys of [_REBAR_SPECS].  [Steel.__post_init__] rejects every other
    grade string with [MaterialError], so a constructed [Steel] holds one
    of these. *)
Inductive Grade : Type :=
| SD300 | SD350 | SD400 | SD500 | SD600 | SD400W | SD500W.

(** [_REBAR_SPECS]: grade -> (fy, fu). *)
Definition _REBAR_SPECS (g : Grade) : R * R :=
  match g with
  | SD300 => (300, 440)
  | SD350 => (350, 490)
  | SD400 => (400, 560)
  | SD500 => (500, 620)
  | SD600 => (600, 710)
  | SD400W => (400, 560)
  | SD500W => (500, 620)
  end.

Definition STEEL_ELASTIC_MODULUS : R := 200000.

Record Steel : Type := { grade : Grade }.

Definition fy (s : Steel) : R := fst (_REBAR_SPECS (grade s)).

Definition Es (s : Steel) : R := STEEL_ELASTIC_MODULUS.

Definition yield_strain (s : Steel) : R := fy s / Es s.

Definition compression_controlled_limit_strain (s : Steel) : R :=
  yield_strain s.

Definition tension_controlled_limit_strain (s : Steel) : R :=
  if fy s >? 400 then 2.5 * yield_strain s else 0.005.

Definition min_allowable_tensile_strain (s : Steel) : R :=
  if fy s >? 400 then 2.0 * yield_strain s else 0.004.

(** [Steel.__post_init__]: the grade is known by construction; the second
    test rejects a yield strength above 600 MPa. *)
Definition Steel_post_init (s : Steel) : result unit :=
  if fy s >? 600 then Raise MaterialError else Ok tt.

Record Concrete : Type := {
  fck : R;
  unit_mass : R;
  lightweight_factor_lambda : R
}.

Definition Concrete_post_init (c : Concrete) : result unit :=
  if fck c <=? 0 then Raise MaterialError
  else if negb ((0.75 <=? lightweight_factor_lambda c)
                && (lightweight_factor_lambda c <=? 1.0))
  then Raise MaterialError
  else Ok tt.

Definition fcm (c : Concrete) : R :=
  if fck c <=? 40 then fck c + 4.0
  else if fck c <? 60 then fck c + (4.0 + 2.0 * (fck c - 40.0) / 20.0)
  else fck c + 6.0.

Definition ultimate_strain (c : Concrete) : R :=
  if fck c <=? 40 then 0.0033
  else Rmax (0.0033 - (fck c - 40) / 100000) 0.0028.

Definition modulus_of_rupture (c : Concrete) : result R :=
  s <- math_sqrt (fck c) ;;
  Ok (0.63 * lightweight_factor_lambda c * s).

Definition beta1 (c : Concrete) : R :=
  if fck c <=? 40 then 0.80
  else if fck c <? 80 then Rmax 0.64 (0.80 - 0.04 * ((fck c - 40) / 10))
  else 0.64.

Definition eta (c : Concrete) : R :=
  if fck c <=? 40 then 1.00
  else if fck c <? 90 then Rmax 0.84 (1.00 - 0.03 * ((fck c - 40) / 10))
  else 0.84.

End Material.
Export Material.

(* ================================================================== *)
(** ** core/section/rectangular.py *)
(* ================================================================== *)

Module Rectangular.

Record RectangularSection : Type := {
  width : R;
  height : R;
  cover_to_stirrup : R;
  stirrup_dia : R;
  tension_rebar_dia : R;
  concrete : Concrete;
  tension_steel : Steel;
  compression_rebar_dia : option R;
  compression_steel : option Steel
}.

Definition gross_area (s : RectangularSection) : R := width s * height s.

Definition Ig (s : RectangularSection) : result R :=
  p <- float_pow (height s) 3 ;;
  Ok ((width s * p) / 12).

Definition effective_depth (s : RectangularSection) : R :=
  height s - cover_to_stirrup s - stirrup_dia s - (tension_rebar_dia s / 2).

Definition d_prime (s : RectangularSection) : option R :=
  match compression_rebar_dia s with
  | None => None
  | Some dia => Some (cover_to_stirrup s + stirrup_dia s + (dia / 2))
  end.

Definition cracking_moment (s : RectangularSection) : result R :=
  fr <- modulus_of_rupture (concrete s) ;;
  Ig <- Ig s ;;
  let yt := height s / 2 in
  fdiv (fr * Ig) yt.

Definition post_init (s : RectangularSection) : result unit :=
  if negb (forallb (fun val => val >=? 0)
             [width s; height s; cover_to_stirrup s; stirrup_dia s;
              tension_rebar_dia s])
  then Raise SectionError
  else if effective_depth s <=? 0 then Raise SectionError
  else Ok tt.

End Rectangular.

(* ================================================================== *)
(** ** core/section/tshape.py *)
(* ================================================================== *)

Module TShape.

Record TSection : Type := {
  height : R;
  web_width : R;
  flange_width : R;
  flange_depth : R;
  cover_to_stirrup : R;
  stirrup_dia : R;
  tension_rebar_dia : R;
  concrete : Concrete;
  tension_steel : Steel;
  compression_rebar_dia : option R;
  compression_steel : option Steel
}.

Definition effective_depth (s : TSection) : R :=
  height s - cover_to_stirrup s - stirrup_dia s - (tension_rebar_dia s / 2).

Definition gross_area (s : TSection) : R :=
  let flange_area := flange_width s * flange_depth s in
  let web_area := web_width s * (height s - flange_depth s) in
  flange_area + web_area.

Definition centroid_y (s : TSection) : result R :=
  let flange_area := flange_width s * flange_depth s in
  let web_area := web_width s * (height s - flange_depth s) in
  let flange_moment := flange_area * (flange_depth s / 2) in
  let web_moment :=
    web_area * (flange_depth s + (height s - flange_depth s) / 2) in
  fdiv (flange_moment + web_moment) (gross_area s).

Definition Ig (s : TSection) : result R :=
  p_flange <- float_pow (flange_depth s) 3 ;;
  let Ig_flange := (flange_width s * p_flange) / 12 in
  p_web <- float_pow (height s - flange_depth s) 3 ;;
  let Ig_web := (web_width s * p_web) / 12 in
  yc <- centroid_y s ;;
  let flange_area := flange_width s * flange_depth s in
  let web_area := web_width s * (height s - flange_depth s) in
  let d_flange := Rabs (yc - (flange_depth s / 2)) in
  let d_web :=
    Rabs (yc - (flange_depth s + (height s - flange_depth s) / 2)) in
  q_flange <- float_pow d_flange 2 ;;
  let Ad2_flange := flange_area * q_flange in
  q_web <- float_pow d_web 2 ;;
  let Ad2_web := web_area * q_web in
  Ok (Ig_flange + Ad2_flange + Ig_web + Ad2_web).

Definition d_prime (s : TSection) : option R :=
  match compression_rebar_dia s with
  | None => None
  | Some dia => Some (cover_to_stirrup s + stirrup_dia s + (dia / 2))
  end.

Definition cracking_moment (s : TSection) : result R :=
  fr <- modulus_of_rupture (concrete s) ;;
  Ig <- Ig s ;;
  yc <- centroid_y s ;;
  let yt := height s - yc in
  fdiv (fr * Ig) yt.

Definition post_init (s : TSection) : result unit :=
  if negb (forallb (fun val => val >=? 0)
             [web_width s; height s; flange_width s; flange_depth s;
              cover_to_stirrup s; stirrup_dia s; tension_rebar_dia s])
  then Raise SectionError
  else if flange_width s <? web_width s then Raise SectionError
  else if flange_depth s >=? height s then Raise SectionError
  else if effective_depth s <=? 0 then Raise SectionError
  else Ok tt.

End TShape.

(* ================================================================== *)
(** ** core/section/base_section.py *)
(* ================================================================== *)

(** [BaseSection] is the abstract class of the two section shapes; the
    engine reads the shared properties through it and inspects the
    concrete class with [isinstance]. *)
Inductive BaseSection : Type :=
| RectangularSection (s : Rectangular.RectangularSection)
| TSection (s : TShape.TSection).

Module Section.

Definition concrete (s : BaseSection) : Concrete :=
  match s with
  | RectangularSection r => Rectangular.concrete r
  | TSection t => TShape.concrete t
  end.

Definition tension_steel (s : BaseSection) : Steel :=
  match s with
  | RectangularSection r => Rectangular.tension_steel r
  | TSection t => TShape.tension_steel t
  end.

Definition gross_area (s : BaseSection) : R :=
  match s with
  | RectangularSection r => Rectangular.gross_area r
  | TSection t => TShape.gross_area t
  end.

Definition height (s : BaseSection) : R :=
  match s with
  | RectangularSection r => Rectangular.height r
  | TSection t => TShape.height t
  end.

Definition effective_depth (s : BaseSection) : R :=
  match s with
  | RectangularSection r => Rectangular.effective_depth r
  | TSection t => TShape.effective_depth t
  end.

Definition cracking_moment (s : BaseSection) : result R :=
  match s with
  | RectangularSection r => Rectangular.cracking_moment r
  | TSection t => TShape.cracking_moment t
  end.

(** A section object exists only if its constructor, and the constructors
    of its two materials, returned without raising. *)
Definition constructed (s : BaseSection) : Prop :=
  Concrete_post_init (concrete s) = Ok tt /\
  Steel_post_init (tension_steel s) = Ok tt /\
  match s with
  | RectangularSection r => Rectangular.post_init r = Ok tt
  | TSection t => TShape.post_init t = Ok tt
  end.

End Section.

(* ================================================================== *)
(** ** core/engine.py *)
(* ================================================================== *)

Module Engine.

(** The engine reads three constants from [core/constants.py], which is
    not among the source files: they are taken as a parameter [const] of
    everything below. *)
Record Constants : Type := {
  PHI_TENSION_CONTROLLED : R;
  PHI_COMPRESSION_CONTROLLED_TIED : R;
  MIN_FLEXURAL_STRENGTH_FACTOR : R
}.

Record AnalysisResult : Type := {
  c : R;
  net_tensile_strain : R;
  phi : R;
  phi_mn : R
}.

(** The four result dataclasses.  Projections share one name space in
    Rocq, so the fields [as_max] and [analysis_result] that several
    dataclasses have are prefixed in [CapacityResult] ([cap_]) and
    [analysis_result] in [DesignResult] ([design_]). *)
Record CapacityResult : Type := {
  cap_as_max : R;
  max_phi_mn : R;
  cap_analysis_result : AnalysisResult
}.

Record DesignResult : Type := {
  as_required : R;
  as_min : R;
  as_max : R;
  is_min_rebar_controlled : bool;
  design_analysis_result : AnalysisResult
}.

Record CheckResult : Type := {
  is_ok : bool;
  strength_ok : bool;
  ductility_ok : bool;
  min_rebar_ok : bool;
  analysis_result : AnalysisResult
}.

Section DesignEngine.

Variable const : Constants.

Definition _get_max_axial_capacity (section : BaseSection) (assumed_rho : R)
  : R :=
  let conc := Section.concrete section in
  let steel := Section.tension_steel section in
  let Ag := Section.gross_area section in
  let Ast := assumed_rho * Section.gross_area section in
  let phi := PHI_COMPRESSION_CONTROLLED_TIED const in
  let Pn_max_nominal := 0.85 * fck conc * (Ag - Ast) + fy steel * Ast in
  0.80 * phi * Pn_max_nominal.

Definition _check_axial_load_limit (section : BaseSection) (pu : R)
  : result unit :=
  if pu >? 0 then
    let max_pu_limit := _get_max_axial_capacity section 0.01 in
    if pu >? max_pu_limit
    then Raise (SectionCapacityError (AxialLoadExceeded pu max_pu_limit))
    else Ok tt
  else Ok tt.

Definition _calculate_phi (steel : Steel) (et : R) : result R :=
  let e_ccl := compression_controlled_limit_strain steel in
  let e_tcl := tension_controlled_limit_strain steel in
  if is_greater_or_equal et e_tcl then
    Ok (PHI_TENSION_CONTROLLED const)
  else if is_less_or_equal et e_ccl then
    Ok (PHI_COMPRESSION_CONTROLLED_TIED const)
  else
    q <- fdiv ((PHI_TENSION_CONTROLLED const
                - PHI_COMPRESSION_CONTROLLED_TIED const) * (et - e_ccl))
              (e_tcl - e_ccl) ;;
    Ok (PHI_COMPRESSION_CONTROLLED_TIED const + q).

Definition _analyze_rectangular (section : Rectangular.RectangularSection)
  (As Pu : R) : result AnalysisResult :=
  let conc := Rectangular.concrete section in
  let steel := Rectangular.tension_steel section in
  let b := Rectangular.width section in
  let d := Rectangular.effective_depth section in
  let h := Rectangular.height section in
  let numerator := As * fy steel - Pu in
  let denominator := eta conc * 0.85 * fck conc * beta1 conc * b in
  if Rabs denominator <? 1e-9 then
    Raise (SectionCapacityError InvalidSectionData)
  else
    c <- fdiv numerator denominator ;;
    if c <=? 0 then Raise (SectionCapacityError NeutralAxisOutside)
    else
      et <- fdiv (ultimate_strain conc * (d - c)) c ;;
      phi <- _calculate_phi steel et ;;
      let a := beta1 conc * c in
      let Cc := eta conc * 0.85 * fck conc * a * b in
      let Mn := Cc * (d - a / 2) + Pu * (d - h / 2) in
      Ok {| c := c; net_tensile_strain := et; phi := phi;
            phi_mn := phi * Mn |}.

(** The two arms of the [if is_less_or_equal(a, hf)] of
    [_analyze_tsection], each returning the pair [(c, Mn)] it assigns. *)
Definition _tsection_flange_case (section : TShape.TSection)
  (Pu c_rect_assumption a : R) : result (R * R) :=
  let conc := TShape.concrete section in
  let d := TShape.effective_depth section in
  let h := TShape.height section in
  let bf := TShape.flange_width section in
  let c := c_rect_assumption in
  let Cc := eta conc * 0.85 * fck conc * a * bf in
  let Mn := Cc * (d - a / 2) + Pu * (d - h / 2) in
  Ok (c, Mn).

Definition _tsection_web_case (section : TShape.TSection) (As Pu : R)
  : result (R * R) :=
  let conc := TShape.concrete section in
  let steel := TShape.tension_steel section in
  let bw := TShape.web_width section in
  let d := TShape.effective_depth section in
  let h := TShape.height section in
  let bf := TShape.flange_width section in
  let hf := TShape.flange_depth section in
  let Ccf := eta conc * 0.85 * fck conc * (bf - bw) * hf in
  let numerator_t := As * fy steel - Pu - Ccf in
  let denominator_t := eta conc * 0.85 * fck conc * beta1 conc * bw in
  if Rabs denominator_t <? 1e-9 then
    Raise (SectionCapacityError WebWidthZero)
  else
    c <- fdiv numerator_t denominator_t ;;
    let a := beta1 conc * c in
    let Ccw := eta conc * 0.85 * fck conc * a * bw in
    let Mn_f := Ccf * (d - hf / 2) in
    let Mn_w := Ccw * (d - a / 2) in
    let Mn := Mn_f + Mn_w + Pu * (d - h / 2) in
    Ok (c, Mn).

(** The common tail of [_analyze_tsection], after either arm. *)
Definition _tsection_finish (section : TShape.TSection) (c Mn : R)
  : result AnalysisResult :=
  let conc := TShape.concrete section in
  let steel := TShape.tension_steel section in
  let d := TShape.effective_depth section in
  if c <=? 0 then Raise (SectionCapacityError NeutralAxisOutside)
  else
    et <- fdiv (ultimate_strain conc * (d - c)) c ;;
    phi <- _calculate_phi steel et ;;
    Ok {| c := c; net_tensile_strain := et; phi := phi;
          phi_mn := phi * Mn |}.

Definition _analyze_tsection (section : TShape.TSection) (As Pu : R)
  : result AnalysisResult :=
  let conc := TShape.concrete section in
  let steel := TShape.tension_steel section in
  let bf := TShape.flange_width section in
  let hf := TShape.flange_depth section in
  let numerator_rect := As * fy steel - Pu in
  let denominator_rect := eta conc * 0.85 * fck conc * beta1 conc * bf in
  if Rabs denominator_rect <? 1e-9 then
    Raise (SectionCapacityError FlangeWidthZero)
  else
    c_rect_assumption <- fdiv numerator_rect denominator_rect ;;
    let a := beta1 conc * c_rect_assumption in
    cM <- (if is_less_or_equal a hf
           then _tsection_flange_case section Pu c_rect_assumption a
           else _tsection_web_case section As Pu) ;;
    _tsection_finish section (fst cM) (snd cM).

Definition _analyze_section (section : BaseSection) (As Pu As_prime : R)
  : result AnalysisResult :=
  if As_prime >? 0 then Raise NotImplementedError
  else
    match section with
    | RectangularSection r => _analyze_rectangular r As Pu
    | TSection t => _analyze_tsection t As Pu
    end.

Definition get_maximum_capacity (section : BaseSection) (pu : R)
  : result CapacityResult :=
  _check_axial_load_limit section pu ;;;
  let conc := Section.concrete section in
  let steel := Section.tension_steel section in
  let et_min := min_allowable_tensile_strain steel in
  q <- fdiv (ultimate_strain conc) (ultimate_strain conc + et_min) ;;
  let c_max := q * Section.effective_depth section in
  let a_max := beta1 conc * c_max in
  let Cc :=
    match section with
    | TSection t =>
        if is_less_or_equal a_max (TShape.flange_depth t) then
          eta conc * 0.85 * fck conc * a_max * TShape.flange_width t
        else
          let Ccf := eta conc * 0.85 * fck conc
                     * (TShape.flange_width t - TShape.web_width t)
                     * TShape.flange_depth t in
          let Ccw := eta conc * 0.85 * fck conc * TShape.web_width t
                     * a_max in
          Ccf + Ccw
    | RectangularSection r =>
        eta conc * 0.85 * fck conc * a_max * Rectangular.width r
    end in
  As_max <- fdiv (Cc + pu) (fy steel) ;;
  if As_max <? 0 then Raise (SectionCapacityError TensionTooLarge)
  else
    result <- _analyze_section section As_max pu 0.0 ;;
    Ok {| cap_as_max := As_max; max_phi_mn := phi_mn result;
          cap_analysis_result := result |}.

(** The [for _ in range(n)] loop of [_find_as_for_mu], as a recursion on
    the number of iterations left; the two bounds are its loop state. *)
Fixpoint _find_as_loop (section : BaseSection) (target_mu pu : R)
  (n : nat) (as_lower_bound as_upper_bound_search : R) : result R :=
  match n with
  | O => Ok as_upper_bound_search
  | S n' =>
      let as_guess := (as_lower_bound + as_upper_bound_search) / 2.0 in
      if as_upper_bound_search - as_lower_bound <? 1e-9
      then Ok as_upper_bound_search
      else
        analysis_result <- _analyze_section section as_guess pu 0.0 ;;
        if phi_mn analysis_result <? target_mu
        then _find_as_loop section target_mu pu n' as_guess
               as_upper_bound_search
        else _find_as_loop section target_mu pu n' as_lower_bound as_guess
  end.

Definition _find_as_for_mu (section : BaseSection)
  (target_mu pu as_upper_bound : R) : result R :=
  if target_mu <? 0 then Raise ValueError
  else _find_as_loop section target_mu pu 100 0.0 as_upper_bound.

Definition design_flexural_reinforcement (section : BaseSection) (mu pu : R)
  : result DesignResult :=
  if mu <? 0 then Raise ValueError
  else
    _check_axial_load_limit section pu ;;;
    max_capacity <- get_maximum_capacity section pu ;;
    let As_max := cap_as_max max_capacity in
    let max_phi_mn := max_phi_mn max_capacity in
    Mcr <- Section.cracking_moment section ;;
    let mcr_check_val := MIN_FLEXURAL_STRENGTH_FACTOR const * Mcr in
    As_min <- (if mcr_check_val >? 0
               then _find_as_for_mu section mcr_check_val pu As_max
               else Ok 0.0) ;;
    if negb (is_less_or_equal mu max_phi_mn)
    then Raise (SectionCapacityError (DemandExceedsMax mu max_phi_mn))
    else
      as_strength <- _find_as_for_mu section mu pu As_max ;;
      let as_required := Rmax as_strength As_min in
      let is_min_controlled :=
        is_greater_or_equal as_required As_min
        && negb (is_equal as_required as_strength) in
      result <- _analyze_section section as_required pu 0.0 ;;
      Ok {| as_required := as_required;
            as_min := As_min;
            as_max := As_max;
            is_min_rebar_controlled := is_min_controlled;
            design_analysis_result := result |}.

Definition check_section_adequacy (section : BaseSection)
  (as_provided mu pu : R) : result CheckResult :=
  if as_provided <? 0 then Raise ValueError
  else
    analysis_result <- _analyze_section section as_provided pu 0.0 ;;
    let steel := Section.tension_steel section in
    let strength_ok := is_greater_or_equal (phi_mn analysis_result) mu in
    let ductility_ok :=
      is_greater_or_equal (net_tensile_strain analysis_result)
        (min_allowable_tensile_strain steel) in
    Mcr <- Section.cracking_moment section ;;
    let mcr_check_val := MIN_FLEXURAL_STRENGTH_FACTOR const * Mcr in
    let min_rebar_ok :=
      is_greater_or_equal (phi_mn analysis_result) mcr_check_val in
    let is_ok := forallb (fun v => v) [strength_ok; ductility_ok; min_rebar_ok] in
    Ok {| is_ok := is_ok;
          strength_ok := strength_ok;
          ductility_ok := ductility_ok;
          min_rebar_ok := min_rebar_ok;
          analysis_result := analysis_result |}.

Definition check_section_adequacy_or_raise (section : BaseSection)
  (as_provided mu pu : R) : result unit :=
  check_result <- check_section_adequacy section as_provided mu pu ;;
  if is_ok check_result then Ok tt
  else if negb (ductility_ok check_result) then
    Raise (DuctilityError
             (net_tensile_strain (analysis_result check_result))
             (min_allowable_tensile_strain (Section.tension_steel section)))
  else if negb (strength_ok check_result) then
    Raise (SectionCapacityError
             (StrengthInsufficient (phi_mn (analysis_result check_result))
                mu))
  else if negb (min_rebar_ok check_result) then
    Mcr <- Section.cracking_moment section ;;
    let mcr_check_val := MIN_FLEXURAL_STRENGTH_FACTOR const * Mcr in
    Raise (MinReinforcementError (phi_mn (analysis_result check_result))
             mcr_check_val)
  else Ok tt.

End DesignEngine.

(** Modelled from the spec: the values of [core/constants.py], which is
    missing: the strength-reduction factors 0.85 (tension-controlled) and
    0.65 (compression-controlled, tied), and the multiplier 1.2 of the
    cracking moment. *)
Definition kds : Constants :=
  {| PHI_TENSION_CONTROLLED := 0.85;
     PHI_COMPRESSION_CONTROLLED_TIED := 0.65;
     MIN_FLEXURAL_STRENGTH_FACTOR := 1.2 |}.

End Engine.
Export Engine.

(* ================================================================== *)
(** ** core/material/material.py: reinforcing bars *)
(* ================================================================== *)

(** An [int] used as a float: Python converts it, and raises
    [OverflowError] when it is too large for a float. *)
Definition float_of_int (z : Z) : result R :=
  if Rabs (IZR z) >? FLOAT_MAX then Raise OverflowError else Ok (IZR z).

Module Bars.

(** The keys of [_REBAR_AREAS], which are the members of
    [REBAR_DIA_LIST].  [Rebar.__post_init__] rejects every other
    diameter with [MaterialError], so a constructed [Rebar] holds one of
    these. *)
Inductive BarSize : Type :=
| D10 | D13 | D16 | D19 | D22 | D25 | D29 | D32 | D35 | D38.

(** The integer that a key is. *)
Definition nominal (b : BarSize) : Z :=
  match b with
  | D10 => 10 | D13 => 13 | D16 => 16 | D19 => 19 | D22 => 22
  | D25 => 25 | D29 => 29 | D32 => 32 | D35 => 35 | D38 => 38
  end%Z.

(** [_REBAR_AREAS]: diameter -> nominal area. *)
Definition _REBAR_AREAS (b : BarSize) : R :=
  match b with
  | D10 => 71.33 | D13 => 126.7 | D16 => 198.6 | D19 => 286.5
  | D22 => 387.1 | D25 => 506.7 | D29 => 642.4 | D32 => 794.2
  | D35 => 956.6 | D38 => 1140.0
  end.

Definition REBAR_DIA_LIST : list BarSize :=
  [D10; D13; D16; D19; D22; D25; D29; D32; D35; D38].

(** The key that an integer is, if it is one: the test
    [diameter in REBAR_DIA_LIST], and the lookup [_REBAR_AREAS[dia]]. *)
Definition bar_size (dia : Z) : option BarSize :=
  find (fun b => (nominal b =? dia)%Z) REBAR_DIA_LIST.

Record Rebar : Type := {
  material : Steel;
  diameter : BarSize
}.

(** [Rebar(material, diameter)]: the constructor with its
    [__post_init__]. *)
Definition Rebar_new (material : Steel) (dia : Z) : result Rebar :=
  match bar_size dia with
  | Some b => Ok {| material := material; diameter := b |}
  | None => Raise MaterialError
  end.

Definition area (r : Rebar) : R := _REBAR_AREAS (diameter r).

End Bars.

(* ================================================================== *)
(** ** services/rebar_selector.py *)
(* ================================================================== *)

Module Selector.

Import Bars.

Record SelectedOption : Type := {
  diameter : Z;
  spacing : Z;
  as_provided_per_meter : R;
  efficiency : R
}.

(** Python's [sorted] on a list of integers. *)
Fixpoint insert_sorted (x : Z) (l : list Z) : list Z :=
  match l with
  | [] => [x]
  | y :: l' => if (x <=? y)%Z then x :: l else y :: insert_sorted x l'
  end.

Definition sorted (l : list Z) : list Z := fold_right insert_sorted [] l.

(** A [RebarSelector] object.  Its dictionary [rebar_areas] maps each
    available diameter to its entry of [_REBAR_AREAS]; the available
    diameters are kept as keys of the table, so that
    [rebar_areas[dia]] is [_REBAR_AREAS dia]. *)
Record RebarSelector : Type := {
  available_diameters : list BarSize;
  preferred_spacings : list Z
}.

(** The dictionary comprehension of [__init__], on the sorted
    diameters: [None] when [_REBAR_AREAS] has no entry for one of
    them. *)
Fixpoint table_keys (dias : list Z) : option (list BarSize) :=
  match dias with
  | [] => Some []
  | dia :: rest =>
      match bar_size dia, table_keys rest with
      | Some b, Some bs => Some (b :: bs)
      | _, _ => None
      end
  end.

(** [RebarSelector(available_diameters, preferred_spacings)].  [None] is
    the [KeyError] of the dictionary comprehension, a builtin exception
    that the engine never raises and [exn] does not list. *)
Definition RebarSelector_init (available_diameters preferred_spacings : list Z)
  : option RebarSelector :=
  match table_keys (sorted available_diameters) with
  | Some keys =>
      Some {| available_diameters := keys;
              preferred_spacings := sorted preferred_spacings |}
  | None => None
  end.

(** The inner loop of [select_optimal_options]: the first available
    diameter whose area is at least the required one. *)
Definition best_dia_for_spacing (self : RebarSelector)
  (required_single_rebar_area : R) : option BarSize :=
  find (fun dia => _REBAR_AREAS dia >=? required_single_rebar_area)
       (available_diameters self).

(** The body of the outer loop, for one spacing: the option it appends
    to [valid_options], if any.  The test [if best_dia_for_spacing:]
    passes for every diameter found, no key of the table being 0. *)
Definition option_for_spacing (self : RebarSelector) (as_required_pm : R)
  (spacing : Z) : result (option SelectedOption) :=
  s <- float_of_int spacing ;;
  let required_single_rebar_area := as_required_pm * (s / 1000.0) in
  match best_dia_for_spacing self required_single_rebar_area with
  | Some dia =>
      q <- fdiv 1000 (IZR spacing) ;;
      let as_provided_pm := _REBAR_AREAS dia * q in
      efficiency <- fdiv as_provided_pm as_required_pm ;;
      Ok (Some {| diameter := nominal dia;
                  spacing := spacing;
                  as_provided_per_meter := as_provided_pm;
                  efficiency := efficiency |})
  | None => Ok None
  end.

(** The outer loop, with [valid_options] as its state. *)
Fixpoint collect_options (self : RebarSelector) (as_required_pm : R)
  (spacings : list Z) (valid_options : list SelectedOption)
  : result (list SelectedOption) :=
  match spacings with
  | [] => Ok valid_options
  | spacing :: rest =>
      o <- option_for_spacing self as_required_pm spacing ;;
      collect_options self as_required_pm rest
        (match o with
         | Some option => valid_options ++ [option]
         | None => valid_options
         end)
  end.

(** [list.sort(key=lambda opt: opt.efficiency)]: a stable sort, here by
    insertion: an option goes before the first one that is not more
    efficient than it is. *)
Fixpoint insert_by_efficiency (x : SelectedOption)
  (l : list SelectedOption) : list SelectedOption :=
  match l with
  | [] => [x]
  | y :: l' =>
      if efficiency x <=? efficiency y then x :: l
      else y :: insert_by_efficiency x l'
  end.

Definition sort_by_efficiency (l : list SelectedOption)
  : list SelectedOption :=
  fold_right insert_by_efficiency [] l.

(** The slice [l[:n]], for a negative [n] too. *)
Definition slice_to {A : Type} (n : Z) (l : list A) : list A :=
  if (0 <=? n)%Z then firstn (Z.to_nat n) l
  else firstn (Z.to_nat (Z.of_nat (length l) + n)) l.

Definition select_optimal_options (self : RebarSelector)
  (as_required_pm : R) (top_n : Z) : result (list SelectedOption) :=
  if as_required_pm <=? 0 then Ok []
  else
    valid_options <- collect_options self as_required_pm
                       (preferred_spacings self) [] ;;
    Ok (slice_to top_n (sort_by_efficiency valid_options)).

End Selector.

(* ================================================================== *)
(** ** services/rebar_detailer.py *)
(* ================================================================== *)

Module Detailer.

Import Bars.

Record RebarLayer : Type := {
  y_from_bottom : R;
  num_rebars : Z;
  rebar : Rebar
}.

(** The field [option] of the dataclass is [layout_option] here,
    [option] being a type of Rocq. *)
Record RebarLayout : Type := {
  layout_option : Selector.SelectedOption;
  layers : list RebarLayer;
  as_provided_total : R;
  section_height : R
}.

Definition total_rebars (self : RebarLayout) : Z :=
  fold_right (fun layer acc => (num_rebars layer + acc)%Z) 0%Z (layers self).

(** The loop of [calculate_actual_d], with [(moment_y, total_area)] as
    its state; the number of bars of a layer is an [int] multiplied by a
    float. *)
Fixpoint accumulate_layers (ls : list RebarLayer) (moment_y total_area : R)
  : result (R * R) :=
  match ls with
  | [] => Ok (moment_y, total_area)
  | layer :: rest =>
      n <- float_of_int (num_rebars layer) ;;
      let layer_area := n * area (rebar layer) in
      accumulate_layers rest (moment_y + layer_area * y_from_bottom layer)
        (total_area + layer_area)
  end.

(** The division is guarded by the test on [total_area]. *)
Definition calculate_actual_d (self : RebarLayout) : result R :=
  mt <- accumulate_layers (layers self) 0.0 0.0 ;;
  let moment_y := fst mt in
  let total_area := snd mt in
  if Req_dec_T total_area 0 then Ok 0
  else
    let centroid_y_from_bottom := moment_y / total_area in
    Ok (section_height self - centroid_y_from_bottom).

Record RebarDetailer : Type := {
  steel_material : Steel;
  min_spacing_factor : R
}.

(** What a call of [plan_layout] does; the last case is the model's
    own: the [while] loop was given too little fuel to finish. *)
Inductive Plan : Type :=
| Planned (layout : RebarLayout)
| NoLayout
| PlanRaises (e : exn)
| OutOfFuel.

(** The [while rebars_to_place > 0] loop of [plan_layout], with
    [rebars_to_place] and [current_layer_index] as its state; the
    layers it appends are returned in order.  The layer index is an
    [int] multiplied by a float; it stays below the number of bars
    required, which [math.ceil] made from a float. *)
Fixpoint place_layers (fuel : nat) (rebar : Rebar)
  (cover_to_stirrup stirrup_dia : R) (max_per_layer : Z)
  (rebars_to_place current_layer_index : Z) : option (list RebarLayer) :=
  if (rebars_to_place >? 0)%Z then
    match fuel with
    | O => None
    | S fuel' =>
        let dia := IZR (nominal (Bars.diameter rebar)) in
        let num_this_layer := Z.min rebars_to_place max_per_layer in
        let vertical_clear_spacing := 25.0 in
        let y_pos :=
          cover_to_stirrup + stirrup_dia + dia / 2
          + IZR current_layer_index * (dia + vertical_clear_spacing) in
        match place_layers fuel' rebar cover_to_stirrup stirrup_dia
                max_per_layer (rebars_to_place - num_this_layer)
                (current_layer_index + 1) with
        | Some rest =>
            Some ({| y_from_bottom := y_pos;
                     num_rebars := num_this_layer;
                     rebar := rebar |} :: rest)
        | None => None
        end
    end
  else Some [].

(** [plan_layout]; the number of bars placed, which [math.ceil] made
    from a float, is within the range of a float when it is multiplied
    by the area. *)
Definition plan_layout (fuel : nat) (self : RebarDetailer)
  (selected_option : Selector.SelectedOption)
  (section_width section_height as_required_total
   cover_to_stirrup stirrup_dia : R) : Plan :=
  match Rebar_new (steel_material self)
          (Selector.diameter selected_option) with
  | Raise e => PlanRaises e
  | Ok rebar =>
      let dia := IZR (nominal (Bars.diameter rebar)) in
      match (if as_required_total >? 0
             then q <- fdiv as_required_total (area rebar) ;; Ok (Zceil q)
             else Ok 0%Z) with
      | Raise e => PlanRaises e
      | Ok num_required =>
          if (num_required =? 0)%Z then NoLayout
          else
            let min_clear_spacing :=
              Rmax 25.0 (dia * min_spacing_factor self) in
            let effective_width :=
              section_width - (2 * cover_to_stirrup) - (2 * stirrup_dia)
              - dia in
            if effective_width <? 0 then NoLayout
            else
              match fdiv effective_width (dia + min_clear_spacing) with
              | Raise e => PlanRaises e
              | Ok q =>
                  let max_per_layer := (Zfloor q + 1)%Z in
                  if (max_per_layer =? 0)%Z then NoLayout
                  else
                    match place_layers fuel rebar cover_to_stirrup
                            stirrup_dia max_per_layer num_required 0 with
                    | None => OutOfFuel
                    | Some layers =>
                        let as_provided :=
                          IZR (fold_right
                                 (fun l acc => (num_rebars l + acc)%Z)
                                 0%Z layers)
                          * area rebar in
                        Planned {| layout_option := selected_option;
                                   layers := layers;
                                   as_provided_total := as_provided;
                                   section_height := section_height |}
                    end
              end
      end
  end.

End Detailer.

(* ================================================================== *)
(** ** Contracts and worked inputs *)
(* ================================================================== *)

(** The contract of the rectangular analyzer, in the words of the
    specification: the neutral axis is solved from force equilibrium,
    [c = (As*fy - Pu) / (eta*0.85*fck*beta1*b)]; the call fails with
    [SectionCapacityError] when the denominator is smaller than 1e-9 in
    absolute value or when [c <= 0]; otherwise
    [et = ecu*(d-c)/c], [a = beta1*c], [Cc = eta*0.85*fck*a*b],
    [Mn = Cc*(d - a/2) + Pu*(d - h/2)] and the design moment is
    [phi*Mn], [phi] being the strength-reduction factor at [et]. *)
Definition rectangular_contract (const : Constants)
  (section : Rectangular.RectangularSection) (As Pu : R)
  (out : result AnalysisResult) : Prop :=
  let conc := Rectangular.concrete section in
  let steel := Rectangular.tension_steel section in
  let b := Rectangular.width section in
  let d := Rectangular.effective_depth section in
  let h := Rectangular.height section in
  let denominator := eta conc * 0.85 * fck conc * beta1 conc * b in
  let c := (As * fy steel - Pu) / denominator in
  let et := ultimate_strain conc * (d - c) / c in
  let a := beta1 conc * c in
  let Cc := eta conc * 0.85 * fck conc * a * b in
  let Mn := Cc * (d - a / 2) + Pu * (d - h / 2) in
  (Rabs denominator < 1e-9 \/ c <= 0 ->
   exists m, out = Raise (SectionCapacityError m)) /\
  (1e-9 <= Rabs denominator -> 0 < c ->
   exists p,
     _calculate_phi const steel et = Ok p /\
     out = Ok {| Engine.c := c; net_tensile_strain := et; phi := p;
                 phi_mn := p * Mn |}).

(** The balanced quantities [get_maximum_capacity] works with: the
    neutral-axis depth at which the net tensile strain is the steel's
    minimum allowable strain, the matching stress-block depth, and the
    concrete resultant the method derives from it. *)
Definition c_max (section : BaseSection) : R :=
  let conc := Section.concrete section in
  let et_min := min_allowable_tensile_strain (Section.tension_steel section) in
  ultimate_strain conc / (ultimate_strain conc + et_min)
  * Section.effective_depth section.

Definition a_max (section : BaseSection) : R :=
  beta1 (Section.concrete section) * c_max section.

Definition Cc_max (section : BaseSection) : R :=
  let conc := Section.concrete section in
  match section with
  | TSection t =>
      if is_less_or_equal (a_max section) (TShape.flange_depth t) then
        eta conc * 0.85 * fck conc * a_max section * TShape.flange_width t
      else
        eta conc * 0.85 * fck conc
        * (TShape.flange_width t - TShape.web_width t)
        * TShape.flange_depth t
        + eta conc * 0.85 * fck conc * TShape.web_width t * a_max section
  | RectangularSection r =>
      eta conc * 0.85 * fck conc * a_max section * Rectangular.width r
  end.

(** The stress-block depth [a] that [_analyze_tsection] computes first,
    with the full flange width, and on which it chooses its branch. *)
Definition trial_a (section : TShape.TSection) (As Pu : R) : R :=
  let conc := TShape.concrete section in
  beta1 conc
  * ((As * fy (TShape.tension_steel section) - Pu)
     / (eta conc * 0.85 * fck conc * beta1 conc
        * TShape.flange_width section)).

(** What [_analyze_tsection] returns when it takes its first branch
    (neutral axis in the flange), and when it takes its second (neutral
    axis in the web), whatever the test on [a] says. *)
Definition flange_branch_result (const : Constants)
  (section : TShape.TSection) (As Pu : R) : result AnalysisResult :=
  let conc := TShape.concrete section in
  let c_rect_assumption :=
    (As * fy (TShape.tension_steel section) - Pu)
    / (eta conc * 0.85 * fck conc * beta1 conc
       * TShape.flange_width section) in
  cM <- _tsection_flange_case section Pu c_rect_assumption
          (beta1 conc * c_rect_assumption) ;;
  _tsection_finish const section (fst cM) (snd cM).

Definition web_branch_result (const : Constants)
  (section : TShape.TSection) (As Pu : R) : result AnalysisResult :=
  cM <- _tsection_web_case section As Pu ;;
  _tsection_finish const section (fst cM) (snd cM).

(** For a T-section, [get_maximum_capacity] chooses between its flange
    and web formulas by testing [a_max], while the analyzer it then calls
    at [As_max] tests the trial depth [a] again.  [capacity_branch_agrees]
    says that the two tests come out the same, and that the web
    denominator of the analyzer is not degenerate.  It is vacuous for a
    rectangular section. *)
Definition capacity_branch_agrees (section : BaseSection) (pu : R) : Prop :=
  match section with
  | RectangularSection _ => True
  | TSection t =>
      let conc := TShape.concrete t in
      let As_max := (Cc_max section + pu) / fy (TShape.tension_steel t) in
      is_less_or_equal (trial_a t As_max pu) (TShape.flange_depth t)
      = is_less_or_equal (a_max section) (TShape.flange_depth t) /\
      1e-9 <= Rabs (eta conc * 0.85 * fck conc * beta1 conc
                    * TShape.web_width t)
  end.

(** Two trial areas sent to the same branch by [_analyze_tsection]
    (vacuous for a rectangular section). *)
Definition same_branch (section : BaseSection) (As1 As2 Pu : R) : Prop :=
  match section with
  | RectangularSection _ => True
  | TSection t =>
      is_less_or_equal (trial_a t As1 Pu) (TShape.flange_depth t)
      = is_less_or_equal (trial_a t As2 Pu) (TShape.flange_depth t)
  end.


Module Examples.

(** The materials and sections built by the [__main__] blocks of
    [core/section/rectangular.py] and [core/section/tshape.py]. *)
Definition c24_material : Concrete :=
  {| fck := 24; unit_mass := 2300.0; lightweight_factor_lambda := 1.0 |}.

Definition c30_material : Concrete :=
  {| fck := 30; unit_mass := 2300.0; lightweight_factor_lambda := 1.0 |}.

Definition s400_material : Steel := {| grade := SD400 |}.

Definition s500_material : Steel := {| grade := SD500 |}.

Definition beam_section : Rectangular.RectangularSection :=
  {| Rectangular.width := 400;
     Rectangular.height := 600;
     Rectangular.cover_to_stirrup := 50;
     Rectangular.stirrup_dia := 13;
     Rectangular.tension_rebar_dia := 25;
     Rectangular.concrete := c24_material;
     Rectangular.tension_steel := s400_material;
     Rectangular.compression_rebar_dia := None;
     Rectangular.compression_steel := None |}.

Definition t_beam_section : TShape.TSection :=
  {| TShape.height := 800;
     TShape.web_width := 400;
     TShape.flange_width := 1000;
     TShape.flange_depth := 150;
     TShape.cover_to_stirrup := 40;
     TShape.stirrup_dia := 10;
     TShape.tension_rebar_dia := 25;
     TShape.concrete := c30_material;
     TShape.tension_steel := s500_material;
     TShape.compression_rebar_dia := None;
     TShape.compression_steel := None |}.

(** [t_beam_section] with its web narrowed to nothing: every dimension is
    still non-negative and the flange is not narrower than the web, so
    the constructor accepts it. *)
Definition flange_only_section : TShape.TSection :=
  {| TShape.height := 800;
     TShape.web_width := 0;
     TShape.flange_width := 1000;
     TShape.flange_depth := 150;
     TShape.cover_to_stirrup := 40;
     TShape.stirrup_dia := 10;
     TShape.tension_rebar_dia := 25;
     TShape.concrete := c30_material;
     TShape.tension_steel := s500_material;
     TShape.compression_rebar_dia := None;
     TShape.compression_steel := None |}.

(** [beam_section] made 1e200 mm high: every dimension is non-negative
    and the effective depth is positive, so the constructor accepts it;
    the cube of its height is too large for a float. *)
Definition tall_section : Rectangular.RectangularSection :=
  {| Rectangular.width := 400;
     Rectangular.height := 1e200;
     Rectangular.cover_to_stirrup := 50;
     Rectangular.stirrup_dia := 13;
     Rectangular.tension_rebar_dia := 25;
     Rectangular.concrete := c24_material;
     Rectangular.tension_steel := s400_material;
     Rectangular.compression_rebar_dia := None;
     Rectangular.compression_steel := None |}.


(** A T-section with no web and no flange depth, one nanometre high:
    every dimension is non-negative, the flange is not narrower than the
    web, the flange depth is below the height and the effective depth is
    positive, so the constructor accepts it; its gross area is zero. *)
Definition hairline_section : TShape.TSection :=
  {| TShape.height := 1e-9;
     TShape.web_width := 0;
     TShape.flange_width := 1;
     TShape.flange_depth := 0;
     TShape.cover_to_stirrup := 0;
     TShape.stirrup_dia := 0;
     TShape.tension_rebar_dia := 0;
     TShape.concrete := c24_material;
     TShape.tension_steel := s400_material;
     TShape.compression_rebar_dia := None;
     TShape.compression_steel := None |}.

End Examples.

(* ================================================================== *)
(** ** Proof automation *)
(* ================================================================== *)

(** Decide every comparison in sight, keeping the order facts. *)
Ltac rdec :=
  unfold is_greater_or_equal, is_less_or_equal, is_equal, TOLERANCE,
    Rgtb, Rgeb, Rltb, Rleb in *;
  repeat match goal with
    | |- context [Rlt_dec ?a ?b] => destruct (Rlt_dec a b)
    | |- context [Rle_dec ?a ?b] => destruct (Rle_dec a b)
    | H : context [Rlt_dec ?a ?b] |- _ => destruct (Rlt_dec a b)
    | H : context [Rle_dec ?a ?b] |- _ => destruct (Rle_dec a b)
    end.

(** Solve a constructor check on explicit numbers. *)
Ltac constructed_by_computation :=
  unfold Section.constructed, Concrete_post_init, Steel_post_init,
    Rectangular.post_init, TShape.post_init, Rectangular.effective_depth,
    TShape.effective_depth, fy;
  simpl; repeat split; rdec; simpl; try reflexivity; exfalso; lra.

(* ================================================================== *)
(** * Properties *)
(* ================================================================== *)

(** ** Comparisons *)

Lemma Rltb_true (a b : R) : (a <? b) = true <-> a < b.
Proof. unfold Rltb; destruct (Rlt_dec a b); split; intros; (easy || lra). Qed.

Lemma Rltb_false (a b : R) : (a <? b) = false <-> b <= a.
Proof. unfold Rltb; destruct (Rlt_dec a b); split; intros; (easy || lra). Qed.

Lemma Rleb_true (a b : R) : (a <=? b) = true <-> a <= b.
Proof. unfold Rleb; destruct (Rle_dec a b); split; intros; (easy || lra). Qed.

Lemma Rleb_false (a b : R) : (a <=? b) = false <-> b < a.
Proof. unfold Rleb; destruct (Rle_dec a b); split; intros; (easy || lra). Qed.

Lemma is_greater_or_equal_true (a b : R) :
  is_greater_or_equal a b = true <-> a - b > - 1e-9.
Proof.
  unfold is_greater_or_equal, Rgtb, TOLERANCE. rewrite Rltb_true. lra.
Qed.

Lemma is_less_or_equal_true (a b : R) :
  is_less_or_equal a b = true <-> a - b < 1e-9.
Proof. unfold is_less_or_equal, TOLERANCE. now rewrite Rltb_true. Qed.

Lemma is_less_or_equal_false (a b : R) :
  is_less_or_equal a b = false <-> 1e-9 <= a - b.
Proof. unfold is_less_or_equal, TOLERANCE. now rewrite Rltb_false. Qed.

Lemma fdiv_by_zero (a b : R) : b = 0 -> fdiv a b = Raise ZeroDivisionError.
Proof.
  intros H. unfold fdiv. destruct (Req_dec_T b 0); [reflexivity|tauto].
Qed.

Lemma fdiv_ok (a b : R) : b <> 0 -> fdiv a b = Ok (a / b).
Proof. intros Hb. unfold fdiv. destruct (Req_dec_T b 0); [contradiction|reflexivity]. Qed.

Lemma scaled_fraction_bounds (W x D : R) :
  0 <= W -> 0 <= x <= D -> 0 < D -> 0 <= W * x / D <= W.
Proof.
  intros HW Hx HD. split.
  - apply Rmult_le_pos; [nra|]. left. now apply Rinv_0_lt_compat.
  - apply (Rmult_le_reg_r D); [lra|].
    replace (W * x / D * D) with (W * x) by (field; lra). nra.
Qed.

(** ** Materials *)

Lemma fy_cases (s : Steel) :
  fy s = 300 \/ fy s = 350 \/ fy s = 400 \/ fy s = 500 \/ fy s = 600.
Proof. destruct s as [[]]; unfold fy; simpl; tauto. Qed.

Lemma fy_pos (s : Steel) : 300 <= fy s <= 600.
Proof. destruct (fy_cases s) as [H|[H|[H|[H|H]]]]; rewrite H; lra. Qed.

Lemma steel_limit_strains (s : Steel) :
  0.0015 <= compression_controlled_limit_strain s <= 0.003 /\
  0.003 <= tension_controlled_limit_strain s
           - compression_controlled_limit_strain s /\
  0.002 <= min_allowable_tensile_strain s
           - compression_controlled_limit_strain s /\
  0.001 <= tension_controlled_limit_strain s
           - min_allowable_tensile_strain s /\
  0.004 <= min_allowable_tensile_strain s <= 0.006.
Proof.
  unfold compression_controlled_limit_strain, tension_controlled_limit_strain,
    min_allowable_tensile_strain, yield_strain, Es, STEEL_ELASTIC_MODULUS.
  destruct (fy_cases s) as [H|[H|[H|[H|H]]]]; rewrite H; rdec; lra.
Qed.

Lemma beta1_range (c : Concrete) : 0.64 <= beta1 c <= 0.80.
Proof.
  unfold beta1. rdec; try lra.
  unfold Rmax. destruct (Rle_dec _ _); lra.
Qed.

Lemma eta_range (c : Concrete) : 0.84 <= eta c <= 1.
Proof.
  unfold eta. rdec; try lra.
  unfold Rmax. destruct (Rle_dec _ _); lra.
Qed.

Lemma ultimate_strain_range (c : Concrete) :
  0.0028 <= ultimate_strain c <= 0.0033.
Proof.
  unfold ultimate_strain. rdec; try lra.
  unfold Rmax. destruct (Rle_dec _ _); lra.
Qed.

Lemma Concrete_post_init_ok (c : Concrete) :
  Concrete_post_init c = Ok tt ->
  0 < fck c /\ 0.75 <= lightweight_factor_lambda c <= 1.
Proof.
  unfold Concrete_post_init. rdec; simpl; intros H; try discriminate; lra.
Qed.

(** ** The strength-reduction factor *)

Section PhiFacts.

Variable const : Constants.

Lemma calculate_phi_cases (steel : Steel) (et : R) :
  let e_ccl := compression_controlled_limit_strain steel in
  let e_tcl := tension_controlled_limit_strain steel in
  (et - e_tcl > - 1e-9 /\
   _calculate_phi const steel et = Ok (PHI_TENSION_CONTROLLED const)) \/
  (et - e_ccl < 1e-9 /\
   _calculate_phi const steel et = Ok (PHI_COMPRESSION_CONTROLLED_TIED const)) \/
  (et - e_tcl <= - 1e-9 /\ 1e-9 <= et - e_ccl /\
   _calculate_phi const steel et =
     Ok (PHI_COMPRESSION_CONTROLLED_TIED const
         + (PHI_TENSION_CONTROLLED const
            - PHI_COMPRESSION_CONTROLLED_TIED const)
           * (et - e_ccl) / (e_tcl - e_ccl))).
Proof.
  intros e_ccl e_tcl.
  pose proof (steel_limit_strains steel) as (_ & Hd & _).
  fold e_ccl e_tcl in Hd.
  unfold _calculate_phi. fold e_ccl e_tcl.
  destruct (is_greater_or_equal et e_tcl) eqn:Hge.
  - left. apply is_greater_or_equal_true in Hge. auto.
  - destruct (is_less_or_equal et e_ccl) eqn:Hle.
    + right; left. apply is_less_or_equal_true in Hle. auto.
    + right; right. apply is_less_or_equal_false in Hle.
      assert (Hn : ~ (et - e_tcl > - 1e-9)).
      { intros Hc. apply is_greater_or_equal_true in Hc. congruence. }
      rewrite fdiv_ok by lra. simpl. repeat split; try lra.
Qed.

End PhiFacts.

(** ** The analyzers, read backwards from a result *)

Section AnalyzerFacts.

Variable const : Constants.

Lemma calculate_phi_total (steel : Steel) (et : R) :
  exists p, _calculate_phi const steel et = Ok p.
Proof.
  destruct (calculate_phi_cases const steel et) as [[_ H]|[[_ H]|(_ & _ & H)]];
    eauto.
Qed.

Lemma calculate_phi_range (steel : Steel) (et p : R) :
  PHI_COMPRESSION_CONTROLLED_TIED const <= PHI_TENSION_CONTROLLED const ->
  _calculate_phi const steel et = Ok p ->
  PHI_COMPRESSION_CONTROLLED_TIED const <= p <= PHI_TENSION_CONTROLLED const.
Proof.
  intros Hc Hp.
  pose proof (steel_limit_strains steel) as (_ & Hd & _).
  destruct (calculate_phi_cases const steel et)
    as [[_ H]|[[_ H]|(Hu & Hl & H)]];
    rewrite H in Hp; injection Hp as <-; try lra.
  pose proof (scaled_fraction_bounds
                (PHI_TENSION_CONTROLLED const
                 - PHI_COMPRESSION_CONTROLLED_TIED const)
                (et - compression_controlled_limit_strain steel)
                (tension_controlled_limit_strain steel
                 - compression_controlled_limit_strain steel)).
  lra.
Qed.

Lemma analyze_rectangular_inv (s : Rectangular.RectangularSection)
  (As Pu : R) (r : AnalysisResult) :
  _analyze_rectangular const s As Pu = Ok r ->
  let conc := Rectangular.concrete s in
  let den := eta conc * 0.85 * fck conc * beta1 conc * Rectangular.width s in
  let a := beta1 conc * c r in
  1e-9 <= Rabs den /\
  c r = (As * fy (Rectangular.tension_steel s) - Pu) / den /\
  0 < c r /\
  net_tensile_strain r
    = ultimate_strain conc * (Rectangular.effective_depth s - c r) / c r /\
  _calculate_phi const (Rectangular.tension_steel s) (net_tensile_strain r)
    = Ok (phi r) /\
  phi_mn r
    = phi r * (eta conc * 0.85 * fck conc * a * Rectangular.width s
               * (Rectangular.effective_depth s - a / 2)
               + Pu * (Rectangular.effective_depth s
                       - Rectangular.height s / 2)).
Proof.
  intros H conc den a. unfold _analyze_rectangular in H.
  fold conc in H. fold den in H.
  destruct (Rabs den <? 1e-9) eqn:Hden; [discriminate|].
  apply Rltb_false in Hden.
  assert (Hnz : den <> 0).
  { intros E. rewrite E, Rabs_R0 in Hden. lra. }
  rewrite fdiv_ok in H by exact Hnz. simpl in H.
  destruct (_ <=? 0) eqn:Hc in H; [discriminate|].
  apply Rleb_false in Hc.
  rewrite fdiv_ok in H by lra. simpl in H.
  destruct (_calculate_phi _ _ _) as [p|e] eqn:Hp in H; [|discriminate].
  simpl in H. injection H as <-. simpl. subst a. simpl.
  repeat split; auto.
Qed.

Lemma tsection_finish_inv (s : TShape.TSection) (c0 Mn : R)
  (r : AnalysisResult) :
  _tsection_finish const s c0 Mn = Ok r ->
  c r = c0 /\ 0 < c0 /\
  net_tensile_strain r
    = ultimate_strain (TShape.concrete s)
      * (TShape.effective_depth s - c0) / c0 /\
  _calculate_phi const (TShape.tension_steel s) (net_tensile_strain r)
    = Ok (phi r) /\
  phi_mn r = phi r * Mn.
Proof.
  unfold _tsection_finish. intros H.
  destruct (c0 <=? 0) eqn:Hc; [discriminate|].
  apply Rleb_false in Hc.
  rewrite fdiv_ok in H by lra. simpl in H.
  destruct (_calculate_phi _ _ _) as [p|e] eqn:Hp in H; [|discriminate].
  simpl in H. injection H as <-. simpl. repeat split; auto.
Qed.

Lemma analyze_section_phi (section : BaseSection) (As Pu Ap : R)
  (r : AnalysisResult) :
  _analyze_section const section As Pu Ap = Ok r ->
  _calculate_phi const (Section.tension_steel section) (net_tensile_strain r)
    = Ok (phi r).
Proof.
  unfold _analyze_section. destruct (Ap >? 0); [discriminate|].
  destruct section as [s|s]; simpl.
  - intros H. apply analyze_rectangular_inv in H. tauto.
  - unfold _analyze_tsection.
    destruct (_ <? 1e-9); [discriminate|].
    destruct (fdiv _ _) as [c0|e]; [|discriminate]. simpl.
    destruct (if is_less_or_equal _ _ then _ else _) as [[c1 Mn]|e];
      [|discriminate].
    simpl. intros H. apply tsection_finish_inv in H. tauto.
Qed.

End AnalyzerFacts.

(** C8: the strength-reduction factor is a function of the net tensile
    strain and of the steel's two limit strains only.  It always returns;
    it is the tension-controlled constant when [et >= e_tcl] and the
    compression-controlled (tied) constant when [et <= e_ccl], both read
    with the absolute tolerance 1e-9, and the linear interpolation
    [phi_ccl + (phi_tcl - phi_ccl) * (et - e_ccl) / (e_tcl - e_ccl)]
    otherwise; two steels with the same limit strains get the same
    factor. *)
Theorem calculate_phi_piecewise :
  forall (const : Constants) (steel : Steel) (et : R),
    let e_ccl := compression_controlled_limit_strain steel in
    let e_tcl := tension_controlled_limit_strain steel in
    let phi_tcl := PHI_TENSION_CONTROLLED const in
    let phi_ccl := PHI_COMPRESSION_CONTROLLED_TIED const in
    exists p : R,
      _calculate_phi const steel et = Ok p /\
      (is_greater_or_equal et e_tcl = true <-> et - e_tcl > - 1e-9) /\
      (is_less_or_equal et e_ccl = true <-> et - e_ccl < 1e-9) /\
      (is_greater_or_equal et e_tcl = true -> p = phi_tcl) /\
      (is_less_or_equal et e_ccl = true -> p = phi_ccl) /\
      (is_greater_or_equal et e_tcl = false ->
       is_less_or_equal et e_ccl = false ->
       p = phi_ccl + (phi_tcl - phi_ccl) * (et - e_ccl) / (e_tcl - e_ccl)) /\
      (forall steel' : Steel,
         compression_controlled_limit_strain steel' = e_ccl ->
         tension_controlled_limit_strain steel' = e_tcl ->
         _calculate_phi const steel' et = Ok p).
Proof.
  intros const steel et e_ccl e_tcl phi_tcl phi_ccl.
  pose proof (steel_limit_strains steel) as (_ & Hd & _).
  fold e_ccl e_tcl in Hd.
  destruct (calculate_phi_total const steel et) as [p Hp].
  exists p. split; [exact Hp|].
  split; [apply is_greater_or_equal_true|].
  split; [apply is_less_or_equal_true|].
  destruct (calculate_phi_cases const steel et)
    as [[Hc H]|[[Hc H]|(Hu & Hl & H)]];
    fold e_ccl e_tcl in Hc || fold e_ccl e_tcl in Hu, Hl;
    fold e_ccl e_tcl phi_tcl phi_ccl in H;
    rewrite H in Hp; injection Hp as <-.
  - repeat split.
    + intros Hle. apply is_less_or_equal_true in Hle. lra.
    + intros Hge. apply is_greater_or_equal_true in Hc. congruence.
    + intros steel' E1 E2. unfold _calculate_phi. rewrite E1, E2.
      apply is_greater_or_equal_true in Hc. now rewrite Hc.
  - assert (Hge : is_greater_or_equal et e_tcl = false).
    { destruct (is_greater_or_equal et e_tcl) eqn:E; [|reflexivity].
      apply is_greater_or_equal_true in E. lra. }
    repeat split.
    + intros E. congruence.
    + intros _ Hle. apply is_less_or_equal_true in Hc. congruence.
    + intros steel' E1 E2. unfold _calculate_phi. rewrite E1, E2, Hge.
      apply is_less_or_equal_true in Hc. now rewrite Hc.
  - assert (Hge : is_greater_or_equal et e_tcl = false).
    { destruct (is_greater_or_equal et e_tcl) eqn:E; [|reflexivity].
      apply is_greater_or_equal_true in E. lra. }
    assert (Hle : is_less_or_equal et e_ccl = false)
      by (apply is_less_or_equal_false; lra).
    repeat split.
    + intros E. congruence.
    + intros E. congruence.
    + intros steel' E1 E2. unfold _calculate_phi. rewrite E1, E2, Hge, Hle.
      rewrite fdiv_ok by lra. reflexivity.
Qed.

Lemma analyze_rectangular_outcome (const : Constants)
  (s : Rectangular.RectangularSection) (As Pu : R) :
  let conc := Rectangular.concrete s in
  let den := eta conc * 0.85 * fck conc * beta1 conc * Rectangular.width s in
  let c0 := (As * fy (Rectangular.tension_steel s) - Pu) / den in
  let et := ultimate_strain conc * (Rectangular.effective_depth s - c0) / c0 in
  (Rabs den < 1e-9 /\
   _analyze_rectangular const s As Pu
     = Raise (SectionCapacityError InvalidSectionData)) \/
  (1e-9 <= Rabs den /\ c0 <= 0 /\
   _analyze_rectangular const s As Pu
     = Raise (SectionCapacityError NeutralAxisOutside)) \/
  (1e-9 <= Rabs den /\ 0 < c0 /\
   exists p,
     _calculate_phi const (Rectangular.tension_steel s) et = Ok p /\
     _analyze_rectangular const s As Pu
       = Ok {| c := c0; net_tensile_strain := et; phi := p;
               phi_mn :=
                 p * (eta conc * 0.85 * fck conc * (beta1 conc * c0)
                      * Rectangular.width s
                      * (Rectangular.effective_depth s
                         - beta1 conc * c0 / 2)
                      + Pu * (Rectangular.effective_depth s
                              - Rectangular.height s / 2)) |}).
Proof.
  intros conc den c0 et. unfold _analyze_rectangular. fold conc. fold den.
  destruct (Rabs den <? 1e-9) eqn:Hden.
  - apply Rltb_true in Hden. left. auto.
  - apply Rltb_false in Hden. right.
    rewrite fdiv_ok by (intros E; rewrite E, Rabs_R0 in Hden; lra).
    simpl. fold c0.
    destruct (c0 <=? 0) eqn:Hc.
    + apply Rleb_true in Hc. left. auto.
    + apply Rleb_false in Hc. right.
      rewrite fdiv_ok by lra. simpl. fold et.
      destruct (calculate_phi_total const (Rectangular.tension_steel s) et)
        as [p Hp].
      split; [exact Hden|]. split; [exact Hc|].
      exists p. split; [exact Hp|]. now rewrite Hp.
Qed.

(** ** The public operations, read backwards from a result *)

Lemma bind_Ok_inv {A B : Type} (m : result A) (k : A -> result B) (b : B) :
  bind m k = Ok b -> exists a, m = Ok a /\ k a = Ok b.
Proof. destruct m as [a|e]; simpl; [eauto|discriminate]. Qed.

Lemma bind_Ok {A B : Type} (a : A) (k : A -> result B) :
  bind (Ok a) k = k a.
Proof. reflexivity. Qed.

Lemma bind_Raise_inv {A B : Type} (m : result A) (k : A -> result B)
  (e : exn) :
  bind m k = Raise e ->
  m = Raise e \/ exists a, m = Ok a /\ k a = Raise e.
Proof. destruct m as [a|e']; simpl; [eauto|intros [= ->]; auto]. Qed.

Section OperationFacts.

Variable const : Constants.

Lemma check_axial_load_limit_cases (section : BaseSection) (pu : R) :
  let limit := _get_max_axial_capacity const section 0.01 in
  (0 < pu /\ limit < pu /\
   _check_axial_load_limit const section pu
     = Raise (SectionCapacityError (AxialLoadExceeded pu limit))) \/
  ((pu <= 0 \/ pu <= limit) /\
   _check_axial_load_limit const section pu = Ok tt).
Proof.
  intros limit. unfold _check_axial_load_limit. fold limit.
  unfold Rgtb.
  destruct (0 <? pu) eqn:H0.
  - apply Rltb_true in H0. destruct (limit <? pu) eqn:H1.
    + apply Rltb_true in H1. left. auto.
    + apply Rltb_false in H1. right. auto.
  - apply Rltb_false in H0. right. auto.
Qed.

Lemma balanced_ratio_defined (section : BaseSection) :
  fdiv (ultimate_strain (Section.concrete section))
       (ultimate_strain (Section.concrete section)
        + min_allowable_tensile_strain (Section.tension_steel section))
  = Ok (ultimate_strain (Section.concrete section)
        / (ultimate_strain (Section.concrete section)
           + min_allowable_tensile_strain (Section.tension_steel section))).
Proof.
  apply fdiv_ok.
  pose proof (ultimate_strain_range (Section.concrete section)).
  pose proof (steel_limit_strains (Section.tension_steel section)).
  lra.
Qed.

Lemma get_maximum_capacity_unfold (section : BaseSection) (pu : R) :
  get_maximum_capacity const section pu =
  (_check_axial_load_limit const section pu ;;;
   let As_max := (Cc_max section + pu) / fy (Section.tension_steel section) in
   if As_max <? 0 then Raise (SectionCapacityError TensionTooLarge)
   else
     result <- _analyze_section const section As_max pu 0.0 ;;
     Ok {| cap_as_max := As_max; max_phi_mn := phi_mn result;
           cap_analysis_result := result |}).
Proof.
  unfold get_maximum_capacity.
  destruct (_check_axial_load_limit const section pu) as [[]|e]; simpl;
    [|reflexivity].
  rewrite balanced_ratio_defined. simpl.
  pose proof (fy_pos (Section.tension_steel section)).
  rewrite fdiv_ok by lra. simpl.
  destruct section; reflexivity.
Qed.

Lemma get_maximum_capacity_inv (section : BaseSection) (pu : R)
  (cap : CapacityResult) :
  get_maximum_capacity const section pu = Ok cap ->
  _check_axial_load_limit const section pu = Ok tt /\
  cap_as_max cap
    = (Cc_max section + pu) / fy (Section.tension_steel section) /\
  0 <= cap_as_max cap /\
  _analyze_section const section (cap_as_max cap) pu 0.0
    = Ok (cap_analysis_result cap) /\
  max_phi_mn cap = phi_mn (cap_analysis_result cap).
Proof.
  rewrite get_maximum_capacity_unfold. intros H.
  apply bind_Ok_inv in H. destruct H as ([] & Hax & H).
  cbv zeta in H.
  destruct (_ <? 0) eqn:Hneg in H; [discriminate|].
  apply Rltb_false in Hneg.
  apply bind_Ok_inv in H. destruct H as (r & Hr & H).
  injection H as <-. simpl. auto.
Qed.

(** The bisection keeps its upper bound inside the bracket it was given. *)
Lemma find_as_loop_bounds (section : BaseSection) (target_mu pu : R)
  (n : nat) :
  forall lo hi v,
    lo <= hi ->
    _find_as_loop const section target_mu pu n lo hi = Ok v ->
    lo <= v <= hi.
Proof.
  induction n as [|n IH]; intros lo hi v Hle; simpl.
  - intros [= <-]. lra.
  - destruct (hi - lo <? 1e-9).
    + intros [= <-]. lra.
    + intros H. apply bind_Ok_inv in H. destruct H as (r & _ & H).
      destruct (phi_mn r <? target_mu).
      * apply IH in H; lra.
      * apply IH in H; lra.
Qed.

Lemma find_as_for_mu_bounds (section : BaseSection)
  (target_mu pu as_upper_bound v : R) :
  0 <= as_upper_bound ->
  _find_as_for_mu const section target_mu pu as_upper_bound = Ok v ->
  0 <= v <= as_upper_bound.
Proof.
  unfold _find_as_for_mu. intros Hub.
  destruct (target_mu <? 0); [discriminate|].
  intros H. apply find_as_loop_bounds in H; lra.
Qed.

Lemma design_flexural_reinforcement_inv (section : BaseSection) (mu pu : R)
  (r : DesignResult) :
  design_flexural_reinforcement const section mu pu = Ok r ->
  exists cap Mcr as_strength,
    0 <= mu /\
    get_maximum_capacity const section pu = Ok cap /\
    Section.cracking_moment section = Ok Mcr /\
    as_max r = cap_as_max cap /\
    (if MIN_FLEXURAL_STRENGTH_FACTOR const * Mcr >? 0
     then _find_as_for_mu const section
            (MIN_FLEXURAL_STRENGTH_FACTOR const * Mcr) pu (cap_as_max cap)
     else Ok 0.0) = Ok (as_min r) /\
    is_less_or_equal mu (max_phi_mn cap) = true /\
    _find_as_for_mu const section mu pu (cap_as_max cap) = Ok as_strength /\
    as_required r = Rmax as_strength (as_min r) /\
    _analyze_section const section (as_required r) pu 0.0
      = Ok (design_analysis_result r).
Proof.
  unfold design_flexural_reinforcement. intros H.
  destruct (mu <? 0) eqn:Hmu; [discriminate|]. apply Rltb_false in Hmu.
  apply bind_Ok_inv in H. destruct H as ([] & _ & H).
  apply bind_Ok_inv in H. destruct H as (cap & Hcap & H).
  apply bind_Ok_inv in H. destruct H as (Mcr & HMcr & H).
  apply bind_Ok_inv in H. destruct H as (As_min & Hmin & H).
  destruct (is_less_or_equal mu (max_phi_mn cap)) eqn:Hle; simpl in H;
    [|discriminate].
  apply bind_Ok_inv in H. destruct H as (as_strength & Hs & H).
  apply bind_Ok_inv in H. destruct H as (res & Hres & H).
  injection H as <-. simpl.
  exists cap, Mcr, as_strength. repeat split; auto.
Qed.

Lemma check_section_adequacy_inv (section : BaseSection)
  (as_provided mu pu : R) (r : CheckResult) :
  check_section_adequacy const section as_provided mu pu = Ok r ->
  0 <= as_provided /\
  _analyze_section const section as_provided pu 0.0 = Ok (analysis_result r).
Proof.
  unfold check_section_adequacy. intros H.
  destruct (as_provided <? 0) eqn:Has; [discriminate|].
  apply Rltb_false in Has.
  apply bind_Ok_inv in H. destruct H as (a & Ha & H).
  apply bind_Ok_inv in H. destruct H as (Mcr & HMcr & H).
  injection H as <-. simpl. auto.
Qed.

End OperationFacts.

(** ** What the constructors guarantee *)

Lemma Rectangular_post_init_ok (s : Rectangular.RectangularSection) :
  Rectangular.post_init s = Ok tt ->
  0 <= Rectangular.width s /\ 0 <= Rectangular.height s /\
  0 <= Rectangular.cover_to_stirrup s /\ 0 <= Rectangular.stirrup_dia s /\
  0 <= Rectangular.tension_rebar_dia s /\
  0 < Rectangular.effective_depth s.
Proof.
  unfold Rectangular.post_init. simpl. rdec; simpl; intros H;
    try discriminate; repeat split; lra.
Qed.

Lemma TShape_post_init_ok (s : TShape.TSection) :
  TShape.post_init s = Ok tt ->
  0 <= TShape.web_width s /\ 0 <= TShape.height s /\
  0 <= TShape.flange_width s /\ 0 <= TShape.flange_depth s /\
  0 <= TShape.cover_to_stirrup s /\ 0 <= TShape.stirrup_dia s /\
  0 <= TShape.tension_rebar_dia s /\
  TShape.web_width s <= TShape.flange_width s /\
  TShape.flange_depth s < TShape.height s /\
  0 < TShape.effective_depth s.
Proof.
  unfold TShape.post_init. simpl. rdec; simpl; intros H;
    try discriminate; repeat split; lra.
Qed.

Lemma constructed_concrete (section : BaseSection) :
  Section.constructed section ->
  0 < fck (Section.concrete section) /\
  0 < eta (Section.concrete section) * 0.85 * fck (Section.concrete section).
Proof.
  intros (Hc & _). apply Concrete_post_init_ok in Hc.
  pose proof (eta_range (Section.concrete section)).
  split; [tauto|]. nra.
Qed.

Lemma constructed_effective_depth (section : BaseSection) :
  Section.constructed section -> 0 < Section.effective_depth section.
Proof.
  intros (_ & _ & H). destruct section as [s|s]; simpl.
  - apply Rectangular_post_init_ok in H. tauto.
  - apply TShape_post_init_ok in H. tauto.
Qed.

Lemma modulus_of_rupture_defined (c : Concrete) :
  0 < fck c ->
  modulus_of_rupture c
  = Ok (0.63 * lightweight_factor_lambda c * sqrt (fck c)).
Proof.
  intros H. unfold modulus_of_rupture, math_sqrt.
  assert (E : (fck c <? 0) = false) by (apply Rltb_false; lra).
  now rewrite E.
Qed.

(** *** Powers within the range of a float *)

Lemma float_pow_ok (x : R) (n : nat) :
  Rabs (x ^ n) <= FLOAT_MAX -> float_pow x n = Ok (x ^ n).
Proof.
  intros H. unfold float_pow.
  assert (E : (Rabs (x ^ n) >? FLOAT_MAX) = false)
    by (apply Rltb_false; exact H).
  now rewrite E.
Qed.

Lemma float_pow_raises (x : R) (n : nat) (e : exn) :
  float_pow x n = Raise e ->
  e = OverflowError /\ FLOAT_MAX < Rabs (x ^ n).
Proof.
  unfold float_pow.
  destruct (Rabs (x ^ n) >? FLOAT_MAX) eqn:E; [|discriminate].
  apply Rltb_true in E. intros [= <-]. auto.
Qed.

Lemma FLOAT_MAX_large : 1 <= FLOAT_MAX.
Proof. unfold FLOAT_MAX. lra. Qed.

Lemma cube_in_range (x h : R) :
  0 <= x <= h -> h ^ 3 <= FLOAT_MAX -> Rabs (x ^ 3) <= FLOAT_MAX.
Proof.
  intros Hx Hh.
  assert (H0 : 0 <= x ^ 3) by (apply pow_le; lra).
  assert (H1 : x ^ 3 <= h ^ 3) by (apply pow_incr; lra).
  rewrite Rabs_right; lra.
Qed.

Lemma square_in_range (x h : R) :
  0 <= x <= h -> h ^ 3 <= FLOAT_MAX -> Rabs (x ^ 2) <= FLOAT_MAX.
Proof.
  intros Hx Hh. pose proof FLOAT_MAX_large as HM.
  assert (H0 : 0 <= x ^ 2) by (apply pow_le; lra).
  assert (H1 : x ^ 2 <= h ^ 2) by (apply pow_incr; lra).
  rewrite Rabs_right by lra.
  destruct (Rle_dec h 1) as [Hs|Hl].
  - assert (H2 : h ^ 2 <= 1 ^ 2) by (apply pow_incr; lra).
    rewrite pow1 in H2. lra.
  - assert (H2 : 0 <= h ^ 2) by (apply pow_le; lra).
    assert (H3 : h ^ 2 * 1 <= h ^ 2 * h)
      by (apply Rmult_le_compat_l; lra).
    replace (h ^ 2 * h) with (h ^ 3) in H3 by ring. lra.
Qed.

Lemma Rectangular_Ig_defined (s : Rectangular.RectangularSection) :
  0 <= Rectangular.height s ->
  Rectangular.height s ^ 3 <= FLOAT_MAX ->
  Rectangular.Ig s
  = Ok (Rectangular.width s * Rectangular.height s ^ 3 / 12).
Proof.
  intros H0 Hr. unfold Rectangular.Ig.
  rewrite float_pow_ok by (apply (cube_in_range _ (Rectangular.height s));
                           lra).
  reflexivity.
Qed.

Lemma Rectangular_cracking_moment_defined (s : Rectangular.RectangularSection) :
  Section.constructed (RectangularSection s) ->
  Rectangular.height s ^ 3 <= FLOAT_MAX ->
  exists Mcr, Rectangular.cracking_moment s = Ok Mcr.
Proof.
  intros Hs Hr. pose proof (constructed_concrete _ Hs) as [Hf _].
  destruct Hs as (_ & _ & Hs). apply Rectangular_post_init_ok in Hs.
  unfold Rectangular.cracking_moment. simpl in Hf.
  rewrite modulus_of_rupture_defined by exact Hf. rewrite bind_Ok.
  rewrite Rectangular_Ig_defined by tauto. rewrite bind_Ok. cbv zeta.
  rewrite fdiv_ok; [eauto|].
  unfold Rectangular.effective_depth in Hs. lra.
Qed.

Lemma TShape_centroid_below_height (s : TShape.TSection) (yc : R) :
  TShape.post_init s = Ok tt ->
  TShape.centroid_y s = Ok yc ->
  yc < TShape.height s.
Proof.
  intros Hs. apply TShape_post_init_ok in Hs.
  destruct Hs as (Hbw & Hh & Hbf & Hhf & _ & _ & _ & Hw & Hlt & _).
  unfold TShape.centroid_y, fdiv.
  destruct (Req_dec_T (TShape.gross_area s) 0) as [|Hnz]; [discriminate|].
  intros [= <-]. unfold TShape.gross_area in *.
  set (fa := TShape.flange_width s * TShape.flange_depth s) in *.
  set (wa := TShape.web_width s
             * (TShape.height s - TShape.flange_depth s)) in *.
  assert (Hfa : 0 <= fa) by (unfold fa; nra).
  assert (Hwa : 0 <= wa) by (unfold wa; nra).
  assert (Hpos : 0 < fa + wa) by lra.
  apply (Rmult_lt_reg_r (fa + wa)); [exact Hpos|].
  replace ((fa * (TShape.flange_depth s / 2)
            + wa * (TShape.flange_depth s
                    + (TShape.height s - TShape.flange_depth s) / 2))
           / (fa + wa) * (fa + wa))
    with (fa * (TShape.flange_depth s / 2)
          + wa * (TShape.flange_depth s
                  + (TShape.height s - TShape.flange_depth s) / 2))
    by (field; lra).
  nra.
Qed.

Lemma TShape_centroid_nonneg (s : TShape.TSection) (yc : R) :
  TShape.post_init s = Ok tt ->
  TShape.centroid_y s = Ok yc ->
  0 <= yc.
Proof.
  intros Hs. apply TShape_post_init_ok in Hs.
  destruct Hs as (Hbw & Hh & Hbf & Hhf & _ & _ & _ & Hw & Hlt & _).
  unfold TShape.centroid_y, fdiv.
  destruct (Req_dec_T (TShape.gross_area s) 0) as [|Hnz]; [discriminate|].
  intros [= <-]. unfold TShape.gross_area in *.
  set (fa := TShape.flange_width s * TShape.flange_depth s) in *.
  set (wa := TShape.web_width s
             * (TShape.height s - TShape.flange_depth s)) in *.
  assert (Hfa : 0 <= fa) by (unfold fa; nra).
  assert (Hwa : 0 <= wa) by (unfold wa; nra).
  assert (Hpos : 0 < fa + wa) by lra.
  apply (Rmult_le_reg_r (fa + wa)); [exact Hpos|].
  replace ((fa * (TShape.flange_depth s / 2)
            + wa * (TShape.flange_depth s
                    + (TShape.height s - TShape.flange_depth s) / 2))
           / (fa + wa) * (fa + wa))
    with (fa * (TShape.flange_depth s / 2)
          + wa * (TShape.flange_depth s
                  + (TShape.height s - TShape.flange_depth s) / 2))
    by (field; lra).
  nra.
Qed.

(** With the cube of the height in range, none of the four powers of
    [TSection.Ig] overflows. *)
Lemma TShape_Ig_defined (s : TShape.TSection) (yc : R) :
  TShape.post_init s = Ok tt ->
  TShape.centroid_y s = Ok yc ->
  TShape.height s ^ 3 <= FLOAT_MAX ->
  TShape.Ig s
  = Ok (TShape.flange_width s * TShape.flange_depth s ^ 3 / 12
        + TShape.flange_width s * TShape.flange_depth s
          * Rabs (yc - TShape.flange_depth s / 2) ^ 2
        + TShape.web_width s
          * (TShape.height s - TShape.flange_depth s) ^ 3 / 12
        + TShape.web_width s * (TShape.height s - TShape.flange_depth s)
          * Rabs (yc - (TShape.flange_depth s
                        + (TShape.height s - TShape.flange_depth s) / 2))
            ^ 2).
Proof.
  intros Hs Hyc Hr.
  pose proof (TShape_centroid_below_height s yc Hs Hyc) as Hlt.
  pose proof (TShape_centroid_nonneg s yc Hs Hyc) as Hge.
  apply TShape_post_init_ok in Hs.
  destruct Hs as (Hbw & Hh & Hbf & Hhf & _ & _ & _ & Hw & Hfh & _).
  unfold TShape.Ig.
  rewrite (float_pow_ok (TShape.flange_depth s) 3)
    by (apply (cube_in_range _ (TShape.height s)); lra).
  rewrite bind_Ok. cbv zeta.
  rewrite (float_pow_ok (TShape.height s - TShape.flange_depth s) 3)
    by (apply (cube_in_range _ (TShape.height s)); lra).
  rewrite bind_Ok, Hyc, bind_Ok. cbv zeta.
  rewrite (float_pow_ok (Rabs (yc - TShape.flange_depth s / 2)) 2).
  2: { apply (square_in_range _ (TShape.height s)); [|exact Hr].
       split; [apply Rabs_pos|]. apply Rabs_le. lra. }
  rewrite bind_Ok.
  rewrite (float_pow_ok
             (Rabs (yc - (TShape.flange_depth s
                          + (TShape.height s - TShape.flange_depth s) / 2)))
             2).
  2: { apply (square_in_range _ (TShape.height s)); [|exact Hr].
       split; [apply Rabs_pos|]. apply Rabs_le. lra. }
  rewrite bind_Ok. reflexivity.
Qed.

Lemma TShape_cracking_moment_defined (s : TShape.TSection) :
  Section.constructed (TSection s) ->
  0 < TShape.gross_area s ->
  TShape.height s ^ 3 <= FLOAT_MAX ->
  exists Mcr, TShape.cracking_moment s = Ok Mcr.
Proof.
  intros Hs Hag Hr. pose proof (constructed_concrete _ Hs) as [Hf _].
  destruct Hs as (_ & _ & Hs). simpl in Hf.
  unfold TShape.cracking_moment.
  rewrite modulus_of_rupture_defined by exact Hf. rewrite bind_Ok.
  assert (Hyc : exists yc, TShape.centroid_y s = Ok yc).
  { unfold TShape.centroid_y. rewrite fdiv_ok by lra. eauto. }
  destruct Hyc as [yc Hyc].
  pose proof (TShape_centroid_below_height s yc Hs Hyc) as Hlt.
  rewrite (TShape_Ig_defined s yc Hs Hyc Hr), bind_Ok, Hyc, bind_Ok.
  cbv zeta. rewrite fdiv_ok by lra. eauto.
Qed.

Lemma cracking_moment_defined (section : BaseSection) :
  Section.constructed section ->
  0 < Section.gross_area section ->
  Section.height section ^ 3 <= FLOAT_MAX ->
  exists Mcr, Section.cracking_moment section = Ok Mcr.
Proof.
  intros Hs Hag Hr. destruct section as [s|s]; simpl in *.
  - now apply Rectangular_cracking_moment_defined.
  - now apply TShape_cracking_moment_defined.
Qed.

(** The cracking moment of a constructed section with area can only fail
    by the overflow of a power. *)
Lemma cracking_moment_overflows (section : BaseSection) (e : exn) :
  Section.constructed section ->
  0 < Section.gross_area section ->
  Section.cracking_moment section = Raise e ->
  e = OverflowError /\ FLOAT_MAX < Section.height section ^ 3.
Proof.
  intros Hs Hag H.
  assert (Hgt : FLOAT_MAX < Section.height section ^ 3).
  { apply Rnot_le_lt. intros Hr.
    destruct (cracking_moment_defined section Hs Hag Hr) as [M HM].
    congruence. }
  split; [|exact Hgt].
  pose proof (constructed_concrete _ Hs) as [Hf _].
  destruct Hs as (_ & _ & Hs).
  destruct section as [s|s]; cbn [Section.cracking_moment Section.concrete
                                   Section.gross_area] in *.
  - apply Rectangular_post_init_ok in Hs.
    unfold Rectangular.cracking_moment in H.
    rewrite modulus_of_rupture_defined, bind_Ok in H by exact Hf.
    apply bind_Raise_inv in H. destruct H as [H|(Ig & _ & H)].
    + unfold Rectangular.Ig in H. apply bind_Raise_inv in H.
      destruct H as [H|(p & _ & H)]; [|discriminate].
      apply float_pow_raises in H. tauto.
    + cbv zeta in H. rewrite fdiv_ok in H; [discriminate|].
      unfold Rectangular.effective_depth in Hs. lra.
  - unfold TShape.cracking_moment in H.
    rewrite modulus_of_rupture_defined, bind_Ok in H by exact Hf.
    assert (Hyc : exists yc, TShape.centroid_y s = Ok yc).
    { unfold TShape.centroid_y. rewrite fdiv_ok by lra. eauto. }
    destruct Hyc as [yc Hyc].
    pose proof (TShape_centroid_below_height s yc Hs Hyc) as Hlt.
    apply bind_Raise_inv in H. destruct H as [H|(Ig & _ & H)].
    + unfold TShape.Ig in H.
      apply bind_Raise_inv in H. destruct H as [H|(p1 & _ & H)];
        [apply float_pow_raises in H; tauto|].
      cbv zeta in H.
      apply bind_Raise_inv in H. destruct H as [H|(p2 & _ & H)];
        [apply float_pow_raises in H; tauto|].
      rewrite Hyc, bind_Ok in H. cbv zeta in H.
      apply bind_Raise_inv in H. destruct H as [H|(q1 & _ & H)];
        [apply float_pow_raises in H; tauto|].
      apply bind_Raise_inv in H. destruct H as [H|(q2 & _ & H)];
        [apply float_pow_raises in H; tauto|discriminate].
    + rewrite Hyc, bind_Ok in H. cbv zeta in H.
      rewrite fdiv_ok in H by lra. discriminate.
Qed.

(** Without area the division of the centroid fails first; either way
    the cracking moment of a constructed section fails only by an
    overflow, which needs a height whose cube is out of range, or by the
    division by zero of a T-section without area. *)
Lemma cracking_moment_raises (section : BaseSection) (e : exn) :
  Section.constructed section ->
  Section.cracking_moment section = Raise e ->
  (e = OverflowError /\ FLOAT_MAX < Section.height section ^ 3) \/
  (e = ZeroDivisionError /\
   Section.gross_area section <= 0 /\
   exists t, section = TSection t).
Proof.
  intros Hs H.
  destruct (Rlt_dec 0 (Section.gross_area section)) as [Hpos|Hnp].
  - left. exact (cracking_moment_overflows section e Hs Hpos H).
  - pose proof (constructed_concrete _ Hs) as [Hf _].
    destruct Hs as (_ & _ & Hs).
    destruct section as [s|s];
      cbn [Section.cracking_moment Section.concrete Section.gross_area
           Section.height] in *.
    + left. apply Rectangular_post_init_ok in Hs.
      destruct Hs as (Hw & Hh & Hcov & Hst & Hdia & Hd).
      unfold Rectangular.cracking_moment in H.
      rewrite modulus_of_rupture_defined, bind_Ok in H by exact Hf.
      apply bind_Raise_inv in H. destruct H as [H|(Ig & _ & H)].
      * unfold Rectangular.Ig in H. apply bind_Raise_inv in H.
        destruct H as [H|(p & _ & H)]; [|discriminate].
        apply float_pow_raises in H. destruct H as [-> H].
        split; [reflexivity|].
        rewrite Rabs_right in H; [exact H|].
        apply Rle_ge, pow_le. exact Hh.
      * cbv zeta in H. rewrite fdiv_ok in H; [discriminate|].
        unfold Rectangular.effective_depth in Hd. lra.
    + pose proof (TShape_post_init_ok _ Hs)
        as (Hbw & Hh & Hbf & Hhf & _ & _ & _ & Hwf & Hfh & _).
      assert (Hg0 : TShape.gross_area s = 0).
      { unfold TShape.gross_area in *.
        assert (0 <= TShape.flange_width s * TShape.flange_depth s)
          by (apply Rmult_le_pos; lra).
        assert (0 <= TShape.web_width s
                     * (TShape.height s - TShape.flange_depth s))
          by (apply Rmult_le_pos; lra).
        lra. }
      assert (Ecen : TShape.centroid_y s = Raise ZeroDivisionError).
      { unfold TShape.centroid_y. apply fdiv_by_zero. exact Hg0. }
      unfold TShape.cracking_moment in H.
      rewrite modulus_of_rupture_defined, bind_Ok in H by exact Hf.
      apply bind_Raise_inv in H. destruct H as [H|(Ig & HIg & H)].
      * unfold TShape.Ig in H.
        apply bind_Raise_inv in H. destruct H as [H|(p1 & _ & H)].
        { left. apply float_pow_raises in H. destruct H as [-> H].
          split; [reflexivity|].
          rewrite Rabs_right in H by (apply Rle_ge, pow_le; lra).
          assert (TShape.flange_depth s ^ 3 <= TShape.height s ^ 3)
            by (apply pow_incr; lra).
          lra. }
        cbv zeta in H.
        apply bind_Raise_inv in H. destruct H as [H|(p2 & _ & H)].
        { left. apply float_pow_raises in H. destruct H as [-> H].
          split; [reflexivity|].
          rewrite Rabs_right in H by (apply Rle_ge, pow_le; lra).
          assert ((TShape.height s - TShape.flange_depth s) ^ 3
                  <= TShape.height s ^ 3)
            by (apply pow_incr; lra).
          lra. }
        right. rewrite Ecen in H. injection H as <-.
        split; [reflexivity|]. split; [lra|eauto].
      * exfalso. unfold TShape.Ig in HIg.
        apply bind_Ok_inv in HIg. destruct HIg as (p1 & _ & HIg).
        cbv zeta in HIg.
        apply bind_Ok_inv in HIg. destruct HIg as (p2 & _ & HIg).
        rewrite Ecen in HIg. discriminate.
Qed.

(** ** Outcomes of the analyzers *)

Section AnalyzerOutcomes.

Variable const : Constants.

Lemma Rabs_ge_nonzero (x : R) : 1e-9 <= Rabs x -> x <> 0.
Proof. intros H E. rewrite E, Rabs_R0 in H. lra. Qed.

Lemma tsection_finish_outcome (s : TShape.TSection) (c0 Mn : R) :
  (c0 <= 0 /\
   _tsection_finish const s c0 Mn
     = Raise (SectionCapacityError NeutralAxisOutside)) \/
  (0 < c0 /\
   exists p,
     _calculate_phi const (TShape.tension_steel s)
       (ultimate_strain (TShape.concrete s)
        * (TShape.effective_depth s - c0) / c0) = Ok p /\
     _tsection_finish const s c0 Mn
       = Ok {| c := c0;
               net_tensile_strain :=
                 ultimate_strain (TShape.concrete s)
                 * (TShape.effective_depth s - c0) / c0;
               phi := p;
               phi_mn := p * Mn |}).
Proof.
  unfold _tsection_finish. destruct (c0 <=? 0) eqn:Hc.
  - apply Rleb_true in Hc. left. auto.
  - apply Rleb_false in Hc. right. split; [exact Hc|].
    rewrite fdiv_ok by lra. simpl.
    destruct (calculate_phi_total const (TShape.tension_steel s)
                (ultimate_strain (TShape.concrete s)
                 * (TShape.effective_depth s - c0) / c0)) as [p Hp].
    exists p. rewrite Hp. auto.
Qed.

Lemma analyze_tsection_branches (s : TShape.TSection) (As Pu : R) :
  let conc := TShape.concrete s in
  let den := eta conc * 0.85 * fck conc * beta1 conc
             * TShape.flange_width s in
  (Rabs den < 1e-9 /\
   _analyze_tsection const s As Pu
     = Raise (SectionCapacityError FlangeWidthZero)) \/
  (1e-9 <= Rabs den /\
   is_less_or_equal (trial_a s As Pu) (TShape.flange_depth s) = true /\
   _analyze_tsection const s As Pu = flange_branch_result const s As Pu) \/
  (1e-9 <= Rabs den /\
   is_less_or_equal (trial_a s As Pu) (TShape.flange_depth s) = false /\
   _analyze_tsection const s As Pu = web_branch_result const s As Pu).
Proof.
  intros conc den. unfold _analyze_tsection. fold conc. fold den.
  destruct (Rabs den <? 1e-9) eqn:Hden.
  - apply Rltb_true in Hden. left. auto.
  - apply Rltb_false in Hden. right.
    rewrite fdiv_ok by (apply Rabs_ge_nonzero; exact Hden). simpl.
    unfold trial_a. fold conc. fold den.
    destruct (is_less_or_equal _ _) eqn:Hle.
    + left. repeat split; auto.
    + right. repeat split; auto.
Qed.

Lemma tsection_web_case_outcome (s : TShape.TSection) (As Pu : R) :
  let conc := TShape.concrete s in
  let den := eta conc * 0.85 * fck conc * beta1 conc * TShape.web_width s in
  let Ccf := eta conc * 0.85 * fck conc
             * (TShape.flange_width s - TShape.web_width s)
             * TShape.flange_depth s in
  let c0 := (As * fy (TShape.tension_steel s) - Pu - Ccf) / den in
  (Rabs den < 1e-9 /\
   _tsection_web_case s As Pu = Raise (SectionCapacityError WebWidthZero)) \/
  (1e-9 <= Rabs den /\
   _tsection_web_case s As Pu
     = Ok (c0,
           Ccf * (TShape.effective_depth s - TShape.flange_depth s / 2)
           + eta conc * 0.85 * fck conc * (beta1 conc * c0)
             * TShape.web_width s
             * (TShape.effective_depth s - beta1 conc * c0 / 2)
           + Pu * (TShape.effective_depth s - TShape.height s / 2))).
Proof.
  intros conc den Ccf c0. unfold _tsection_web_case.
  fold conc. fold den. fold Ccf.
  destruct (Rabs den <? 1e-9) eqn:Hden.
  - apply Rltb_true in Hden. left. auto.
  - apply Rltb_false in Hden. right. split; [exact Hden|].
    rewrite fdiv_ok by (apply Rabs_ge_nonzero; exact Hden). reflexivity.
Qed.

(** With no compression steel, an analysis either returns or raises
    [SectionCapacityError]. *)
Lemma analyze_section_raises (section : BaseSection) (As Pu : R) (e : exn) :
  _analyze_section const section As Pu 0.0 = Raise e ->
  is_SectionCapacityError e.
Proof.
  unfold _analyze_section.
  assert (E : (0.0 >? 0) = false) by (apply Rltb_false; lra).
  rewrite E. destruct section as [s|s].
  - destruct (analyze_rectangular_outcome const s As Pu)
      as [[_ H]|[(_ & _ & H)|(_ & _ & p & _ & H)]]; rewrite H.
    + intros [= <-]. exact I.
    + intros [= <-]. exact I.
    + discriminate.
  - destruct (analyze_tsection_branches s As Pu)
      as [[_ H]|[(_ & _ & H)|(_ & _ & H)]]; rewrite H; clear H.
    + intros [= <-]. exact I.
    + unfold flange_branch_result, _tsection_flange_case. simpl.
      match goal with
      | |- _tsection_finish _ _ ?c0 ?Mn = _ -> _ =>
          destruct (tsection_finish_outcome s c0 Mn)
            as [[_ H]|(_ & p & _ & H)]; rewrite H
      end.
      * intros [= <-]. exact I.
      * discriminate.
    + unfold web_branch_result.
      destruct (tsection_web_case_outcome s As Pu) as [[_ H]|[_ H]];
        rewrite H; clear H; simpl.
      * intros [= <-]. exact I.
      * match goal with
        | |- _tsection_finish _ _ ?c0 ?Mn = _ -> _ =>
            destruct (tsection_finish_outcome s c0 Mn)
              as [[_ H]|(_ & p & _ & H)]; rewrite H
        end.
        -- intros [= <-]. exact I.
        -- discriminate.
Qed.

End AnalyzerOutcomes.

(** C9: when the compression-controlled constant does not exceed the
    tension-controlled one, the strength-reduction factor computed by
    [_calculate_phi] exists and lies between the two constants, for every
    steel and every net tensile strain; hence the [phi] field of every
    analysis result the engine produces (directly, or inside a capacity,
    design or check result) lies in that closed interval. *)
Theorem phi_between_code_constants :
  forall const : Constants,
    PHI_COMPRESSION_CONTROLLED_TIED const <= PHI_TENSION_CONTROLLED const ->
    let within (p : R) :=
      PHI_COMPRESSION_CONTROLLED_TIED const <= p
      <= PHI_TENSION_CONTROLLED const in
    (forall (steel : Steel) (et : R),
        exists p, _calculate_phi const steel et = Ok p /\ within p) /\
    (forall section As Pu As_prime r,
        _analyze_section const section As Pu As_prime = Ok r ->
        within (phi r)) /\
    (forall section pu cap,
        get_maximum_capacity const section pu = Ok cap ->
        within (phi (cap_analysis_result cap))) /\
    (forall section mu pu r,
        design_flexural_reinforcement const section mu pu = Ok r ->
        within (phi (design_analysis_result r))) /\
    (forall section as_provided mu pu r,
        check_section_adequacy const section as_provided mu pu = Ok r ->
        within (phi (analysis_result r))).
Proof.
  intros const Hc within.
  assert (Han : forall section As Pu As_prime r,
             _analyze_section const section As Pu As_prime = Ok r ->
             within (phi r)).
  { intros section As Pu Ap r H. apply analyze_section_phi in H.
    exact (calculate_phi_range const _ _ _ Hc H). }
  split; [|split; [exact Han|split; [|split]]].
  - intros steel et. destruct (calculate_phi_total const steel et) as [p Hp].
    exists p. split; [exact Hp|].
    exact (calculate_phi_range const _ _ _ Hc Hp).
  - intros section pu cap H. apply get_maximum_capacity_inv in H.
    destruct H as (_ & _ & _ & H & _). exact (Han _ _ _ _ _ H).
  - intros section mu pu r H. apply design_flexural_reinforcement_inv in H.
    destruct H as (cap & Mcr & s & H). decompose [and] H.
    eapply Han; eassumption.
  - intros section a mu pu r H. apply check_section_adequacy_inv in H.
    destruct H as [_ H]. exact (Han _ _ _ _ _ H).
Qed.

(** ** Arithmetic of the stress block *)

Lemma strain_at_balanced_depth (ecu em d : R) :
  0 < ecu -> 0 < em -> 0 < d ->
  ecu * (d - ecu / (ecu + em) * d) / (ecu / (ecu + em) * d) = em.
Proof. intros. field. repeat split; lra. Qed.

Lemma strain_decreasing_in_depth (ecu d c1 c2 : R) :
  0 < ecu -> 0 < d -> 0 < c1 -> c1 < c2 ->
  ecu * (d - c2) / c2 < ecu * (d - c1) / c1.
Proof.
  intros He Hd H1 H2.
  assert (Hinv : / c2 < / c1) by (apply Rinv_lt_contravar; nra).
  replace (ecu * (d - c2) / c2) with (ecu * d * / c2 - ecu) by (field; lra).
  replace (ecu * (d - c1) / c1) with (ecu * d * / c1 - ecu) by (field; lra).
  assert (0 < ecu * d) by nra. nra.
Qed.

Lemma block_moment_monotone (Kb beta d c1 c2 : R) :
  0 <= Kb -> 0 <= beta -> c1 <= c2 -> beta * c2 <= d -> beta * c1 <= d ->
  Kb * (beta * c1) * (d - beta * c1 / 2)
  <= Kb * (beta * c2) * (d - beta * c2 / 2).
Proof.
  intros HK Hb H12 H2 H1.
  assert (E : Kb * (beta * c2) * (d - beta * c2 / 2)
              - Kb * (beta * c1) * (d - beta * c1 / 2)
              = Kb * ((beta * c2 - beta * c1)
                      * (d - (beta * c1 + beta * c2) / 2))) by field.
  assert (0 <= beta * c2 - beta * c1) by nra.
  assert (0 <= d - (beta * c1 + beta * c2) / 2) by lra.
  assert (0 <= (beta * c2 - beta * c1)
               * (d - (beta * c1 + beta * c2) / 2))
    by (apply Rmult_le_pos; assumption).
  assert (0 <= Kb * ((beta * c2 - beta * c1)
                     * (d - (beta * c1 + beta * c2) / 2)))
    by (apply Rmult_le_pos; assumption).
  lra.
Qed.

Lemma Rdiv_lt_mono_pos (x y den : R) :
  0 < den -> x < y -> x / den < y / den.
Proof.
  intros Hd Hxy. unfold Rdiv.
  apply Rmult_lt_compat_r; [now apply Rinv_0_lt_compat|exact Hxy].
Qed.

Lemma Rdiv_le_mono_pos (x y den : R) :
  0 < den -> x <= y -> x / den <= y / den.
Proof.
  intros Hd Hxy. unfold Rdiv.
  apply Rmult_le_compat_r; [left; now apply Rinv_0_lt_compat|exact Hxy].
Qed.

Lemma Rabs_ge_pos (x : R) : 0 <= x -> 1e-9 <= Rabs x -> 1e-9 <= x.
Proof. intros Hx H. now rewrite Rabs_right in H by lra. Qed.

Lemma pos_right_factor (x y : R) : 0 < x * y -> 0 <= y -> 0 < y.
Proof.
  intros Hxy [Hy|<-]; [exact Hy|]. rewrite Rmult_0_r in Hxy. lra.
Qed.

(** ** The balanced depth *)

Lemma c_max_pos (section : BaseSection) :
  Section.constructed section -> 0 < c_max section.
Proof.
  intros Hs. pose proof (constructed_effective_depth _ Hs) as Hd.
  pose proof (ultimate_strain_range (Section.concrete section)) as He.
  pose proof (steel_limit_strains (Section.tension_steel section))
    as (_ & _ & _ & _ & Hm).
  unfold c_max. apply Rmult_lt_0_compat; [|exact Hd].
  apply Rdiv_lt_0_compat; lra.
Qed.

Lemma a_max_below_depth (section : BaseSection) :
  Section.constructed section ->
  0 < a_max section < Section.effective_depth section.
Proof.
  intros Hs. pose proof (constructed_effective_depth _ Hs) as Hd.
  pose proof (c_max_pos _ Hs) as Hc.
  pose proof (beta1_range (Section.concrete section)) as Hb.
  pose proof (ultimate_strain_range (Section.concrete section)) as He.
  pose proof (steel_limit_strains (Section.tension_steel section))
    as (_ & _ & _ & _ & Hm).
  assert (Hlt : c_max section < Section.effective_depth section).
  { unfold c_max.
    set (q := ultimate_strain (Section.concrete section)
              / (ultimate_strain (Section.concrete section)
                 + min_allowable_tensile_strain
                     (Section.tension_steel section))).
    assert (Hq : q < 1).
    { unfold q. apply (Rmult_lt_reg_r
        (ultimate_strain (Section.concrete section)
         + min_allowable_tensile_strain (Section.tension_steel section)));
        [lra|].
      unfold Rdiv. rewrite Rmult_assoc, Rinv_l by lra. lra. }
    nra. }
  unfold a_max. split; nra.
Qed.

Lemma strain_at_c_max (section : BaseSection) :
  Section.constructed section ->
  ultimate_strain (Section.concrete section)
  * (Section.effective_depth section - c_max section) / c_max section
  = min_allowable_tensile_strain (Section.tension_steel section).
Proof.
  intros Hs. pose proof (constructed_effective_depth _ Hs) as Hd.
  pose proof (ultimate_strain_range (Section.concrete section)) as He.
  pose proof (steel_limit_strains (Section.tension_steel section))
    as (_ & _ & _ & _ & Hm).
  unfold c_max. apply strain_at_balanced_depth; lra.
Qed.

(** ** The two branches of the T-section analyzer *)

Section BranchFacts.

Variable const : Constants.

Lemma analyze_section_strain (section : BaseSection) (As Pu Ap : R)
  (r : AnalysisResult) :
  _analyze_section const section As Pu Ap = Ok r ->
  0 < c r /\
  net_tensile_strain r
  = ultimate_strain (Section.concrete section)
    * (Section.effective_depth section - c r) / c r.
Proof.
  unfold _analyze_section. destruct (Ap >? 0); [discriminate|].
  destruct section as [s|s]; simpl.
  - intros H. apply analyze_rectangular_inv in H. tauto.
  - unfold _analyze_tsection.
    destruct (_ <? 1e-9); [discriminate|].
    destruct (fdiv _ _) as [c0|e]; [|discriminate]. simpl.
    destruct (if is_less_or_equal _ _ then _ else _) as [[c1 Mn]|e];
      [|discriminate].
    simpl. intros H. apply tsection_finish_inv in H.
    destruct H as (Ec & Hc & Het & _). rewrite Ec. auto.
Qed.

Lemma flange_branch_inv (s : TShape.TSection) (As Pu : R)
  (r : AnalysisResult) :
  flange_branch_result const s As Pu = Ok r ->
  let conc := TShape.concrete s in
  let d := TShape.effective_depth s in
  c r = (As * fy (TShape.tension_steel s) - Pu)
        / (eta conc * 0.85 * fck conc * beta1 conc * TShape.flange_width s) /\
  0 < c r /\
  phi_mn r
  = phi r * (eta conc * 0.85 * fck conc * (beta1 conc * c r)
             * TShape.flange_width s * (d - beta1 conc * c r / 2)
             + Pu * (d - TShape.height s / 2)).
Proof.
  unfold flange_branch_result, _tsection_flange_case. simpl. intros H.
  apply tsection_finish_inv in H. destruct H as (Ec & Hc & _ & _ & Hm).
  rewrite Ec. auto.
Qed.

Lemma flange_branch_ok (s : TShape.TSection) (As Pu : R) :
  0 < (As * fy (TShape.tension_steel s) - Pu)
      / (eta (TShape.concrete s) * 0.85 * fck (TShape.concrete s)
         * beta1 (TShape.concrete s) * TShape.flange_width s) ->
  exists r, flange_branch_result const s As Pu = Ok r.
Proof.
  intros Hc. unfold flange_branch_result, _tsection_flange_case. simpl.
  match goal with
  | |- exists r, _tsection_finish _ _ ?c0 ?Mn = _ =>
      destruct (tsection_finish_outcome const s c0 Mn)
        as [[Hn _]|(_ & p & _ & H)]
  end.
  - lra.
  - eauto.
Qed.

Lemma web_branch_inv (s : TShape.TSection) (As Pu : R)
  (r : AnalysisResult) :
  web_branch_result const s As Pu = Ok r ->
  let conc := TShape.concrete s in
  let d := TShape.effective_depth s in
  let Ccf := eta conc * 0.85 * fck conc
             * (TShape.flange_width s - TShape.web_width s)
             * TShape.flange_depth s in
  let den := eta conc * 0.85 * fck conc * beta1 conc * TShape.web_width s in
  1e-9 <= Rabs den /\
  c r = (As * fy (TShape.tension_steel s) - Pu - Ccf) / den /\
  0 < c r /\
  phi_mn r
  = phi r * (Ccf * (d - TShape.flange_depth s / 2)
             + eta conc * 0.85 * fck conc * (beta1 conc * c r)
               * TShape.web_width s * (d - beta1 conc * c r / 2)
             + Pu * (d - TShape.height s / 2)).
Proof.
  unfold web_branch_result. intros H.
  destruct (tsection_web_case_outcome s As Pu) as [[_ E]|[Hden E]];
    rewrite E in H; simpl in H; [discriminate|].
  apply tsection_finish_inv in H. destruct H as (Ec & Hc & _ & _ & Hm).
  rewrite Ec. auto.
Qed.

Lemma web_branch_ok (s : TShape.TSection) (As Pu : R) :
  let conc := TShape.concrete s in
  let Ccf := eta conc * 0.85 * fck conc
             * (TShape.flange_width s - TShape.web_width s)
             * TShape.flange_depth s in
  let den := eta conc * 0.85 * fck conc * beta1 conc * TShape.web_width s in
  1e-9 <= Rabs den ->
  0 < (As * fy (TShape.tension_steel s) - Pu - Ccf) / den ->
  exists r, web_branch_result const s As Pu = Ok r.
Proof.
  intros conc Ccf den Hden Hc. unfold web_branch_result.
  destruct (tsection_web_case_outcome s As Pu) as [[Hn _]|[_ E]];
    [fold conc den in Hn; lra|].
  rewrite E. simpl.
  match goal with
  | |- exists r, _tsection_finish _ _ ?c0 ?Mn = _ =>
      destruct (tsection_finish_outcome const s c0 Mn)
        as [[Hn _]|(_ & p & _ & H)]
  end.
  - fold conc Ccf den in Hn. lra.
  - eauto.
Qed.

Lemma analyze_section_rect (s : Rectangular.RectangularSection) (As Pu : R) :
  _analyze_section const (RectangularSection s) As Pu 0.0
  = _analyze_rectangular const s As Pu.
Proof.
  unfold _analyze_section.
  assert (E : (0.0 >? 0) = false) by (apply Rltb_false; lra).
  now rewrite E.
Qed.

Lemma analyze_section_tee (s : TShape.TSection) (As Pu : R) :
  _analyze_section const (TSection s) As Pu 0.0
  = _analyze_tsection const s As Pu.
Proof.
  unfold _analyze_section.
  assert (E : (0.0 >? 0) = false) by (apply Rltb_false; lra).
  now rewrite E.
Qed.

Lemma analyze_rectangular_ok (s : Rectangular.RectangularSection)
  (As Pu : R) :
  let conc := Rectangular.concrete s in
  let den := eta conc * 0.85 * fck conc * beta1 conc * Rectangular.width s in
  1e-9 <= Rabs den ->
  0 < (As * fy (Rectangular.tension_steel s) - Pu) / den ->
  exists r, _analyze_rectangular const s As Pu = Ok r.
Proof.
  intros conc den Hden Hc.
  destruct (analyze_rectangular_outcome const s As Pu)
    as [[Hn _]|[(_ & Hn & _)|(_ & _ & p & _ & Hr)]].
  - fold conc den in Hn. lra.
  - fold conc den in Hn. lra.
  - eauto.
Qed.

End BranchFacts.

(** ** The section at its ductility limit *)

Lemma web_depth_dominates (K beta bf bw hf a : R) :
  0 < K -> 0 < beta -> 0 < bw -> bw <= bf -> hf <= a ->
  a / beta <= (K * bf * a - K * (bf - bw) * hf) / (K * beta * bw).
Proof.
  intros HK Hb Hbw Hbf Ha.
  assert (E : (K * bf * a - K * (bf - bw) * hf) / (K * beta * bw) - a / beta
              = (bf - bw) * (a - hf) * / (beta * bw)) by (field; lra).
  assert (0 <= (bf - bw) * (a - hf)) by (apply Rmult_le_pos; lra).
  assert (0 < / (beta * bw)).
  { apply Rinv_0_lt_compat. now apply Rmult_lt_0_compat. }
  assert (0 <= (bf - bw) * (a - hf) * / (beta * bw))
    by (apply Rmult_le_pos; lra).
  lra.
Qed.

Section CapacityFacts.

Variable const : Constants.

Lemma capacity_depth (section : BaseSection) (pu : R) (cap : CapacityResult) :
  Section.constructed section ->
  get_maximum_capacity const section pu = Ok cap ->
  capacity_branch_agrees section pu ->
  c (cap_analysis_result cap) = c_max section.
Proof.
  intros Hs Hcap Hag.
  apply get_maximum_capacity_inv in Hcap.
  destruct Hcap as (_ & EAs & _ & Han & _).
  pose proof (constructed_concrete _ Hs) as [_ HK].
  pose proof (beta1_range (Section.concrete section)) as Hb.
  pose proof (fy_pos (Section.tension_steel section)) as Hfy.
  rewrite EAs in Han. clear EAs.
  destruct section as [s|s];
    cbn [Section.concrete Section.tension_steel Section.effective_depth
         capacity_branch_agrees] in *.
  - rewrite analyze_section_rect in Han.
    apply analyze_rectangular_inv in Han.
    destruct Han as (Hden & Ec & _). rewrite Ec.
    apply Rabs_ge_nonzero in Hden.
    unfold Cc_max, a_max in *. simpl in *.
    set (K := eta (Rectangular.concrete s) * 0.85
              * fck (Rectangular.concrete s)) in *.
    assert (Hb0 : Rectangular.width s <> 0).
    { intros E. apply Hden. rewrite E. ring. }
    field. repeat split; lra.
  - destruct Hag as [Hbr Hdw].
    rewrite analyze_section_tee in Han.
    destruct (analyze_tsection_branches const s
                ((Cc_max (TSection s) + pu) / fy (TShape.tension_steel s))
                pu)
      as [[_ E]|[(Hden & Hle & E)|(Hden & Hle & E)]];
      rewrite E in Han; clear E; [discriminate| |].
    + rewrite Hle in Hbr. symmetry in Hbr.
      apply flange_branch_inv in Han. destruct Han as (Ec & _).
      rewrite Ec. apply Rabs_ge_nonzero in Hden.
      unfold Cc_max in *. rewrite Hbr. unfold a_max. simpl.
      set (K := eta (TShape.concrete s) * 0.85
                * fck (TShape.concrete s)) in *.
      assert (Hb0 : TShape.flange_width s <> 0).
      { intros E. apply Hden. rewrite E. ring. }
      field. repeat split; lra.
    + rewrite Hle in Hbr. symmetry in Hbr.
      apply web_branch_inv in Han. destruct Han as (_ & Ec & _).
      rewrite Ec. apply Rabs_ge_nonzero in Hdw.
      unfold Cc_max in *. rewrite Hbr. unfold a_max. simpl.
      set (K := eta (TShape.concrete s) * 0.85
                * fck (TShape.concrete s)) in *.
      assert (Hb0 : TShape.web_width s <> 0).
      { intros E. apply Hdw. rewrite E. ring. }
      field. repeat split; lra.
Qed.

Lemma beyond_capacity_depth (section : BaseSection) (pu As : R)
  (cap : CapacityResult) :
  Section.constructed section ->
  get_maximum_capacity const section pu = Ok cap ->
  capacity_branch_agrees section pu ->
  cap_as_max cap < As ->
  exists r,
    _analyze_section const section As pu 0.0 = Ok r /\
    c_max section < c r.
Proof.
  intros Hs Hcap Hag HAs.
  pose proof (capacity_depth _ _ _ Hs Hcap Hag) as Ecm.
  pose proof (c_max_pos _ Hs) as Hcm.
  apply get_maximum_capacity_inv in Hcap.
  destruct Hcap as (_ & _ & _ & Han & _).
  pose proof (constructed_concrete _ Hs) as [_ HK].
  pose proof (beta1_range (Section.concrete section)) as Hb.
  pose proof (fy_pos (Section.tension_steel section)) as Hfy.
  destruct Hs as (_ & _ & Hgeo).
  set (A0 := cap_as_max cap) in *.
  set (r0 := cap_analysis_result cap) in *.
  destruct section as [s|s];
    cbn [Section.concrete Section.tension_steel Section.effective_depth
         capacity_branch_agrees] in *.
  - apply Rectangular_post_init_ok in Hgeo. destruct Hgeo as (Hw & _).
    rewrite analyze_section_rect in *.
    apply analyze_rectangular_inv in Han.
    destruct Han as (Hden & Ec0 & _).
    set (den := eta (Rectangular.concrete s) * 0.85
                * fck (Rectangular.concrete s)
                * beta1 (Rectangular.concrete s) * Rectangular.width s) in *.
    assert (Hdpos : 0 < den).
    { assert (H0 : 0 <= den)
        by (unfold den; apply Rmult_le_pos; [nra|exact Hw]).
      pose proof (Rabs_ge_pos den H0 Hden). lra. }
    assert (Hlt : c r0 < (As * fy (Rectangular.tension_steel s) - pu) / den).
    { rewrite Ec0. apply Rdiv_lt_mono_pos; [exact Hdpos|nra]. }
    destruct (analyze_rectangular_ok const s As pu Hden) as [r Hr];
      [fold den; lra|].
    exists r. split; [exact Hr|].
    apply analyze_rectangular_inv in Hr. destruct Hr as (_ & Ec & _).
    fold den in Ec. rewrite Ec. lra.
  - apply TShape_post_init_ok in Hgeo.
    destruct Hgeo as (Hbw & _ & Hbf & Hhf & _ & _ & _ & Hwf & _).
    destruct Hag as [Hbr Hdw].
    rewrite analyze_section_tee in *.
    set (K := eta (TShape.concrete s) * 0.85 * fck (TShape.concrete s)) in *.
    set (beta := beta1 (TShape.concrete s)) in *.
    set (fys := fy (TShape.tension_steel s)) in *.
    assert (Hwpos : 0 < K * beta * TShape.web_width s).
    { assert (H0 : 0 <= K * beta * TShape.web_width s)
        by (apply Rmult_le_pos; [nra|exact Hbw]).
      pose proof (Rabs_ge_pos _ H0 Hdw). lra. }
    assert (HKb : 0 < K * beta) by (apply Rmult_lt_0_compat; lra).
    assert (Hbwpos : 0 < TShape.web_width s)
      by (apply (pos_right_factor (K * beta)); assumption).
    assert (Hfpos : 0 < K * beta * TShape.flange_width s)
      by (apply Rmult_lt_0_compat; lra).
    assert (Htr : trial_a s A0 pu < trial_a s As pu).
    { unfold trial_a. fold K beta fys.
      apply Rmult_lt_compat_l; [lra|].
      apply Rdiv_lt_mono_pos; [exact Hfpos|nra]. }
    assert (Etr : forall A, K * TShape.flange_width s * trial_a s A pu
                            = A * fys - pu).
    { intros A. unfold trial_a. fold K beta fys. field. nra. }
    assert (Htc : forall A, trial_a s A pu / beta
                            = (A * fys - pu)
                              / (K * beta * TShape.flange_width s)).
    { intros A. unfold trial_a. fold K beta fys. field. nra. }
    destruct (analyze_tsection_branches const s A0 pu)
      as [[_ E]|[(Hden & Hle0 & E)|(Hden & Hle0 & E)]];
      rewrite E in Han; clear E; [discriminate| |].
    + (* the capacity analysis ran in the flange *)
      apply flange_branch_inv in Han. destruct Han as (Ec0 & _).
      fold K beta fys in Ec0.
      assert (Hlt : c r0 < (As * fys - pu)
                           / (K * beta * TShape.flange_width s)).
      { rewrite Ec0. apply Rdiv_lt_mono_pos; [exact Hfpos|nra]. }
      destruct (analyze_tsection_branches const s As pu)
        as [[Hn _]|[(_ & Hle & E)|(_ & Hle & E)]].
      * fold K beta in Hn. fold K beta in Hden. lra.
      * rewrite E.
        destruct (flange_branch_ok const s As pu) as [r Hr];
          [fold K beta fys; lra|].
        exists r. split; [exact Hr|].
        apply flange_branch_inv in Hr. destruct Hr as (Ec & _).
        fold K beta fys in Ec. rewrite Ec. lra.
      * rewrite E. apply is_less_or_equal_false in Hle.
        pose proof (web_depth_dominates K beta (TShape.flange_width s)
                      (TShape.web_width s) (TShape.flange_depth s)
                      (trial_a s As pu)) as Hdom.
        rewrite Etr, Htc in Hdom.
        assert (Hdom' : (As * fys - pu) / (K * beta * TShape.flange_width s)
                        <= (As * fys - pu
                            - K * (TShape.flange_width s
                                   - TShape.web_width s)
                              * TShape.flange_depth s)
                           / (K * beta * TShape.web_width s))
          by (apply Hdom; lra).
        destruct (web_branch_ok const s As pu Hdw) as [r Hr];
          [fold K beta fys; lra|].
        exists r. split; [exact Hr|].
        apply web_branch_inv in Hr. destruct Hr as (_ & Ec & _).
        fold K beta fys in Ec. rewrite Ec. lra.
    + (* the capacity analysis ran in the web *)
      apply web_branch_inv in Han. destruct Han as (_ & Ec0 & _).
      fold K beta fys in Ec0.
      apply is_less_or_equal_false in Hle0.
      assert (Hle : is_less_or_equal (trial_a s As pu)
                      (TShape.flange_depth s) = false)
        by (apply is_less_or_equal_false; lra).
      destruct (analyze_tsection_branches const s As pu)
        as [[Hn _]|[(_ & Hle' & E)|(_ & _ & E)]].
      * fold K beta in Hn. fold K beta in Hden. lra.
      * congruence.
      * rewrite E.
        assert (Hlt : c r0 < (As * fys - pu
                              - K * (TShape.flange_width s
                                     - TShape.web_width s)
                                * TShape.flange_depth s)
                             / (K * beta * TShape.web_width s)).
        { rewrite Ec0. apply Rdiv_lt_mono_pos; [exact Hwpos|nra]. }
        destruct (web_branch_ok const s As pu Hdw) as [r Hr];
          [fold K beta fys; lra|].
        exists r. split; [exact Hr|].
        apply web_branch_inv in Hr. destruct Hr as (_ & Ec & _).
        fold K beta fys in Ec. rewrite Ec. lra.
Qed.

End CapacityFacts.

(** ** The worked inputs *)

Lemma eta_normal_strength (c : Concrete) : fck c <= 40 -> eta c = 1.
Proof. intros H. unfold eta. rdec; lra. Qed.

Lemma beta1_normal_strength (c : Concrete) : fck c <= 40 -> beta1 c = 0.8.
Proof. intros H. unfold beta1. rdec; lra. Qed.

Lemma ultimate_strain_normal_strength (c : Concrete) :
  fck c <= 40 -> ultimate_strain c = 0.0033.
Proof. intros H. unfold ultimate_strain. rdec; lra. Qed.

Lemma steel_strains_mild (s : Steel) :
  fy s <= 400 ->
  compression_controlled_limit_strain s = fy s / 200000 /\
  tension_controlled_limit_strain s = 0.005 /\
  min_allowable_tensile_strain s = 0.004.
Proof.
  intros H.
  unfold compression_controlled_limit_strain, tension_controlled_limit_strain,
    min_allowable_tensile_strain, yield_strain, Es, STEEL_ELASTIC_MODULUS.
  rdec; repeat split; lra.
Qed.

Lemma steel_strains_high (s : Steel) :
  400 < fy s ->
  compression_controlled_limit_strain s = fy s / 200000 /\
  tension_controlled_limit_strain s = 2.5 * (fy s / 200000) /\
  min_allowable_tensile_strain s = 2.0 * (fy s / 200000).
Proof.
  intros H.
  unfold compression_controlled_limit_strain, tension_controlled_limit_strain,
    min_allowable_tensile_strain, yield_strain, Es, STEEL_ELASTIC_MODULUS.
  rdec; repeat split; lra.
Qed.

Lemma beam_section_constructed :
  Section.constructed (RectangularSection Examples.beam_section).
Proof. constructed_by_computation. Qed.

Lemma beam_section_height_in_range :
  Rectangular.height Examples.beam_section ^ 3 <= FLOAT_MAX.
Proof. unfold FLOAT_MAX. simpl. lra. Qed.

Lemma t_beam_section_constructed :
  Section.constructed (TSection Examples.t_beam_section).
Proof. constructed_by_computation. Qed.

Lemma flange_only_section_constructed :
  Section.constructed (TSection Examples.flange_only_section).
Proof. constructed_by_computation. Qed.

(** ** When the operations return *)

Section Returns.

Variable const : Constants.

Lemma get_maximum_capacity_rect_ok (s : Rectangular.RectangularSection)
  (pu : R) :
  let conc := Rectangular.concrete s in
  Section.constructed (RectangularSection s) ->
  1e-9 <= Rabs (eta conc * 0.85 * fck conc * beta1 conc
                * Rectangular.width s) ->
  _check_axial_load_limit const (RectangularSection s) pu = Ok tt ->
  0 <= Cc_max (RectangularSection s) + pu ->
  exists cap, get_maximum_capacity const (RectangularSection s) pu = Ok cap.
Proof.
  intros conc Hs Hden Hax Hpos.
  pose proof (constructed_concrete _ Hs) as [_ HK].
  pose proof (a_max_below_depth _ Hs) as [Ha _].
  pose proof (beta1_range conc) as Hb.
  pose proof (fy_pos (Rectangular.tension_steel s)) as Hfy.
  destruct Hs as (_ & _ & Hgeo). apply Rectangular_post_init_ok in Hgeo.
  destruct Hgeo as (Hw & _).
  cbn [Section.concrete] in HK. fold conc in HK.
  set (K := eta conc * 0.85 * fck conc) in *.
  assert (HKb : 0 < K * beta1 conc) by (apply Rmult_lt_0_compat; lra).
  assert (H0 : 0 <= K * beta1 conc * Rectangular.width s)
    by (apply Rmult_le_pos; lra).
  pose proof (Rabs_ge_pos _ H0 Hden) as Hdpos.
  assert (Hwpos : 0 < Rectangular.width s)
    by (apply (pos_right_factor (K * beta1 conc)); lra).
  rewrite get_maximum_capacity_unfold, Hax, bind_Ok. cbv zeta.
  cbn [Section.tension_steel].
  set (As_max := (Cc_max (RectangularSection s) + pu)
                 / fy (Rectangular.tension_steel s)).
  assert (HAs : 0 <= As_max).
  { unfold As_max. apply Rmult_le_pos; [exact Hpos|].
    left. apply Rinv_0_lt_compat. lra. }
  assert (E : (As_max <? 0) = false) by (apply Rltb_false; exact HAs).
  rewrite E, analyze_section_rect.
  destruct (analyze_rectangular_ok const s As_max pu Hden) as [r Hr].
  - fold conc K.
    replace (As_max * fy (Rectangular.tension_steel s) - pu)
      with (Cc_max (RectangularSection s)) by (unfold As_max; field; lra).
    apply Rdiv_lt_0_compat; [|lra].
    unfold Cc_max. cbn [Section.concrete]. fold conc K.
    apply Rmult_lt_0_compat; [|exact Hwpos].
    apply Rmult_lt_0_compat; lra.
  - rewrite Hr. simpl. eauto.
Qed.

End Returns.

(** C6 (as amended): for a constructed section and an axial force that
    [get_maximum_capacity] accepts, and, when the section is T-shaped,
    provided the analyzer at [As_max] takes the branch the capacity
    formula took and its web denominator is not degenerate: the
    re-analysis at exactly [As_max] is the analysis the capacity result
    carries, its net tensile strain is the steel's minimum allowable
    strain (exactly, hence within the tolerance), and the analysis at any
    larger area returns a strain strictly below that threshold. *)
Theorem ductility_boundary_at_maximum_area :
  forall (const : Constants) (section : BaseSection) (pu : R)
         (cap : CapacityResult),
    Section.constructed section ->
    get_maximum_capacity const section pu = Ok cap ->
    capacity_branch_agrees section pu ->
    let et_min :=
      min_allowable_tensile_strain (Section.tension_steel section) in
    _analyze_section const section (cap_as_max cap) pu 0.0
      = Ok (cap_analysis_result cap) /\
    net_tensile_strain (cap_analysis_result cap) = et_min /\
    is_equal (net_tensile_strain (cap_analysis_result cap)) et_min = true /\
    (forall As : R,
        cap_as_max cap < As ->
        exists r,
          _analyze_section const section As pu 0.0 = Ok r /\
          net_tensile_strain r < et_min).
Proof.
  intros const section pu cap Hs Hcap Hag et_min.
  pose proof (capacity_depth const _ _ _ Hs Hcap Hag) as Ec.
  pose proof (get_maximum_capacity_inv const _ _ _ Hcap)
    as (_ & _ & _ & Han & _).
  pose proof (analyze_section_strain const _ _ _ _ _ Han) as [_ Het].
  rewrite Ec, (strain_at_c_max _ Hs) in Het. fold et_min in Het.
  split; [exact Han|]. split; [exact Het|]. split.
  - rewrite Het. unfold is_equal, TOLERANCE. apply Rltb_true.
    replace (et_min - et_min) with 0 by ring. rewrite Rabs_R0. lra.
  - intros As HAs.
    destruct (beyond_capacity_depth const _ _ _ _ Hs Hcap Hag HAs)
      as (r & Hr & Hc).
    exists r. split; [exact Hr|].
    pose proof (analyze_section_strain const _ _ _ _ _ Hr) as [_ Hetr].
    rewrite Hetr. unfold et_min. rewrite <- (strain_at_c_max _ Hs).
    apply strain_decreasing_in_depth.
    + pose proof (ultimate_strain_range (Section.concrete section)). lra.
    + now apply constructed_effective_depth.
    + now apply c_max_pos.
    + exact Hc.
Qed.

(** Numbers of the worked materials. *)
Lemma c24_factors :
  eta Examples.c24_material = 1 /\ beta1 Examples.c24_material = 0.8 /\
  ultimate_strain Examples.c24_material = 0.0033.
Proof.
  repeat split;
    [apply eta_normal_strength | apply beta1_normal_strength
     | apply ultimate_strain_normal_strength]; simpl; lra.
Qed.

Lemma c30_factors :
  eta Examples.c30_material = 1 /\ beta1 Examples.c30_material = 0.8 /\
  ultimate_strain Examples.c30_material = 0.0033.
Proof.
  repeat split;
    [apply eta_normal_strength | apply beta1_normal_strength
     | apply ultimate_strain_normal_strength]; simpl; lra.
Qed.

Lemma s400_strains :
  fy Examples.s400_material = 400 /\
  compression_controlled_limit_strain Examples.s400_material = 0.002 /\
  tension_controlled_limit_strain Examples.s400_material = 0.005 /\
  min_allowable_tensile_strain Examples.s400_material = 0.004.
Proof.
  assert (E : fy Examples.s400_material = 400) by reflexivity.
  destruct (steel_strains_mild Examples.s400_material) as (H1 & H2 & H3);
    [lra|].
  rewrite E in H1. repeat split; try assumption. lra.
Qed.

Lemma s500_strains :
  fy Examples.s500_material = 500 /\
  compression_controlled_limit_strain Examples.s500_material = 0.0025 /\
  tension_controlled_limit_strain Examples.s500_material = 0.00625 /\
  min_allowable_tensile_strain Examples.s500_material = 0.005.
Proof.
  assert (E : fy Examples.s500_material = 500) by reflexivity.
  destruct (steel_strains_high Examples.s500_material) as (H1 & H2 & H3);
    [lra|].
  rewrite E in H1, H2, H3. repeat split; try assumption; lra.
Qed.

Lemma no_axial_force_passes (const : Constants) (section : BaseSection) :
  _check_axial_load_limit const section 0 = Ok tt.
Proof.
  destruct (check_axial_load_limit_cases const section 0)
    as [(H & _)|[_ H]]; [lra|exact H].
Qed.

(** The section without a web, at the area [get_maximum_capacity]
    returns for it. *)
Lemma flange_only_capacity :
  exists cap,
    get_maximum_capacity kds (TSection Examples.flange_only_section) 0
      = Ok cap /\
    cap_as_max cap = 7650 /\
    c (cap_analysis_result cap) = 187.5 /\
    net_tensile_strain (cap_analysis_result cap) = 0.00968.
Proof.
  destruct c30_factors as (Eeta & Ebeta & Eecu).
  destruct s500_strains as (Efy & _ & _ & Emin).
  set (sec := Examples.flange_only_section).
  assert (Ea : a_max (TSection sec) = 0.8 * (0.0033 / (0.0033 + 0.005) * 737.5)).
  { unfold a_max, c_max.
    change (Section.concrete (TSection sec)) with Examples.c30_material.
    change (Section.tension_steel (TSection sec)) with Examples.s500_material.
    rewrite Ebeta, Eecu, Emin.
    unfold Section.effective_depth, TShape.effective_depth. simpl. lra. }
  assert (ECc : Cc_max (TSection sec) = 3825000).
  { unfold Cc_max.
    assert (Hle : is_less_or_equal (a_max (TSection sec))
                    (TShape.flange_depth sec) = false).
    { apply is_less_or_equal_false. rewrite Ea. simpl. lra. }
    rewrite Hle.
    change (Section.concrete (TSection sec)) with Examples.c30_material.
    rewrite Eeta. simpl. lra. }
  assert (EAs : (Cc_max (TSection sec) + 0) / fy (TShape.tension_steel sec)
                = 7650).
  { rewrite ECc.
    change (TShape.tension_steel sec) with Examples.s500_material.
    rewrite Efy. lra. }
  assert (Etr : trial_a sec 7650 0 = 150).
  { unfold trial_a.
    change (TShape.concrete sec) with Examples.c30_material.
    change (TShape.tension_steel sec) with Examples.s500_material.
    rewrite Eeta, Ebeta, Efy. simpl. lra. }
  assert (Ec : (7650 * fy (TShape.tension_steel sec) - 0)
               / (eta (TShape.concrete sec) * 0.85 * fck (TShape.concrete sec)
                  * beta1 (TShape.concrete sec) * TShape.flange_width sec)
               = 187.5).
  { change (TShape.concrete sec) with Examples.c30_material.
    change (TShape.tension_steel sec) with Examples.s500_material.
    rewrite Eeta, Ebeta, Efy. simpl. lra. }
  destruct (flange_branch_ok kds sec 7650 0) as [r Hr]; [rewrite Ec; lra|].
  assert (Han : _analyze_section kds (TSection sec) 7650 0 0.0 = Ok r).
  { rewrite analyze_section_tee.
    destruct (analyze_tsection_branches kds sec 7650 0)
      as [[Hn _]|[(_ & _ & E)|(_ & Hle & _)]].
    - exfalso. revert Hn.
      change (TShape.concrete sec) with Examples.c30_material.
      rewrite Eeta, Ebeta. simpl.
      rewrite Rabs_right by lra. lra.
    - now rewrite E.
    - apply is_less_or_equal_false in Hle. rewrite Etr in Hle.
      simpl in Hle. lra. }
  pose proof (analyze_section_strain kds _ _ _ _ _ Han) as [_ Het].
  apply flange_branch_inv in Hr. destruct Hr as (Ecr & _).
  rewrite Ec in Ecr.
  exists {| cap_as_max := 7650; max_phi_mn := phi_mn r;
            cap_analysis_result := r |}.
  split; [|split; [reflexivity|split; [exact Ecr|]]].
  - rewrite get_maximum_capacity_unfold, no_axial_force_passes, bind_Ok.
    cbv zeta. change (Section.tension_steel (TSection sec))
      with (TShape.tension_steel sec).
    rewrite EAs.
    assert (E : (7650 <? 0) = false) by (apply Rltb_false; lra).
    rewrite E, Han. reflexivity.
  - cbn [cap_analysis_result]. rewrite Het, Ecr.
    change (Section.concrete (TSection sec)) with Examples.c30_material.
    rewrite Eecu. unfold Section.effective_depth, TShape.effective_depth.
    simpl. lra.
Qed.

(** C6, counterexample: the T-section without a web is accepted by its
    constructor and by [get_maximum_capacity] (no axial force), yet the
    analysis at the returned [As_max = 7650] has a net tensile strain of
    0.00968, not the minimum allowable 0.005 of its steel, tolerance or
    not. *)
Lemma ductility_boundary_fails_without_web :
  Section.constructed (TSection Examples.flange_only_section) /\
  exists cap,
    get_maximum_capacity kds (TSection Examples.flange_only_section) 0
      = Ok cap /\
    _analyze_section kds (TSection Examples.flange_only_section)
      (cap_as_max cap) 0 0.0 = Ok (cap_analysis_result cap) /\
    net_tensile_strain (cap_analysis_result cap) = 0.00968 /\
    min_allowable_tensile_strain
      (Section.tension_steel (TSection Examples.flange_only_section))
      = 0.005 /\
    is_equal (net_tensile_strain (cap_analysis_result cap))
      (min_allowable_tensile_strain
         (Section.tension_steel (TSection Examples.flange_only_section)))
      = false.
Proof.
  split; [exact flange_only_section_constructed|].
  destruct flange_only_capacity as (cap & Hcap & _ & _ & Het).
  destruct s500_strains as (_ & _ & _ & Emin).
  exists cap. split; [exact Hcap|].
  pose proof (get_maximum_capacity_inv kds _ _ _ Hcap)
    as (_ & _ & _ & Han & _).
  split; [exact Han|]. split; [exact Het|].
  change (Section.tension_steel (TSection Examples.flange_only_section))
    with Examples.s500_material.
  split; [exact Emin|].
  rewrite Het, Emin. unfold is_equal, TOLERANCE. apply Rltb_false.
  rewrite Rabs_right; lra.
Qed.

Lemma beam_section_capacity :
  exists cap,
    get_maximum_capacity kds (RectangularSection Examples.beam_section) 0
    = Ok cap.
Proof.
  destruct c24_factors as (Eeta & Ebeta & _).
  apply get_maximum_capacity_rect_ok.
  - exact beam_section_constructed.
  - change (Rectangular.concrete Examples.beam_section)
      with Examples.c24_material.
    rewrite Eeta, Ebeta. simpl. rewrite Rabs_right; lra.
  - apply no_axial_force_passes.
  - pose proof (a_max_below_depth _ beam_section_constructed) as [Ha _].
    unfold Cc_max.
    change (Section.concrete (RectangularSection Examples.beam_section))
      with Examples.c24_material.
    rewrite Eeta. simpl. nra.
Qed.

(** C1: the rectangular analyzer meets its contract for every section,
    trial area and axial force (so in particular for [As >= 0]): the
    neutral axis is [c = (As*fy - Pu) / (eta*0.85*fck*beta1*b)]; the call
    fails with [SectionCapacityError] when that denominator is below 1e-9
    in absolute value or when [c <= 0]; otherwise it returns [c],
    [et = ecu*(d-c)/c] and [phi*Mn] with [a = beta1*c],
    [Cc = eta*0.85*fck*a*b] and [Mn = Cc*(d - a/2) + Pu*(d - h/2)]. *)
Theorem analyze_rectangular_contract :
  forall (const : Constants) (section : Rectangular.RectangularSection)
         (As Pu : R),
    rectangular_contract const section As Pu
      (_analyze_rectangular const section As Pu).
Proof.
  intros const section As Pu. unfold rectangular_contract.
  set (conc := Rectangular.concrete section).
  set (den := eta conc * 0.85 * fck conc * beta1 conc
              * Rectangular.width section).
  set (c0 := (As * fy (Rectangular.tension_steel section) - Pu) / den).
  unfold _analyze_rectangular. fold conc. fold den.
  split.
  - intros [Hden|Hc].
    + apply Rltb_true in Hden. rewrite Hden. eauto.
    + destruct (Rabs den <? 1e-9) eqn:Hden; [eauto|].
      apply Rltb_false in Hden.
      assert (Hnz : den <> 0).
      { intros E. rewrite E, Rabs_R0 in Hden. lra. }
      rewrite fdiv_ok by exact Hnz. simpl. fold c0.
      apply Rleb_true in Hc. rewrite Hc. eauto.
  - intros Hden Hc.
    assert (Hnz : den <> 0).
    { intros E. rewrite E, Rabs_R0 in Hden. lra. }
    apply Rltb_false in Hden. rewrite Hden.
    rewrite fdiv_ok by exact Hnz. simpl. fold c0.
    assert (Hc' : (c0 <=? 0) = false) by (apply Rleb_false; exact Hc).
    rewrite Hc'. rewrite fdiv_ok by lra. simpl.
    destruct (calculate_phi_total const (Rectangular.tension_steel section)
                (ultimate_strain conc
                 * (Rectangular.effective_depth section - c0) / c0))
      as [p Hp].
    exists p. split; [exact Hp|]. rewrite Hp. reflexivity.
Qed.

(** C9, witness: the code constants 0.65 and 0.85 and a strain in the
    transition zone of SD400 steel. *)
Lemma phi_between_code_constants_witness :
  exists p,
    _calculate_phi kds Examples.s400_material 0.0045 = Ok p /\
    0.65 <= p <= 0.85.
Proof.
  assert (H : PHI_COMPRESSION_CONTROLLED_TIED kds
              <= PHI_TENSION_CONTROLLED kds) by (simpl; lra).
  exact (proj1 (phi_between_code_constants kds H)
           Examples.s400_material 0.0045).
Defined.

(** ** When the bisection and the design return *)

Section DesignReturns.

Variable const : Constants.

(** If every positive trial area can be analyzed, the bisection runs to
    its end, and from a positive upper bound it returns a positive area. *)
Lemma find_as_loop_returns (section : BaseSection) (target_mu pu : R) :
  (forall As, 0 < As ->
     exists r, _analyze_section const section As pu 0.0 = Ok r) ->
  forall (n : nat) (lo hi : R),
    0 <= lo -> lo <= hi ->
    exists v,
      _find_as_loop const section target_mu pu n lo hi = Ok v /\
      (0 < hi -> 0 < v).
Proof.
  intros Han. induction n as [|n IH]; intros lo hi Hlo Hle; simpl.
  - eauto.
  - destruct (hi - lo <? 1e-9) eqn:Hw; [eauto|].
    apply Rltb_false in Hw.
    assert (Hg : 0 < (lo + hi) / 2.0) by lra.
    destruct (Han _ Hg) as [r Hr]. rewrite Hr. simpl.
    destruct (phi_mn r <? target_mu).
    + destruct (IH ((lo + hi) / 2.0) hi) as (v & Hv & Hp); try lra.
      eauto.
    + destruct (IH lo ((lo + hi) / 2.0)) as (v & Hv & Hp); try lra.
      exists v. split; [exact Hv|]. intros _. apply Hp. exact Hg.
Qed.

Lemma find_as_for_mu_returns (section : BaseSection)
  (target_mu pu as_upper_bound : R) :
  (forall As, 0 < As ->
     exists r, _analyze_section const section As pu 0.0 = Ok r) ->
  0 <= target_mu -> 0 <= as_upper_bound ->
  exists v,
    _find_as_for_mu const section target_mu pu as_upper_bound = Ok v /\
    (0 < as_upper_bound -> 0 < v).
Proof.
  intros Han Ht Hub. unfold _find_as_for_mu.
  assert (E : (target_mu <? 0) = false) by (apply Rltb_false; exact Ht).
  rewrite E. apply find_as_loop_returns; [exact Han|lra|lra].
Qed.

Lemma design_flexural_reinforcement_returns (section : BaseSection)
  (mu pu Mcr : R) (cap : CapacityResult) :
  0 <= mu ->
  get_maximum_capacity const section pu = Ok cap ->
  Section.cracking_moment section = Ok Mcr ->
  is_less_or_equal mu (max_phi_mn cap) = true ->
  (forall As, 0 < As ->
     exists r, _analyze_section const section As pu 0.0 = Ok r) ->
  0 < cap_as_max cap ->
  exists r, design_flexural_reinforcement const section mu pu = Ok r.
Proof.
  intros Hmu Hcap HMcr Hle Han Hpos.
  pose proof (get_maximum_capacity_inv const _ _ _ Hcap) as (Hax & _).
  unfold design_flexural_reinforcement.
  assert (E : (mu <? 0) = false) by (apply Rltb_false; exact Hmu).
  rewrite E, Hax, bind_Ok, Hcap, bind_Ok, HMcr, bind_Ok. cbv zeta.
  assert (Hmin : exists As_min,
             (if MIN_FLEXURAL_STRENGTH_FACTOR const * Mcr >? 0
              then _find_as_for_mu const section
                     (MIN_FLEXURAL_STRENGTH_FACTOR const * Mcr) pu
                     (cap_as_max cap)
              else Ok 0.0) = Ok As_min).
  { destruct (_ >? 0) eqn:Hm; [|eauto].
    apply Rltb_true in Hm.
    destruct (find_as_for_mu_returns section
                (MIN_FLEXURAL_STRENGTH_FACTOR const * Mcr) pu
                (cap_as_max cap) Han) as (v & Hv & _); try lra.
    eauto. }
  destruct Hmin as [As_min Hmin]. rewrite Hmin, bind_Ok, Hle. simpl negb.
  cbv iota.
  destruct (find_as_for_mu_returns section mu pu (cap_as_max cap) Han)
    as (v & Hv & Hvpos); try lra.
  rewrite Hv, bind_Ok.
  assert (Hreq : 0 < Rmax v As_min).
  { pose proof (Rmax_l v As_min). specialize (Hvpos Hpos). lra. }
  destruct (Han _ Hreq) as [r Hr]. rewrite Hr, bind_Ok. eauto.
Qed.

End DesignReturns.

(** ** The rectangular beam, in numbers *)

Lemma beam_section_denominator :
  eta (Rectangular.concrete Examples.beam_section) * 0.85
  * fck (Rectangular.concrete Examples.beam_section)
  * beta1 (Rectangular.concrete Examples.beam_section)
  * Rectangular.width Examples.beam_section = 6528.
Proof.
  destruct c24_factors as (Eeta & Ebeta & _).
  change (Rectangular.concrete Examples.beam_section)
    with Examples.c24_material.
  rewrite Eeta, Ebeta. simpl. lra.
Qed.

Lemma beam_section_analysis_returns (const : Constants) (As Pu : R) :
  Pu < As * 400 ->
  exists r,
    _analyze_section const (RectangularSection Examples.beam_section)
      As Pu 0.0 = Ok r /\
    c r = (As * 400 - Pu) / 6528.
Proof.
  intros H. rewrite analyze_section_rect.
  destruct (analyze_rectangular_ok const Examples.beam_section As Pu)
    as [r Hr].
  - rewrite beam_section_denominator, Rabs_right; lra.
  - rewrite beam_section_denominator.
    change (fy (Rectangular.tension_steel Examples.beam_section)) with 400.
    apply Rdiv_lt_0_compat; lra.
  - exists r. split; [exact Hr|].
    apply analyze_rectangular_inv in Hr. destruct Hr as (_ & Ec & _).
    rewrite beam_section_denominator in Ec. exact Ec.
Qed.

(** The capacity of the beam under no axial force: about 3870 mm2 of
    steel and 521 kNm. *)
Lemma beam_section_capacity_values :
  exists cap,
    get_maximum_capacity kds (RectangularSection Examples.beam_section) 0
      = Ok cap /\
    3869 < cap_as_max cap < 3870 /\
    520e6 < max_phi_mn cap < 521e6.
Proof.
  destruct beam_section_capacity as [cap Hcap].
  exists cap. split; [exact Hcap|].
  destruct c24_factors as (Eeta & Ebeta & Eecu).
  destruct s400_strains as (Efy & Eccl & Etcl & Emin).
  pose proof (capacity_depth kds _ _ _ beam_section_constructed Hcap I)
    as Ec.
  pose proof (get_maximum_capacity_inv kds _ _ _ Hcap)
    as (_ & EAs & _ & Han & Emax).
  pose proof (analyze_section_strain kds _ _ _ _ _ Han) as [_ Het].
  rewrite Ec, (strain_at_c_max _ beam_section_constructed) in Het.
  rewrite analyze_section_rect in Han.
  apply analyze_rectangular_inv in Han.
  destruct Han as (_ & _ & _ & _ & Hphi & Hmn).
  change (Section.tension_steel (RectangularSection Examples.beam_section))
    with Examples.s400_material in *.
  change (Rectangular.tension_steel Examples.beam_section)
    with Examples.s400_material in *.
  change (Rectangular.concrete Examples.beam_section)
    with Examples.c24_material in *.
  assert (Ecm : c_max (RectangularSection Examples.beam_section)
                = 0.0033 / 0.0073 * 524.5).
  { unfold c_max.
    change (Section.concrete (RectangularSection Examples.beam_section))
      with Examples.c24_material.
    change (Section.tension_steel (RectangularSection Examples.beam_section))
      with Examples.s400_material.
    rewrite Eecu, Emin.
    unfold Section.effective_depth, Rectangular.effective_depth. simpl. lra. }
  split.
  - rewrite EAs. unfold Cc_max, a_max.
    change (Section.concrete (RectangularSection Examples.beam_section))
      with Examples.c24_material.
    rewrite Ecm, Eeta, Ebeta, Efy. simpl. lra.
  - rewrite Emax, Hmn. rewrite Het, Emin in Hphi.
    destruct (calculate_phi_cases kds Examples.s400_material 0.004)
      as [[Hc _]|[[Hc _]|(_ & _ & E)]].
    + rewrite Etcl in Hc. lra.
    + rewrite Eccl in Hc. lra.
    + rewrite E in Hphi. injection Hphi as <-.
      rewrite Ec, Ecm, Eeta, Ebeta, Eccl, Etcl.
      unfold Rectangular.effective_depth. simpl. lra.
Qed.

(** C10: the bisection returns a value inside the bracket
    [[0, as_upper_bound]] it is given: whatever it returns lies there,
    and it does return when every positive trial area can be analyzed.
    So a design that succeeds prescribes
    [as_required = max(as_strength, as_min)] with
    [0 <= as_required <= as_max], the minimum-reinforcement area [as_min]
    itself being inside [[0, as_max]]. *)
Theorem design_within_ductility_maximum :
  forall (const : Constants) (section : BaseSection),
    (forall target_mu pu as_upper_bound v,
        0 <= as_upper_bound ->
        _find_as_for_mu const section target_mu pu as_upper_bound = Ok v ->
        0 <= v <= as_upper_bound) /\
    (forall target_mu pu as_upper_bound,
        0 <= target_mu -> 0 <= as_upper_bound ->
        (forall As, 0 < As ->
           exists r, _analyze_section const section As pu 0.0 = Ok r) ->
        exists v,
          _find_as_for_mu const section target_mu pu as_upper_bound = Ok v /\
          0 <= v <= as_upper_bound) /\
    (forall mu pu r,
        design_flexural_reinforcement const section mu pu = Ok r ->
        (exists as_strength,
            _find_as_for_mu const section mu pu (as_max r) = Ok as_strength /\
            as_required r = Rmax as_strength (as_min r)) /\
        0 <= as_min r <= as_max r /\
        0 <= as_required r <= as_max r).
Proof.
  intros const section. split; [|split].
  - intros target_mu pu ub v. apply find_as_for_mu_bounds.
  - intros target_mu pu ub Ht Hub Han.
    destruct (find_as_for_mu_returns const section target_mu pu ub Han Ht Hub)
      as (v & Hv & _).
    exists v. split; [exact Hv|].
    exact (find_as_for_mu_bounds const _ _ _ _ _ Hub Hv).
  - intros mu pu r H. apply design_flexural_reinforcement_inv in H.
    destruct H as (cap & Mcr & s & _ & Hcap & _ & Emax & Hmin & _ & Hs
                   & Ereq & _).
    apply get_maximum_capacity_inv in Hcap.
    destruct Hcap as (_ & _ & Hpos & _).
    rewrite <- Emax in *.
    assert (Hmin' : 0 <= as_min r <= as_max r).
    { destruct (_ >? 0) in Hmin.
      - now apply find_as_for_mu_bounds in Hmin.
      - injection Hmin as <-. lra. }
    pose proof (find_as_for_mu_bounds const _ _ _ _ _ Hpos Hs) as Hs'.
    split; [exists s; auto|]. split; [exact Hmin'|].
    rewrite Ereq. unfold Rmax. destruct (Rle_dec s (as_min r)); lra.
Qed.

Lemma beam_section_design_returns :
  exists r,
    design_flexural_reinforcement kds
      (RectangularSection Examples.beam_section) 100e6 0 = Ok r.
Proof.
  destruct beam_section_capacity_values as (cap & Hcap & HAs & Hmax).
  destruct (Rectangular_cracking_moment_defined Examples.beam_section
              beam_section_constructed beam_section_height_in_range)
    as [Mcr HMcr].
  apply (design_flexural_reinforcement_returns kds _ 100e6 0 Mcr cap).
  - lra.
  - exact Hcap.
  - exact HMcr.
  - apply is_less_or_equal_true. lra.
  - intros As HAs0.
    destruct (beam_section_analysis_returns kds As 0) as (r & Hr & _);
      [lra|eauto].
  - lra.
Qed.

(** C10, witness: designing the rectangular beam for 100 kNm and no axial
    force succeeds, with a required area inside [[0, as_max]]. *)
Lemma design_within_ductility_maximum_witness :
  exists r,
    design_flexural_reinforcement kds
      (RectangularSection Examples.beam_section) 100e6 0 = Ok r /\
    0 <= as_required r <= as_max r.
Proof.
  destruct beam_section_design_returns as [r Hr].
  exists r. split; [exact Hr|].
  exact (proj2 (proj2
    (proj2 (proj2 (design_within_ductility_maximum kds
                     (RectangularSection Examples.beam_section)))
       100e6 0 r Hr))).
Defined.

(** ** The axial-load precheck *)

Section AxialGuard.

Variable const : Constants.

Lemma tensile_force_never_checked (section : BaseSection) (pu : R) :
  pu <= 0 -> _check_axial_load_limit const section pu = Ok tt.
Proof.
  intros H. destruct (check_axial_load_limit_cases const section pu)
    as [(H0 & _)|[_ E]]; [lra|exact E].
Qed.

Lemma get_maximum_capacity_axial_guard (section : BaseSection) (pu : R) :
  0 < pu -> _get_max_axial_capacity const section 0.01 < pu ->
  get_maximum_capacity const section pu
  = Raise (SectionCapacityError
             (AxialLoadExceeded pu
                (_get_max_axial_capacity const section 0.01))).
Proof.
  intros H0 H1. unfold get_maximum_capacity.
  destruct (check_axial_load_limit_cases const section pu)
    as [(_ & _ & E)|[[H|H] _]]; [|lra|lra].
  now rewrite E.
Qed.

Lemma design_axial_guard (section : BaseSection) (mu pu : R) :
  0 <= mu ->
  0 < pu -> _get_max_axial_capacity const section 0.01 < pu ->
  design_flexural_reinforcement const section mu pu
  = Raise (SectionCapacityError
             (AxialLoadExceeded pu
                (_get_max_axial_capacity const section 0.01))).
Proof.
  intros Hmu H0 H1. unfold design_flexural_reinforcement.
  assert (E : (mu <? 0) = false) by (apply Rltb_false; exact Hmu).
  rewrite E.
  destruct (check_axial_load_limit_cases const section pu)
    as [(_ & _ & E')|[[H|H] _]]; [|lra|lra].
  now rewrite E'.
Qed.

End AxialGuard.

Lemma beam_section_axial_capacity :
  _get_max_axial_capacity kds (RectangularSection Examples.beam_section) 0.01
  = 3019660.8.
Proof.
  unfold _get_max_axial_capacity. simpl.
  change (fy Examples.s400_material) with 400.
  unfold Rectangular.gross_area. simpl. lra.
Qed.

(** C4, the failing input: 4000 kN of compression on the rectangular beam
    exceeds its coarse axial capacity of 3019.66 kN, and both
    [get_maximum_capacity] and [design_flexural_reinforcement] refuse it
    with the axial-limit error; [check_section_adequacy], given 12000 mm2
    of steel, analyzes the section and returns its verdicts. *)
Theorem check_section_adequacy_skips_axial_limit :
  let section := RectangularSection Examples.beam_section in
  let limit := _get_max_axial_capacity kds section 0.01 in
  limit < 4000000 /\
  get_maximum_capacity kds section 4000000
    = Raise (SectionCapacityError (AxialLoadExceeded 4000000 limit)) /\
  design_flexural_reinforcement kds section 0 4000000
    = Raise (SectionCapacityError (AxialLoadExceeded 4000000 limit)) /\
  exists r, check_section_adequacy kds section 12000 0 4000000 = Ok r.
Proof.
  intros section limit.
  assert (Hl : limit < 4000000).
  { unfold limit, section. rewrite beam_section_axial_capacity. lra. }
  split; [exact Hl|].
  split; [apply get_maximum_capacity_axial_guard; [lra|exact Hl]|].
  split; [apply design_axial_guard; [lra|lra|exact Hl]|].
  unfold check_section_adequacy.
  assert (E : (12000 <? 0) = false) by (apply Rltb_false; lra).
  rewrite E.
  destruct (beam_section_analysis_returns kds 12000 4000000) as (r & Hr & _);
    [lra|].
  fold section in Hr. rewrite Hr, bind_Ok.
  destruct (Rectangular_cracking_moment_defined Examples.beam_section
              beam_section_constructed beam_section_height_in_range)
    as [Mcr HMcr].
  unfold section at 1.
  cbn [Section.cracking_moment]. rewrite HMcr, bind_Ok. eauto.
Qed.

(** ** The adequacy check *)




(** The overflow is reached: the beam made 1e200 mm high is constructed,
    has area, and its 2000 mm2 of steel are analyzed, but the cube of its
    height is too large for a float and [check_section_adequacy] raises
    [OverflowError] from the cracking moment. *)
Lemma tall_section_constructed :
  Section.constructed (RectangularSection Examples.tall_section).
Proof. constructed_by_computation. Qed.

Lemma tall_section_check_overflows :
  0 < Section.gross_area (RectangularSection Examples.tall_section) /\
  (exists a,
      _analyze_section kds (RectangularSection Examples.tall_section)
        2000 0 0.0 = Ok a) /\
  check_section_adequacy kds (RectangularSection Examples.tall_section)
    2000 0 0 = Raise OverflowError.
Proof.
  destruct c24_factors as (Eeta & Ebeta & _).
  assert (Han : exists a,
             _analyze_section kds (RectangularSection Examples.tall_section)
               2000 0 0.0 = Ok a).
  { rewrite analyze_section_rect.
    apply analyze_rectangular_ok;
      change (Rectangular.concrete Examples.tall_section)
        with Examples.c24_material;
      change (fy (Rectangular.tension_steel Examples.tall_section))
        with 400;
      rewrite Eeta, Ebeta; simpl.
    - rewrite Rabs_right; lra.
    - lra. }
  split; [unfold Section.gross_area, Rectangular.gross_area; simpl; lra|].
  split; [exact Han|].
  destruct Han as [a Ha].
  unfold check_section_adequacy.
  assert (E : (2000 <? 0) = false) by (apply Rltb_false; lra).
  rewrite E, Ha, bind_Ok.
  cbn [Section.cracking_moment]. unfold Rectangular.cracking_moment.
  rewrite modulus_of_rupture_defined by (simpl; lra). rewrite bind_Ok.
  unfold Rectangular.Ig, float_pow.
  assert (Eo : (Rabs (Rectangular.height Examples.tall_section ^ 3)
                >? FLOAT_MAX) = true).
  { apply Rltb_true. unfold FLOAT_MAX. simpl.
    rewrite Rabs_right; lra. }
  rewrite Eo. reflexivity.
Qed.

(** ** The capacity ceiling of the design *)

Section CapacityCeiling.

Variable const : Constants.

Lemma find_as_loop_raises (section : BaseSection) (target_mu pu : R)
  (e : exn) (n : nat) :
  forall lo hi,
    _find_as_loop const section target_mu pu n lo hi = Raise e ->
    is_SectionCapacityError e.
Proof.
  induction n as [|n IH]; intros lo hi; simpl; [discriminate|].
  destruct (hi - lo <? 1e-9); [discriminate|].
  destruct (_analyze_section const section ((lo + hi) / 2.0) pu 0.0)
    as [r|e'] eqn:Hr; simpl.
  - destruct (phi_mn r <? target_mu); apply IH.
  - intros [= <-]. exact (analyze_section_raises const _ _ _ _ Hr).
Qed.

(** Where the cracking moment is defined, a demand above the maximum
    design strength is refused with [SectionCapacityError]. *)
Lemma design_capacity_ceiling (section : BaseSection) (mu pu : R)
  (cap : CapacityResult) :
  Section.constructed section ->
  0 < Section.gross_area section ->
  Section.height section ^ 3 <= FLOAT_MAX ->
  0 <= mu ->
  get_maximum_capacity const section pu = Ok cap ->
  is_less_or_equal mu (max_phi_mn cap) = false ->
  exists m,
    design_flexural_reinforcement const section mu pu
    = Raise (SectionCapacityError m).
Proof.
  intros Hs Hag Hrange Hmu Hcap Hle.
  destruct (cracking_moment_defined section Hs Hag Hrange) as [Mcr HMcr].
  pose proof (get_maximum_capacity_inv const _ _ _ Hcap) as (Hax & _).
  unfold design_flexural_reinforcement.
  assert (E : (mu <? 0) = false) by (apply Rltb_false; exact Hmu).
  rewrite E, Hax, bind_Ok, Hcap, bind_Ok, HMcr, bind_Ok. cbv zeta.
  destruct (MIN_FLEXURAL_STRENGTH_FACTOR const * Mcr >? 0) eqn:Hm.
  - unfold _find_as_for_mu at 1.
    apply Rltb_true in Hm.
    assert (E' : (MIN_FLEXURAL_STRENGTH_FACTOR const * Mcr <? 0) = false)
      by (apply Rltb_false; lra).
    rewrite E'.
    destruct (_find_as_loop const section _ pu 100 0.0 (cap_as_max cap))
      as [v|e] eqn:Hloop.
    + rewrite bind_Ok, Hle. simpl. eauto.
    + apply find_as_loop_raises in Hloop.
      destruct e; try contradiction. simpl. eauto.
  - rewrite bind_Ok, Hle. simpl. eauto.
Qed.

End CapacityCeiling.

Lemma hairline_section_constructed :
  Section.constructed (TSection Examples.hairline_section).
Proof. constructed_by_computation. Qed.

Lemma hairline_section_cracking_moment :
  Section.cracking_moment (TSection Examples.hairline_section)
  = Raise ZeroDivisionError.
Proof.
  cbn [Section.cracking_moment]. unfold TShape.cracking_moment.
  rewrite modulus_of_rupture_defined by (simpl; lra). rewrite bind_Ok.
  unfold TShape.Ig.
  rewrite !float_pow_ok
    by (unfold FLOAT_MAX; simpl; rewrite Rabs_right; lra).
  rewrite !bind_Ok. cbv zeta.
  unfold TShape.centroid_y, fdiv.
  destruct (Req_dec_T (TShape.gross_area Examples.hairline_section) 0)
    as [_|Hn]; [reflexivity|].
  exfalso. apply Hn. unfold TShape.gross_area. simpl. lra.
Qed.

Lemma hairline_section_capacity :
  exists cap,
    get_maximum_capacity kds (TSection Examples.hairline_section) 0
      = Ok cap /\
    0 <= max_phi_mn cap <= 1e-15.
Proof.
  destruct c24_factors as (Eeta & Ebeta & Eecu).
  destruct s400_strains as (Efy & _ & _ & Emin).
  set (sec := Examples.hairline_section).
  assert (Ea : a_max (TSection sec) = 0.8 * (0.0033 / 0.0073 * 1e-9)).
  { unfold a_max, c_max.
    change (Section.concrete (TSection sec)) with Examples.c24_material.
    change (Section.tension_steel (TSection sec)) with Examples.s400_material.
    rewrite Ebeta, Eecu, Emin.
    unfold Section.effective_depth, TShape.effective_depth. simpl. lra. }
  assert (ECc : Cc_max (TSection sec) = 0.85 * 24 * a_max (TSection sec)).
  { unfold Cc_max.
    assert (Hle : is_less_or_equal (a_max (TSection sec))
                    (TShape.flange_depth sec) = true).
    { apply is_less_or_equal_true. rewrite Ea. simpl. lra. }
    rewrite Hle.
    change (Section.concrete (TSection sec)) with Examples.c24_material.
    rewrite Eeta. simpl. lra. }
  set (As_max := (Cc_max (TSection sec) + 0) / fy (TShape.tension_steel sec)).
  assert (EAs : As_max = 0.85 * 24 * (0.8 * (0.0033 / 0.0073 * 1e-9)) / 400).
  { unfold As_max. rewrite ECc, Ea.
    change (TShape.tension_steel sec) with Examples.s400_material.
    rewrite Efy. lra. }
  assert (Ec : (As_max * fy (TShape.tension_steel sec) - 0)
               / (eta (TShape.concrete sec) * 0.85 * fck (TShape.concrete sec)
                  * beta1 (TShape.concrete sec) * TShape.flange_width sec)
               = 0.0033 / 0.0073 * 1e-9).
  { rewrite EAs.
    change (TShape.concrete sec) with Examples.c24_material.
    change (TShape.tension_steel sec) with Examples.s400_material.
    rewrite Eeta, Ebeta, Efy. simpl. lra. }
  assert (Etr : trial_a sec As_max 0 = 0.8 * (0.0033 / 0.0073 * 1e-9)).
  { unfold trial_a. rewrite Ec.
    change (TShape.concrete sec) with Examples.c24_material.
    now rewrite Ebeta. }
  destruct (flange_branch_ok kds sec As_max 0) as [r Hr]; [rewrite Ec; lra|].
  assert (Han : _analyze_section kds (TSection sec) As_max 0 0.0 = Ok r).
  { rewrite analyze_section_tee.
    destruct (analyze_tsection_branches kds sec As_max 0)
      as [[Hn _]|[(_ & _ & E)|(_ & Hle & _)]].
    - exfalso. revert Hn.
      change (TShape.concrete sec) with Examples.c24_material.
      rewrite Eeta, Ebeta. simpl.
      rewrite Rabs_right by lra. lra.
    - now rewrite E.
    - apply is_less_or_equal_false in Hle. rewrite Etr in Hle.
      simpl in Hle. lra. }
  exists {| cap_as_max := As_max; max_phi_mn := phi_mn r;
            cap_analysis_result := r |}.
  split.
  - rewrite get_maximum_capacity_unfold, no_axial_force_passes, bind_Ok.
    cbv zeta. change (Section.tension_steel (TSection sec))
      with (TShape.tension_steel sec).
    fold As_max.
    assert (E : (As_max <? 0) = false) by (apply Rltb_false; lra).
    rewrite E, Han. reflexivity.
  - cbn [max_phi_mn].
    assert (Hphi : 0.65 <= phi r <= 0.85).
    { apply (calculate_phi_range kds (Section.tension_steel (TSection sec))
               (net_tensile_strain r)); [simpl; lra|].
      exact (analyze_section_phi kds _ _ _ _ _ Han). }
    apply flange_branch_inv in Hr. destruct Hr as (Ecr & _ & Hmn).
    rewrite Ec in Ecr. rewrite Hmn, Ecr.
    change (TShape.concrete sec) with Examples.c24_material.
    rewrite Eeta, Ebeta. unfold TShape.effective_depth. simpl.
    set (Mn := 1 * 0.85 * 24 * (0.8 * (0.0033 / 0.0073 * 1e-9)) * 1 *
               (1e-9 - 0 - 0 - 0 / 2 - 0.8 * (0.0033 / 0.0073 * 1e-9) / 2) +
               0 * (1e-9 - 0 - 0 - 0 / 2 - 1e-9 / 2)).
    assert (HMn : 0 <= Mn <= 1e-15) by (unfold Mn; lra).
    nra.
Qed.

(** C3, the failing input: the hairline T-section is accepted by its
    constructor, no axial force passes the precheck,
    [get_maximum_capacity] returns a maximum design strength below
    1e-15 Nmm, and the demand [mu = 1] exceeds it; yet
    [design_flexural_reinforcement] raises [ZeroDivisionError], from the
    cracking moment of a section of zero gross area, where the claim
    asks for [SectionCapacityError]. *)
Theorem design_leaks_zero_division :
  let section := TSection Examples.hairline_section in
  Section.constructed section /\
  _check_axial_load_limit kds section 0 = Ok tt /\
  exists cap,
    get_maximum_capacity kds section 0 = Ok cap /\
    is_less_or_equal 1 (max_phi_mn cap) = false /\
    design_flexural_reinforcement kds section 1 0 = Raise ZeroDivisionError.
Proof.
  intros section.
  split; [exact hairline_section_constructed|].
  split; [apply no_axial_force_passes|].
  destruct hairline_section_capacity as (cap & Hcap & Hmax).
  exists cap. split; [exact Hcap|].
  split; [apply is_less_or_equal_false; lra|].
  unfold design_flexural_reinforcement.
  assert (E : (1 <? 0) = false) by (apply Rltb_false; lra).
  rewrite E. unfold section.
  rewrite no_axial_force_passes, bind_Ok, Hcap, bind_Ok.
  rewrite hairline_section_cracking_moment. reflexivity.
Qed.

(** ** The branch boundary of the T-section analyzer *)

(** C7 (as amended): for a T-section whose flange and web denominators
    [eta*0.85*fck*beta1*bf] and [eta*0.85*fck*beta1*bw] are at least 1e-9
    in absolute value, and any axial force: at the steel area where the
    trial stress-block depth [a] computed with the full flange width
    equals the flange depth [hf] exactly, the flange branch and the web
    branch of the analyzer give the same outcome, which is the outcome of
    the analyzer itself; when [hf > 0] it is a result with
    [c = hf / beta1], so the two branches there have the same [c], net
    tensile strain and [phi*Mn].  The analyzer takes the flange branch
    while [a - hf < 1e-9] and the web branch from [a - hf >= 1e-9] on. *)
Theorem tsection_branches_agree_at_flange_depth :
  forall (const : Constants) (section : TShape.TSection) (As Pu : R),
    let conc := TShape.concrete section in
    1e-9 <= Rabs (eta conc * 0.85 * fck conc * beta1 conc
                  * TShape.flange_width section) ->
    1e-9 <= Rabs (eta conc * 0.85 * fck conc * beta1 conc
                  * TShape.web_width section) ->
    trial_a section As Pu = TShape.flange_depth section ->
    flange_branch_result const section As Pu
      = web_branch_result const section As Pu /\
    _analyze_tsection const section As Pu
      = flange_branch_result const section As Pu /\
    (0 < TShape.flange_depth section ->
     exists r,
       flange_branch_result const section As Pu = Ok r /\
       web_branch_result const section As Pu = Ok r /\
       c r = TShape.flange_depth section / beta1 conc) /\
    (forall As' : R,
        (trial_a section As' Pu - TShape.flange_depth section < 1e-9 ->
         _analyze_tsection const section As' Pu
           = flange_branch_result const section As' Pu) /\
        (1e-9 <= trial_a section As' Pu - TShape.flange_depth section ->
         _analyze_tsection const section As' Pu
           = web_branch_result const section As' Pu)).
Proof.
  intros const section As Pu conc Hdf Hdw Htr.
  pose proof (beta1_range conc) as Hb.
  pose proof (Rabs_ge_nonzero _ Hdf) as Hnf.
  pose proof (Rabs_ge_nonzero _ Hdw) as Hnw.
  assert (Eb : flange_branch_result const section As Pu
               = web_branch_result const section As Pu).
  { unfold flange_branch_result, web_branch_result, _tsection_flange_case.
    destruct (tsection_web_case_outcome section As Pu) as [[Hn _]|[_ E]];
      [fold conc in Hn; lra|].
    rewrite E, !bind_Ok. cbn [fst snd]. fold conc.
    unfold trial_a in Htr. fold conc in Htr. rewrite <- Htr.
    set (K := eta conc * 0.85 * fck conc) in *.
    set (x := As * fy (TShape.tension_steel section) - Pu).
    assert (HK : K <> 0).
    { intros E0. apply Hnf. rewrite E0. ring. }
    assert (Hbf : TShape.flange_width section <> 0).
    { intros E0. apply Hnf. rewrite E0. ring. }
    assert (Hbw : TShape.web_width section <> 0).
    { intros E0. apply Hnw. rewrite E0. ring. }
    assert (Ec : (x - K * (TShape.flange_width section
                           - TShape.web_width section)
                      * (beta1 conc
                         * (x / (K * beta1 conc
                                 * TShape.flange_width section))))
                 / (K * beta1 conc * TShape.web_width section)
                 = x / (K * beta1 conc * TShape.flange_width section))
      by (field; repeat split; lra).
    rewrite Ec. f_equal. field. repeat split; lra. }
  assert (Ea : _analyze_tsection const section As Pu
               = flange_branch_result const section As Pu).
  { destruct (analyze_tsection_branches const section As Pu)
      as [[Hn _]|[(_ & _ & E)|(_ & Hle & _)]].
    - fold conc in Hn. lra.
    - exact E.
    - apply is_less_or_equal_false in Hle. rewrite Htr in Hle. lra. }
  split; [exact Eb|]. split; [exact Ea|]. split; cycle 1.
  { intros As'.
    destruct (analyze_tsection_branches const section As' Pu)
      as [[Hn _]|[(_ & Hle & E)|(_ & Hle & E)]].
    - fold conc in Hn. lra.
    - apply is_less_or_equal_true in Hle. split; [intros _; exact E|lra].
    - apply is_less_or_equal_false in Hle. split; [lra|intros _; exact E]. }
  intros Hhf.
  assert (Ec : (As * fy (TShape.tension_steel section) - Pu)
               / (eta conc * 0.85 * fck conc * beta1 conc
                  * TShape.flange_width section)
               = TShape.flange_depth section / beta1 conc).
  { assert (Hfck : fck conc <> 0).
    { intros E0. apply Hnf. rewrite E0. ring. }
    assert (Hbf : TShape.flange_width section <> 0).
    { intros E0. apply Hnf. rewrite E0. ring. }
    pose proof (eta_range conc) as Heta.
    rewrite <- Htr. unfold trial_a. fold conc. field.
    repeat split; (assumption || lra). }
  destruct (flange_branch_ok const section As Pu) as [r Hr].
  - fold conc. rewrite Ec. apply Rdiv_lt_0_compat; lra.
  - exists r. split; [exact Hr|]. split; [now rewrite <- Eb|].
    apply flange_branch_inv in Hr. destruct Hr as (Ecr & _).
    fold conc in Ecr. now rewrite Ecr.
Qed.

(** C7, counterexample: in the T-section without a web, 7650 mm2 of steel
    and no axial force put the trial depth [a] exactly at the flange depth
    150; the flange branch returns a result with [c = 187.5], the web
    branch raises [SectionCapacityError] (web width zero). *)
Lemma branches_disagree_without_web :
  Section.constructed (TSection Examples.flange_only_section) /\
  trial_a Examples.flange_only_section 7650 0
    = TShape.flange_depth Examples.flange_only_section /\
  (exists r,
      flange_branch_result kds Examples.flange_only_section 7650 0 = Ok r /\
      c r = 187.5) /\
  web_branch_result kds Examples.flange_only_section 7650 0
    = Raise (SectionCapacityError WebWidthZero).
Proof.
  destruct c30_factors as (Eeta & Ebeta & _).
  destruct s500_strains as (Efy & _).
  set (sec := Examples.flange_only_section).
  assert (Ec : (7650 * fy (TShape.tension_steel sec) - 0)
               / (eta (TShape.concrete sec) * 0.85 * fck (TShape.concrete sec)
                  * beta1 (TShape.concrete sec) * TShape.flange_width sec)
               = 187.5).
  { change (TShape.concrete sec) with Examples.c30_material.
    change (TShape.tension_steel sec) with Examples.s500_material.
    rewrite Eeta, Ebeta, Efy. simpl. lra. }
  split; [exact flange_only_section_constructed|]. split; [|split].
  - unfold trial_a. rewrite Ec.
    change (TShape.concrete sec) with Examples.c30_material.
    rewrite Ebeta. simpl. lra.
  - destruct (flange_branch_ok kds sec 7650 0) as [r Hr]; [rewrite Ec; lra|].
    exists r. split; [exact Hr|].
    apply flange_branch_inv in Hr. destruct Hr as (Ecr & _).
    now rewrite Ecr.
  - unfold web_branch_result.
    destruct (tsection_web_case_outcome sec 7650 0) as [[_ E]|[Hn _]].
    + now rewrite E.
    + exfalso. revert Hn. simpl. rewrite Rmult_0_r, Rabs_R0. lra.
Qed.

(** C7, witness: the T-beam of [core/section/tshape.py], whose trial depth
    reaches the flange depth 150 at 7650 mm2 of steel under no axial
    force. *)
Lemma tsection_branches_agree_at_flange_depth_witness :
  flange_branch_result kds Examples.t_beam_section 7650 0
  = web_branch_result kds Examples.t_beam_section 7650 0.
Proof.
  destruct c30_factors as (Eeta & Ebeta & _).
  destruct s500_strains as (Efy & _).
  apply (tsection_branches_agree_at_flange_depth kds
           Examples.t_beam_section 7650 0).
  - change (TShape.concrete Examples.t_beam_section)
      with Examples.c30_material.
    rewrite Eeta, Ebeta. simpl. rewrite Rabs_right; lra.
  - change (TShape.concrete Examples.t_beam_section)
      with Examples.c30_material.
    rewrite Eeta, Ebeta. simpl. rewrite Rabs_right; lra.
  - unfold trial_a.
    change (TShape.concrete Examples.t_beam_section)
      with Examples.c30_material.
    change (TShape.tension_steel Examples.t_beam_section)
      with Examples.s500_material.
    rewrite Eeta, Ebeta, Efy. simpl. lra.
Defined.

(** ** Monotonicity of the design strength *)

Section Monotone.

Variable const : Constants.

Lemma area_below_capacity (section : BaseSection) (pu As : R)
  (cap : CapacityResult) :
  get_maximum_capacity const section pu = Ok cap ->
  As <= cap_as_max cap ->
  As * fy (Section.tension_steel section) - pu <= Cc_max section.
Proof.
  intros Hcap HAs.
  apply get_maximum_capacity_inv in Hcap. destruct Hcap as (_ & E & _).
  pose proof (fy_pos (Section.tension_steel section)) as Hfy.
  rewrite E in HAs.
  assert (H : As * fy (Section.tension_steel section)
              <= (Cc_max section + pu) / fy (Section.tension_steel section)
                 * fy (Section.tension_steel section))
    by (apply Rmult_le_compat_r; lra).
  replace ((Cc_max section + pu) / fy (Section.tension_steel section)
           * fy (Section.tension_steel section))
    with (Cc_max section + pu) in H by (field; lra).
  lra.
Qed.

Lemma rectangular_strength_monotone (s : Rectangular.RectangularSection)
  (pu As1 As2 : R) (cap : CapacityResult) (r1 r2 : AnalysisResult) :
  Section.constructed (RectangularSection s) ->
  get_maximum_capacity const (RectangularSection s) pu = Ok cap ->
  As1 <= As2 -> As2 <= cap_as_max cap ->
  _analyze_rectangular const s As1 pu = Ok r1 ->
  _analyze_rectangular const s As2 pu = Ok r2 ->
  0 <= phi r1 -> phi r1 = phi r2 ->
  phi_mn r1 <= phi_mn r2.
Proof.
  intros Hs Hcap H12 H2m Hr1 Hr2 Hp Ep.
  pose proof (area_below_capacity _ _ _ _ Hcap H2m) as Hx2.
  pose proof (constructed_concrete _ Hs) as [_ HK].
  pose proof (a_max_below_depth _ Hs) as [Ha0 Had].
  pose proof (beta1_range (Rectangular.concrete s)) as Hb.
  pose proof (fy_pos (Rectangular.tension_steel s)) as Hfy.
  destruct Hs as (_ & _ & Hgeo). apply Rectangular_post_init_ok in Hgeo.
  destruct Hgeo as (Hw & _).
  apply analyze_rectangular_inv in Hr1.
  destruct Hr1 as (Hden & Ec1 & Hc1 & _ & _ & Em1).
  apply analyze_rectangular_inv in Hr2.
  destruct Hr2 as (_ & Ec2 & Hc2 & _ & _ & Em2).
  cbn [Section.concrete Section.tension_steel Section.effective_depth] in *.
  set (conc := Rectangular.concrete s) in *.
  set (K := eta conc * 0.85 * fck conc) in *.
  set (b := Rectangular.width s) in *.
  set (d := Rectangular.effective_depth s) in *.
  set (fys := fy (Rectangular.tension_steel s)) in *.
  assert (HKb : 0 < K * beta1 conc) by (apply Rmult_lt_0_compat; lra).
  assert (H0 : 0 <= K * beta1 conc * b) by (apply Rmult_le_pos; lra).
  pose proof (Rabs_ge_pos _ H0 Hden) as Hdpos.
  assert (Hbpos : 0 < b)
    by (apply (pos_right_factor (K * beta1 conc)); lra).
  assert (Hc12 : c r1 <= c r2).
  { rewrite Ec1, Ec2. apply Rdiv_le_mono_pos; [lra|].
    assert (As1 * fys <= As2 * fys) by (apply Rmult_le_compat_r; lra).
    lra. }
  assert (Ha2 : beta1 conc * c r2 <= d).
  { assert (E : K * b * (beta1 conc * c r2) = As2 * fys - pu).
    { rewrite Ec2. field. repeat split; lra. }
    unfold Cc_max, a_max in Hx2. cbn [Section.concrete] in Hx2.
    fold conc K b in Hx2.
    assert (HKbpos : 0 < K * b) by (apply Rmult_lt_0_compat; lra).
    assert (Hle : K * b * (beta1 conc * c r2)
                  <= K * b * (beta1 conc * c_max (RectangularSection s)))
      by (rewrite E; lra).
    apply Rmult_le_reg_l in Hle; [|exact HKbpos].
    unfold a_max in Had. cbn [Section.concrete] in Had. fold conc in Had.
    lra. }
  assert (Ha1 : beta1 conc * c r1 <= d) by nra.
  pose proof (block_moment_monotone (K * b) (beta1 conc) d (c r1) (c r2))
    as Hmono.
  assert (Hm : K * b * (beta1 conc * c r1) * (d - beta1 conc * c r1 / 2)
               <= K * b * (beta1 conc * c r2) * (d - beta1 conc * c r2 / 2))
    by (apply Hmono; nra).
  rewrite Em1, Em2, <- Ep.
  apply Rmult_le_compat_l; [exact Hp|].
  replace (K * (beta1 conc * c r1) * b) with (K * b * (beta1 conc * c r1))
    by ring.
  replace (K * (beta1 conc * c r2) * b) with (K * b * (beta1 conc * c r2))
    by ring.
  lra.
Qed.

Lemma tsection_strength_monotone (s : TShape.TSection)
  (pu As1 As2 : R) (cap : CapacityResult) (r1 r2 : AnalysisResult) :
  Section.constructed (TSection s) ->
  get_maximum_capacity const (TSection s) pu = Ok cap ->
  As1 <= As2 -> As2 <= cap_as_max cap ->
  _analyze_tsection const s As1 pu = Ok r1 ->
  _analyze_tsection const s As2 pu = Ok r2 ->
  0 <= phi r1 -> phi r1 = phi r2 ->
  is_less_or_equal (trial_a s As1 pu) (TShape.flange_depth s)
  = is_less_or_equal (trial_a s As2 pu) (TShape.flange_depth s) ->
  phi_mn r1 <= phi_mn r2.
Proof.
  intros Hs Hcap H12 H2m Hr1 Hr2 Hp Ep Hsame.
  pose proof (area_below_capacity _ _ _ _ Hcap H2m) as Hx2.
  pose proof (constructed_concrete _ Hs) as [_ HK].
  pose proof (a_max_below_depth _ Hs) as [Ha0 Had].
  pose proof (beta1_range (TShape.concrete s)) as Hb.
  pose proof (fy_pos (TShape.tension_steel s)) as Hfy.
  destruct Hs as (_ & _ & Hgeo). apply TShape_post_init_ok in Hgeo.
  destruct Hgeo as (Hbw & _ & Hbf & Hhf & _ & _ & _ & Hwf & _).
  cbn [Section.concrete Section.tension_steel Section.effective_depth] in *.
  set (conc := TShape.concrete s) in *.
  set (K := eta conc * 0.85 * fck conc) in *.
  set (bf := TShape.flange_width s) in *.
  set (bw := TShape.web_width s) in *.
  set (hf := TShape.flange_depth s) in *.
  set (d := TShape.effective_depth s) in *.
  set (fys := fy (TShape.tension_steel s)) in *.
  set (beta := beta1 conc) in *.
  assert (HKb : 0 < K * beta) by (apply Rmult_lt_0_compat; lra).
  assert (Hx12 : As1 * fys - pu <= As2 * fys - pu).
  { assert (As1 * fys <= As2 * fys) by (apply Rmult_le_compat_r; lra).
    lra. }
  destruct (analyze_tsection_branches const s As2 pu)
    as [[_ E]|[(Hdf & Hle2 & E2)|(Hdf & Hle2 & E2)]];
    [rewrite E in Hr2; discriminate| |];
    rewrite E2 in Hr2; clear E2;
    (destruct (analyze_tsection_branches const s As1 pu)
      as [[_ E]|[(_ & Hle1 & E1)|(_ & Hle1 & E1)]];
     [rewrite E in Hr1; discriminate| |]);
    rewrite E1 in Hr1; clear E1; fold hf in Hle1, Hle2; try congruence;
    fold conc K beta bf in Hdf;
    (assert (H0 : 0 <= K * beta * bf) by (apply Rmult_le_pos; lra));
    pose proof (Rabs_ge_pos _ H0 Hdf) as Hdfpos;
    (assert (Hbfpos : 0 < bf)
      by (apply (pos_right_factor (K * beta)); lra));
    (assert (HKbf : 0 < K * bf) by (apply Rmult_lt_0_compat; lra));
    (assert (Etr : K * bf * trial_a s As2 pu = As2 * fys - pu)
      by (unfold trial_a; fold conc K beta bf fys; field;
          repeat split; lra)).
  - (* both in the flange *)
    apply flange_branch_inv in Hr1. destruct Hr1 as (Ec1 & Hc1 & Em1).
    apply flange_branch_inv in Hr2. destruct Hr2 as (Ec2 & Hc2 & Em2).
    fold conc K beta bf d fys in Ec1, Ec2, Em1, Em2.
    assert (Hc12 : c r1 <= c r2).
    { rewrite Ec1, Ec2. apply Rdiv_le_mono_pos; lra. }
    assert (Eta : trial_a s As2 pu = beta * c r2).
    { unfold trial_a. fold conc K beta bf fys. now rewrite Ec2. }
    assert (Ha2 : beta * c r2 <= d).
    { rewrite <- Eta. unfold Cc_max in Hx2.
      destruct (is_less_or_equal (a_max (TSection s)) (TShape.flange_depth s))
        eqn:Hcb.
      - cbn [Section.concrete] in Hx2. fold conc K bf in Hx2.
        assert (Hle : K * bf * trial_a s As2 pu
                      <= K * bf * a_max (TSection s))
          by (rewrite Etr; lra).
        apply Rmult_le_reg_l in Hle; [lra|exact HKbf].
      - apply is_less_or_equal_false in Hcb.
        apply is_less_or_equal_true in Hle2. fold hf in Hcb. lra. }
    assert (Ha1 : beta * c r1 <= d) by nra.
    pose proof (block_moment_monotone (K * bf) beta d (c r1) (c r2))
      as Hmono.
    assert (Hm : K * bf * (beta * c r1) * (d - beta * c r1 / 2)
                 <= K * bf * (beta * c r2) * (d - beta * c r2 / 2))
      by (apply Hmono; nra).
    rewrite Em1, Em2, <- Ep.
    apply Rmult_le_compat_l; [exact Hp|].
    replace (K * (beta * c r1) * bf) with (K * bf * (beta * c r1)) by ring.
    replace (K * (beta * c r2) * bf) with (K * bf * (beta * c r2)) by ring.
    lra.
  - (* both in the web *)
    apply web_branch_inv in Hr1. destruct Hr1 as (Hdw & Ec1 & Hc1 & Em1).
    apply web_branch_inv in Hr2. destruct Hr2 as (_ & Ec2 & Hc2 & Em2).
    fold conc K beta bf bw hf d fys in Hdw, Ec1, Ec2, Em1, Em2.
    assert (H0w : 0 <= K * beta * bw) by (apply Rmult_le_pos; lra).
    pose proof (Rabs_ge_pos _ H0w Hdw) as Hdwpos.
    assert (Hbwpos : 0 < bw)
      by (apply (pos_right_factor (K * beta)); lra).
    assert (HKbw : 0 < K * bw) by (apply Rmult_lt_0_compat; lra).
    assert (Hc12 : c r1 <= c r2).
    { rewrite Ec1, Ec2. apply Rdiv_le_mono_pos; lra. }
    assert (Ew : K * bw * (beta * c r2)
                 = As2 * fys - pu - K * (bf - bw) * hf).
    { rewrite Ec2. field. repeat split; lra. }
    assert (Ha2 : beta * c r2 <= d).
    { unfold Cc_max in Hx2.
      destruct (is_less_or_equal (a_max (TSection s)) (TShape.flange_depth s))
        eqn:Hcb.
      - exfalso. cbn [Section.concrete] in Hx2. fold conc K bf in Hx2.
        apply is_less_or_equal_true in Hcb.
        apply is_less_or_equal_false in Hle2. fold hf in Hcb.
        assert (Hle : K * bf * trial_a s As2 pu
                      <= K * bf * a_max (TSection s))
          by (rewrite Etr; lra).
        apply Rmult_le_reg_l in Hle; [lra|exact HKbf].
      - cbn [Section.concrete] in Hx2. fold conc K bf bw hf in Hx2.
        assert (Hle : K * bw * (beta * c r2)
                      <= K * bw * a_max (TSection s))
          by (rewrite Ew; lra).
        apply Rmult_le_reg_l in Hle; [lra|exact HKbw]. }
    assert (Ha1 : beta * c r1 <= d) by nra.
    pose proof (block_moment_monotone (K * bw) beta d (c r1) (c r2))
      as Hmono.
    assert (Hm : K * bw * (beta * c r1) * (d - beta * c r1 / 2)
                 <= K * bw * (beta * c r2) * (d - beta * c r2 / 2))
      by (apply Hmono; nra).
    rewrite Em1, Em2, <- Ep.
    apply Rmult_le_compat_l; [exact Hp|].
    replace (K * (beta * c r1) * bw) with (K * bw * (beta * c r1)) by ring.
    replace (K * (beta * c r2) * bw) with (K * bw * (beta * c r2)) by ring.
    lra.
Qed.

End Monotone.

(** Two tension-controlled analyses of one section carry the same
    strength-reduction factor, the tension-controlled constant. *)
Lemma tension_controlled_same_phi (const : Constants) (section : BaseSection)
  (As1 As2 Pu : R) (r1 r2 : AnalysisResult) :
  let e_tcl :=
    tension_controlled_limit_strain (Section.tension_steel section) in
  _analyze_section const section As1 Pu 0.0 = Ok r1 ->
  _analyze_section const section As2 Pu 0.0 = Ok r2 ->
  is_greater_or_equal (net_tensile_strain r1) e_tcl = true ->
  is_greater_or_equal (net_tensile_strain r2) e_tcl = true ->
  phi r1 = PHI_TENSION_CONTROLLED const /\ phi r1 = phi r2.
Proof.
  intros e_tcl Hr1 Hr2 H1 H2.
  apply analyze_section_phi in Hr1. apply analyze_section_phi in Hr2.
  unfold _calculate_phi in Hr1, Hr2. fold e_tcl in Hr1, Hr2.
  rewrite H1 in Hr1. rewrite H2 in Hr2.
  injection Hr1 as <-. injection Hr2 as <-. auto.
Qed.

(** C2 (as amended): for a constructed section, an axial force
    [get_maximum_capacity] accepts and non-negative code constants with
    [phi_ccl <= phi_tcl]: between two trial areas [As1 <= As2 <= As_max]
    that the analyzer gives the same strength-reduction factor (as it
    does throughout the tension-controlled range) and, for a T-section,
    sends to the same branch, the design moment [phi*Mn] does not
    decrease. *)
Theorem design_strength_monotone_at_constant_phi :
  forall (const : Constants) (section : BaseSection) (pu As1 As2 : R)
         (cap : CapacityResult) (r1 r2 : AnalysisResult),
    0 <= PHI_COMPRESSION_CONTROLLED_TIED const ->
    PHI_COMPRESSION_CONTROLLED_TIED const <= PHI_TENSION_CONTROLLED const ->
    Section.constructed section ->
    get_maximum_capacity const section pu = Ok cap ->
    As1 <= As2 -> As2 <= cap_as_max cap ->
    _analyze_section const section As1 pu 0.0 = Ok r1 ->
    _analyze_section const section As2 pu 0.0 = Ok r2 ->
    phi r1 = phi r2 ->
    same_branch section As1 As2 pu ->
    phi_mn r1 <= phi_mn r2.
Proof.
  intros const section pu As1 As2 cap r1 r2 Hc0 Hct Hs Hcap H12 H2m
    Hr1 Hr2 Ep Hsame.
  assert (Hp : 0 <= phi r1).
  { pose proof (analyze_section_phi const _ _ _ _ _ Hr1) as Hphi.
    pose proof (calculate_phi_range const _ _ _ Hct Hphi). lra. }
  destruct section as [s|s].
  - rewrite analyze_section_rect in Hr1, Hr2.
    exact (rectangular_strength_monotone const s pu As1 As2 cap r1 r2
             Hs Hcap H12 H2m Hr1 Hr2 Hp Ep).
  - rewrite analyze_section_tee in Hr1, Hr2.
    exact (tsection_strength_monotone const s pu As1 As2 cap r1 r2
             Hs Hcap H12 H2m Hr1 Hr2 Hp Ep Hsame).
Qed.

(** The rectangular beam analyzed with the code constants. *)
Lemma beam_section_analysis_values (As Pu : R) (r : AnalysisResult) :
  _analyze_section kds (RectangularSection Examples.beam_section) As Pu 0.0
    = Ok r ->
  c r = (As * 400 - Pu) / 6528 /\
  0 < c r /\
  net_tensile_strain r = 0.0033 * (524.5 - c r) / c r /\
  (net_tensile_strain r - 0.005 > - 1e-9 -> phi r = 0.85) /\
  (net_tensile_strain r - 0.005 <= - 1e-9 ->
   1e-9 <= net_tensile_strain r - 0.002 ->
   phi r = 0.65 + 0.2 * (net_tensile_strain r - 0.002) / 0.003) /\
  phi_mn r
  = phi r * (0.85 * 24 * (0.8 * c r) * 400 * (524.5 - 0.8 * c r / 2)
             + Pu * 224.5).
Proof.
  intros H. rewrite analyze_section_rect in H.
  apply analyze_rectangular_inv in H.
  destruct H as (_ & Ec & Hc & Het & Hphi & Hmn).
  destruct c24_factors as (Eeta & Ebeta & Eecu).
  destruct s400_strains as (Efy & Eccl & Etcl & _).
  rewrite beam_section_denominator in Ec.
  change (Rectangular.concrete Examples.beam_section)
    with Examples.c24_material in *.
  change (Rectangular.tension_steel Examples.beam_section)
    with Examples.s400_material in *.
  rewrite Efy in Ec. rewrite Eecu in Het. rewrite Eeta, Ebeta in Hmn.
  unfold Rectangular.effective_depth in Het, Hmn. simpl in Het, Hmn.
  split; [exact Ec|]. split; [exact Hc|].
  split; [rewrite Het; f_equal; f_equal; lra|].
  destruct (calculate_phi_cases kds Examples.s400_material
              (net_tensile_strain r)) as [[Hc1 E]|[[Hc1 E]|(H1 & H2 & E)]];
    rewrite E in Hphi; injection Hphi as Hphi;
    rewrite ?Eccl, ?Etcl in *; simpl in Hphi;
    repeat split; intros; lra.
Qed.

(** A rectangular section loses design strength too, once it carries
    compression: the beam under 1000 kN, which the axial precheck accepts
    (the limit is 3019.66 kN).  The areas 5900 and 6300 mm2 both lie in
    [[0, As_max]]; the first is tension-controlled ([phi = 0.85]), the
    second is in the transition zone, and its design moment is lower:
    about 697.3 kNm against 700.8 kNm. *)
Lemma design_strength_drops_under_compression :
  Section.constructed (RectangularSection Examples.beam_section) /\
  _check_axial_load_limit kds (RectangularSection Examples.beam_section)
    1000000 = Ok tt /\
  exists cap r1 r2,
    get_maximum_capacity kds (RectangularSection Examples.beam_section)
      1000000 = Ok cap /\
    0 <= 5900 /\ 5900 <= 6300 /\ 6300 <= cap_as_max cap /\
    _analyze_section kds (RectangularSection Examples.beam_section)
      5900 1000000 0.0 = Ok r1 /\
    _analyze_section kds (RectangularSection Examples.beam_section)
      6300 1000000 0.0 = Ok r2 /\
    phi_mn r2 < phi_mn r1.
Proof.
  destruct c24_factors as (Eeta & Ebeta & Eecu).
  destruct s400_strains as (Efy & _ & _ & Emin).
  set (section := RectangularSection Examples.beam_section).
  assert (Hax : _check_axial_load_limit kds section 1000000 = Ok tt).
  { destruct (check_axial_load_limit_cases kds section 1000000)
      as [(_ & H & _)|[_ H]]; [|exact H].
    unfold section in H. rewrite beam_section_axial_capacity in H. lra. }
  assert (ECc : Cc_max section
                = 0.85 * 24 * (0.8 * (0.0033 / 0.0073 * 524.5)) * 400).
  { unfold Cc_max, a_max, c_max, section.
    change (Section.concrete (RectangularSection Examples.beam_section))
      with Examples.c24_material.
    change (Section.tension_steel (RectangularSection Examples.beam_section))
      with Examples.s400_material.
    rewrite Eeta, Ebeta, Eecu, Emin.
    unfold Section.effective_depth, Rectangular.effective_depth. simpl.
    lra. }
  destruct (get_maximum_capacity_rect_ok kds Examples.beam_section 1000000)
    as [cap Hcap].
  { exact beam_section_constructed. }
  { rewrite beam_section_denominator, Rabs_right; lra. }
  { exact Hax. }
  { fold section. rewrite ECc. lra. }
  fold section in Hcap.
  destruct (beam_section_analysis_returns kds 5900 1000000)
    as (r1 & Hr1 & _); [lra|].
  destruct (beam_section_analysis_returns kds 6300 1000000)
    as (r2 & Hr2 & _); [lra|].
  split; [exact beam_section_constructed|]. split; [exact Hax|].
  exists cap, r1, r2.
  split; [exact Hcap|]. split; [lra|]. split; [lra|].
  split.
  { pose proof (get_maximum_capacity_inv kds _ _ _ Hcap) as (_ & E & _).
    rewrite E, ECc.
    change (Section.tension_steel section) with Examples.s400_material.
    rewrite Efy. lra. }
  split; [exact Hr1|]. split; [exact Hr2|].
  apply beam_section_analysis_values in Hr1.
  destruct Hr1 as (Ec1 & _ & Het1 & Hphi1 & _ & Hmn1).
  apply beam_section_analysis_values in Hr2.
  destruct Hr2 as (Ec2 & _ & Het2 & _ & Hphi2 & Hmn2).
  rewrite Ec1 in Het1. rewrite Ec2 in Het2.
  assert (Ep1 : phi r1 = 0.85) by (apply Hphi1; rewrite Het1; lra).
  assert (Ep2 : phi r2
                = 0.65 + 0.2 * (net_tensile_strain r2 - 0.002) / 0.003)
    by (apply Hphi2; rewrite Het2; lra).
  rewrite Het2 in Ep2.
  rewrite Hmn1, Hmn2, Ep1, Ep2, Ec1, Ec2. lra.
Qed.

(** ** The T-beam, in numbers *)

(** The T-beam of [core/section/tshape.py] without axial force, at a
    steel area that puts the neutral axis in the web. *)
Lemma t_beam_section_web_analysis (As : R) :
  1e-9 <= 0.8 * (As * 500 / 20400) - 150 ->
  exists r,
    _analyze_section kds (TSection Examples.t_beam_section) As 0 0.0 = Ok r /\
    c r = (As * 500 - 2295000) / 8160 /\
    net_tensile_strain r = 0.0033 * (737.5 - c r) / c r /\
    (net_tensile_strain r - 0.00625 > - 1e-9 -> phi r = 0.85) /\
    (net_tensile_strain r - 0.00625 <= - 1e-9 ->
     1e-9 <= net_tensile_strain r - 0.0025 ->
     phi r = 0.65 + 0.2 * (net_tensile_strain r - 0.0025) / 0.00375) /\
    phi_mn r
    = phi r * (2295000 * 662.5
               + 0.85 * 30 * (0.8 * c r) * 400 * (737.5 - 0.8 * c r / 2)).
Proof.
  intros Ha.
  destruct c30_factors as (Eeta & Ebeta & Eecu).
  destruct s500_strains as (Efy & Eccl & Etcl & _).
  set (sec := Examples.t_beam_section).
  assert (Etr : trial_a sec As 0 = 0.8 * (As * 500 / 20400)).
  { unfold trial_a.
    change (TShape.concrete sec) with Examples.c30_material.
    change (TShape.tension_steel sec) with Examples.s500_material.
    rewrite Eeta, Ebeta, Efy. simpl. lra. }
  assert (Edw : eta (TShape.concrete sec) * 0.85 * fck (TShape.concrete sec)
                * beta1 (TShape.concrete sec) * TShape.web_width sec = 8160).
  { change (TShape.concrete sec) with Examples.c30_material.
    rewrite Eeta, Ebeta. simpl. lra. }
  assert (Ecf : eta (TShape.concrete sec) * 0.85 * fck (TShape.concrete sec)
                * (TShape.flange_width sec - TShape.web_width sec)
                * TShape.flange_depth sec = 2295000).
  { change (TShape.concrete sec) with Examples.c30_material.
    rewrite Eeta. simpl. lra. }
  destruct (web_branch_ok kds sec As 0) as [r Hr].
  { rewrite Edw, Rabs_right; lra. }
  { rewrite Edw, Ecf.
    change (fy (TShape.tension_steel sec)) with 500.
    apply Rdiv_lt_0_compat; lra. }
  assert (Han : _analyze_section kds (TSection sec) As 0 0.0 = Ok r).
  { rewrite analyze_section_tee.
    destruct (analyze_tsection_branches kds sec As 0)
      as [[Hn _]|[(_ & Hle & _)|(_ & _ & E)]].
    - exfalso. revert Hn.
      change (TShape.concrete sec) with Examples.c30_material.
      rewrite Eeta, Ebeta. simpl. rewrite Rabs_right by lra. lra.
    - apply is_less_or_equal_true in Hle. rewrite Etr in Hle.
      simpl in Hle. lra.
    - now rewrite E. }
  exists r. split; [exact Han|].
  pose proof (analyze_section_strain kds _ _ _ _ _ Han) as [_ Het].
  pose proof (analyze_section_phi kds _ _ _ _ _ Han) as Hphi.
  apply web_branch_inv in Hr. destruct Hr as (_ & Ec & _ & Hmn).
  rewrite Edw, Ecf in Ec. rewrite Ecf in Hmn.
  change (fy (TShape.tension_steel sec)) with 500 in Ec.
  change (Section.concrete (TSection sec)) with Examples.c30_material in Het.
  change (Section.tension_steel (TSection sec))
    with Examples.s500_material in Hphi.
  change (TShape.concrete sec) with Examples.c30_material in Hmn.
  rewrite Eecu in Het. rewrite Eeta, Ebeta in Hmn.
  unfold Section.effective_depth, TShape.effective_depth in Het.
  unfold TShape.effective_depth in Hmn.
  simpl in Het, Hmn.
  split; [rewrite Ec; f_equal; lra|].
  split; [rewrite Het; f_equal; f_equal; lra|].
  destruct (calculate_phi_cases kds Examples.s500_material
              (net_tensile_strain r)) as [[Hc1 E]|[[Hc1 E]|(H1 & H2 & E)]];
    rewrite E in Hphi; injection Hphi as Hphi;
    rewrite ?Eccl, ?Etcl in *; simpl in Hphi;
    repeat split; intros; lra.
Qed.

Lemma t_beam_section_capacity :
  exists cap,
    get_maximum_capacity kds (TSection Examples.t_beam_section) 0 = Ok cap /\
    9375 < cap_as_max cap < 9376.
Proof.
  destruct c30_factors as (Eeta & Ebeta & Eecu).
  destruct s500_strains as (Efy & _ & _ & Emin).
  set (sec := Examples.t_beam_section).
  assert (Ea : a_max (TSection sec) = 0.8 * (0.0033 / 0.0083 * 737.5)).
  { unfold a_max, c_max.
    change (Section.concrete (TSection sec)) with Examples.c30_material.
    change (Section.tension_steel (TSection sec)) with Examples.s500_material.
    rewrite Ebeta, Eecu, Emin.
    unfold Section.effective_depth, TShape.effective_depth. simpl. lra. }
  assert (ECc : Cc_max (TSection sec)
                = 2295000 + 10200 * (0.8 * (0.0033 / 0.0083 * 737.5))).
  { unfold Cc_max.
    assert (Hle : is_less_or_equal (a_max (TSection sec))
                    (TShape.flange_depth sec) = false).
    { apply is_less_or_equal_false. rewrite Ea. simpl. lra. }
    rewrite Hle, Ea.
    change (Section.concrete (TSection sec)) with Examples.c30_material.
    rewrite Eeta. simpl. lra. }
  set (As_max := (Cc_max (TSection sec) + 0) / fy (TShape.tension_steel sec)).
  assert (EAs : As_max
                = (2295000 + 10200 * (0.8 * (0.0033 / 0.0083 * 737.5)))
                  / 500).
  { unfold As_max. rewrite ECc.
    change (TShape.tension_steel sec) with Examples.s500_material.
    rewrite Efy. lra. }
  destruct (t_beam_section_web_analysis As_max) as (r & Hr & _);
    [rewrite EAs; lra|].
  exists {| cap_as_max := As_max; max_phi_mn := phi_mn r;
            cap_analysis_result := r |}.
  split.
  - rewrite get_maximum_capacity_unfold, no_axial_force_passes, bind_Ok.
    cbv zeta. change (Section.tension_steel (TSection sec))
      with (TShape.tension_steel sec).
    fold As_max.
    assert (E : (As_max <? 0) = false) by (apply Rltb_false; lra).
    fold sec in Hr. rewrite E, Hr. reflexivity.
  - cbn [cap_as_max]. rewrite EAs. lra.
Qed.

(** C2, counterexample: the T-beam of [core/section/tshape.py] without
    any axial force.  The areas 8700 and 9300 mm2 both lie in
    [[0, As_max]] ([As_max] is about 9375.4); the first is
    tension-controlled ([phi = 0.85]), the second is in the transition
    zone, and its design moment is lower: about 2359.7 kNm against
    2404.6 kNm. *)
Lemma design_strength_drops_in_transition_zone :
  Section.constructed (TSection Examples.t_beam_section) /\
  exists cap r1 r2,
    get_maximum_capacity kds (TSection Examples.t_beam_section) 0 = Ok cap /\
    0 <= 8700 /\ 8700 <= 9300 /\ 9300 <= cap_as_max cap /\
    _analyze_section kds (TSection Examples.t_beam_section) 8700 0 0.0
      = Ok r1 /\
    _analyze_section kds (TSection Examples.t_beam_section) 9300 0 0.0
      = Ok r2 /\
    phi_mn r2 < phi_mn r1.
Proof.
  split; [exact t_beam_section_constructed|].
  destruct t_beam_section_capacity as (cap & Hcap & HAs).
  destruct (t_beam_section_web_analysis 8700)
    as (r1 & Hr1 & Ec1 & Het1 & Hphi1 & _ & Hmn1); [lra|].
  destruct (t_beam_section_web_analysis 9300)
    as (r2 & Hr2 & Ec2 & Het2 & _ & Hphi2 & Hmn2); [lra|].
  exists cap, r1, r2.
  split; [exact Hcap|]. split; [lra|]. split; [lra|]. split; [lra|].
  split; [exact Hr1|]. split; [exact Hr2|].
  rewrite Ec1 in Het1. rewrite Ec2 in Het2.
  assert (Ep1 : phi r1 = 0.85) by (apply Hphi1; rewrite Het1; lra).
  assert (Ep2 : phi r2
                = 0.65 + 0.2 * (net_tensile_strain r2 - 0.0025) / 0.00375)
    by (apply Hphi2; rewrite Het2; lra).
  rewrite Het2 in Ep2.
  rewrite Hmn1, Hmn2, Ep1, Ep2, Ec1, Ec2. lra.
Qed.

Lemma t_beam_section_trial_depth (As : R) :
  trial_a Examples.t_beam_section As 0 = 0.8 * (As * 500 / 20400).
Proof.
  destruct c30_factors as (Eeta & Ebeta & _).
  destruct s500_strains as (Efy & _).
  unfold trial_a.
  change (TShape.concrete Examples.t_beam_section)
    with Examples.c30_material.
  change (TShape.tension_steel Examples.t_beam_section)
    with Examples.s500_material.
  rewrite Eeta, Ebeta, Efy. simpl. lra.
Qed.

Lemma t_beam_section_branch_agrees :
  capacity_branch_agrees (TSection Examples.t_beam_section) 0.
Proof.
  destruct c30_factors as (Eeta & Ebeta & Eecu).
  destruct s500_strains as (Efy & _ & _ & Emin).
  set (sec := Examples.t_beam_section).
  assert (Ea : a_max (TSection sec) = 0.8 * (0.0033 / 0.0083 * 737.5)).
  { unfold a_max, c_max.
    change (Section.concrete (TSection sec)) with Examples.c30_material.
    change (Section.tension_steel (TSection sec)) with Examples.s500_material.
    rewrite Ebeta, Eecu, Emin.
    unfold Section.effective_depth, TShape.effective_depth. simpl. lra. }
  assert (Hle : is_less_or_equal (a_max (TSection sec))
                  (TShape.flange_depth sec) = false).
  { apply is_less_or_equal_false. rewrite Ea. simpl. lra. }
  assert (ECc : Cc_max (TSection sec)
                = 2295000 + 10200 * (0.8 * (0.0033 / 0.0083 * 737.5))).
  { unfold Cc_max. rewrite Hle, Ea.
    change (Section.concrete (TSection sec)) with Examples.c30_material.
    rewrite Eeta. simpl. lra. }
  unfold capacity_branch_agrees. fold sec. split.
  - rewrite Hle. apply is_less_or_equal_false.
    unfold sec at 1. rewrite t_beam_section_trial_depth, ECc.
    change (TShape.tension_steel sec) with Examples.s500_material.
    rewrite Efy. simpl. lra.
  - change (TShape.concrete sec) with Examples.c30_material.
    rewrite Eeta, Ebeta. simpl. rewrite Rabs_right; lra.
Qed.

(** C6, witness: the T-beam of [core/section/tshape.py] under no axial
    force, whose capacity formula and analysis at [As_max] both run in
    the web. *)
Lemma ductility_boundary_at_maximum_area_witness :
  exists cap,
    get_maximum_capacity kds (TSection Examples.t_beam_section) 0 = Ok cap /\
    net_tensile_strain (cap_analysis_result cap)
    = min_allowable_tensile_strain Examples.s500_material.
Proof.
  destruct t_beam_section_capacity as (cap & Hcap & _).
  exists cap. split; [exact Hcap|].
  exact (proj1 (proj2
    (ductility_boundary_at_maximum_area kds
       (TSection Examples.t_beam_section) 0 cap
       t_beam_section_constructed Hcap t_beam_section_branch_agrees))).
Defined.

(** C2, witness: the T-beam without axial force, at 8000 and 8700 mm2 of
    steel, both analyzed in the web and both tension-controlled. *)
Lemma design_strength_monotone_at_constant_phi_witness :
  exists r1 r2,
    _analyze_section kds (TSection Examples.t_beam_section) 8000 0 0.0
      = Ok r1 /\
    _analyze_section kds (TSection Examples.t_beam_section) 8700 0 0.0
      = Ok r2 /\
    phi_mn r1 <= phi_mn r2.
Proof.
  destruct t_beam_section_capacity as (cap & Hcap & HAs).
  destruct (t_beam_section_web_analysis 8000)
    as (r1 & Hr1 & Ec1 & Het1 & Hphi1 & _); [lra|].
  destruct (t_beam_section_web_analysis 8700)
    as (r2 & Hr2 & Ec2 & Het2 & Hphi2 & _); [lra|].
  exists r1, r2. split; [exact Hr1|]. split; [exact Hr2|].
  assert (Ep : phi r1 = phi r2).
  { rewrite Ec1 in Het1. rewrite Ec2 in Het2.
    rewrite Hphi1 by (rewrite Het1; lra).
    rewrite Hphi2 by (rewrite Het2; lra). reflexivity. }
  assert (Hsame : same_branch (TSection Examples.t_beam_section)
                    8000 8700 0).
  { unfold same_branch. rewrite !t_beam_section_trial_depth.
    assert (E1 : is_less_or_equal (0.8 * (8000 * 500 / 20400))
                   (TShape.flange_depth Examples.t_beam_section) = false)
      by (apply is_less_or_equal_false; simpl; lra).
    assert (E2 : is_less_or_equal (0.8 * (8700 * 500 / 20400))
                   (TShape.flange_depth Examples.t_beam_section) = false)
      by (apply is_less_or_equal_false; simpl; lra).
    now rewrite E1, E2. }
  apply (design_strength_monotone_at_constant_phi kds
           (TSection Examples.t_beam_section) 0 8000 8700 cap r1 r2).
  - simpl; lra.
  - simpl; lra.
  - exact t_beam_section_constructed.
  - exact Hcap.
  - lra.
  - lra.
  - exact Hr1.
  - exact Hr2.
  - exact Ep.
  - exact Hsame.
Defined.

(* ================================================================== *)
(** * Further properties of the engine *)
(* ================================================================== *)

(** ** The bisection *)

Section Bisection.

Variable const : Constants.

(** What the loop leaves behind: the returned upper bound is the one it
    started from or a trial area that was found sufficient, and just
    below it sits the last lower bound, which is the one it started from
    or a trial area that was found insufficient. *)
Lemma find_as_loop_post (section : BaseSection) (target_mu pu : R)
  (n : nat) :
  forall lo hi v,
    lo <= hi ->
    _find_as_loop const section target_mu pu n lo hi = Ok v ->
    (v = hi \/
     exists r, _analyze_section const section v pu 0.0 = Ok r /\
               target_mu <= phi_mn r) /\
    exists lo',
      lo <= lo' /\ lo' <= v /\
      (lo' = lo \/
       exists r, _analyze_section const section lo' pu 0.0 = Ok r /\
                 phi_mn r < target_mu) /\
      (v - lo' < 1e-9 \/ v - lo' = (hi - lo) / 2 ^ n).
Proof.
  induction n as [|n IH]; intros lo hi v Hle; simpl.
  - intros [= <-]. split; [auto|].
    exists lo. repeat split; auto; lra.
  - destruct (hi - lo <? 1e-9) eqn:Hw.
    + apply Rltb_true in Hw. intros [= <-]. split; [auto|].
      exists lo. repeat split; auto; lra.
    + apply Rltb_false in Hw. intros H.
      apply bind_Ok_inv in H. destruct H as (r & Hr & H).
      assert (Hpow : 0 < 2 ^ n) by (apply pow_lt; lra).
      destruct (phi_mn r <? target_mu) eqn:Hlt.
      * apply Rltb_true in Hlt.
        apply IH in H; [|lra].
        destruct H as (Hv & lo' & H1 & H2 & H3 & H4).
        split; [exact Hv|].
        exists lo'. split; [lra|]. split; [exact H2|]. split.
        -- right. destruct H3 as [->|H3]; [eauto|exact H3].
        -- destruct H4 as [H4|H4]; [auto|right].
           rewrite H4.
           replace (hi - (lo + hi) / 2.0) with ((hi - lo) / 2) by lra.
           field. lra.
      * apply Rltb_false in Hlt.
        apply IH in H; [|lra].
        destruct H as (Hv & lo' & H1 & H2 & H3 & H4).
        split.
        -- right. destruct Hv as [->|Hv]; [eauto|exact Hv].
        -- exists lo'. split; [exact H1|]. split; [exact H2|].
           split; [exact H3|].
           destruct H4 as [H4|H4]; [auto|right].
           rewrite H4.
           replace ((lo + hi) / 2.0 - lo) with ((hi - lo) / 2) by lra.
           field. lra.
Qed.

(** A higher target never makes the loop return a smaller area, whatever
    the shape of the strength curve. *)
Lemma find_as_loop_target_mono (section : BaseSection) (t1 t2 pu : R)
  (n : nat) :
  t1 <= t2 ->
  forall lo hi v1 v2,
    lo <= hi ->
    _find_as_loop const section t1 pu n lo hi = Ok v1 ->
    _find_as_loop const section t2 pu n lo hi = Ok v2 ->
    v1 <= v2.
Proof.
  intros Ht. induction n as [|n IH]; intros lo hi v1 v2 Hle; simpl.
  - intros [= <-] [= <-]. lra.
  - destruct (hi - lo <? 1e-9) eqn:Hw.
    + intros [= <-] [= <-]. lra.
    + apply Rltb_false in Hw.
      destruct (_analyze_section const section ((lo + hi) / 2.0) pu 0.0)
        as [r|e]; simpl; [|discriminate].
      destruct (phi_mn r <? t1) eqn:H1; destruct (phi_mn r <? t2) eqn:H2.
      * apply IH. lra.
      * apply Rltb_true in H1. apply Rltb_false in H2. lra.
      * intros Hv1 Hv2.
        apply find_as_loop_bounds in Hv1; [|lra].
        apply find_as_loop_bounds in Hv2; [|lra]. lra.
      * apply IH. lra.
Qed.

End Bisection.

(** ** Below the maximum area *)

Section BelowCapacity.

Variable const : Constants.

Lemma Rmult_div_cancel (x den : R) : den <> 0 -> den * (x / den) = x.
Proof. intros H. field. exact H. Qed.

(** An area that does not exceed [As_max] puts the neutral axis no deeper
    than the balanced depth, on either branch of the T-section analyzer. *)
Lemma depth_below_capacity (section : BaseSection) (pu As : R)
  (cap : CapacityResult) (r : AnalysisResult) :
  Section.constructed section ->
  get_maximum_capacity const section pu = Ok cap ->
  As <= cap_as_max cap ->
  _analyze_section const section As pu 0.0 = Ok r ->
  c r <= c_max section.
Proof.
  intros Hs Hcap HAs Hr.
  pose proof (area_below_capacity _ _ _ _ _ Hcap HAs) as Hx.
  pose proof (constructed_concrete _ Hs) as [_ HK].
  pose proof (beta1_range (Section.concrete section)) as Hb.
  pose proof (fy_pos (Section.tension_steel section)) as Hfy.
  destruct section as [s|s].
  - destruct Hs as (_ & _ & Hgeo). apply Rectangular_post_init_ok in Hgeo.
    destruct Hgeo as (Hw & _).
    rewrite analyze_section_rect in Hr.
    apply analyze_rectangular_inv in Hr.
    destruct Hr as (Hden & Ec & Hc & _).
    unfold Cc_max, a_max in Hx.
    cbn [Section.concrete Section.tension_steel] in *.
    set (conc := Rectangular.concrete s) in *.
    set (K := eta conc * 0.85 * fck conc) in *.
    set (b := Rectangular.width s) in *.
    set (fys := fy (Rectangular.tension_steel s)) in *.
    set (cm := c_max (RectangularSection s)) in *.
    assert (HKb : 0 < K * beta1 conc) by (apply Rmult_lt_0_compat; lra).
    assert (H0 : 0 <= K * beta1 conc * b) by (apply Rmult_le_pos; lra).
    pose proof (Rabs_ge_pos _ H0 Hden) as Hdpos.
    assert (E : K * beta1 conc * b * c r = As * fys - pu).
    { rewrite Ec. apply Rmult_div_cancel. lra. }
    assert (Hle : K * beta1 conc * b * c r <= K * beta1 conc * b * cm)
      by (rewrite E; lra).
    apply Rmult_le_reg_l in Hle; lra.
  - destruct Hs as (_ & _ & Hgeo). apply TShape_post_init_ok in Hgeo.
    destruct Hgeo as (Hbw & _ & Hbf & Hhf & _ & _ & _ & Hwf & _).
    rewrite analyze_section_tee in Hr.
    unfold Cc_max, a_max in Hx.
    cbn [Section.concrete Section.tension_steel] in *.
    set (conc := TShape.concrete s) in *.
    set (K := eta conc * 0.85 * fck conc) in *.
    set (bf := TShape.flange_width s) in *.
    set (bw := TShape.web_width s) in *.
    set (hf := TShape.flange_depth s) in *.
    set (fys := fy (TShape.tension_steel s)) in *.
    set (beta := beta1 conc) in *.
    set (cm := c_max (TSection s)) in *.
    assert (HKb : 0 < K * beta) by (apply Rmult_lt_0_compat; lra).
    destruct (analyze_tsection_branches const s As pu)
      as [[_ E]|[(Hdf & Hle & E)|(Hdf & Hle & E)]];
      [rewrite E in Hr; discriminate| |];
      rewrite E in Hr; clear E; fold hf in Hle;
      fold conc K beta bf in Hdf;
      (assert (H0 : 0 <= K * beta * bf) by (apply Rmult_le_pos; lra));
      pose proof (Rabs_ge_pos _ H0 Hdf) as Hdfpos;
      (assert (Hbfpos : 0 < bf)
        by (apply (pos_right_factor (K * beta)); lra));
      (assert (HKbf : 0 < K * bf) by (apply Rmult_lt_0_compat; lra));
      (assert (Etr : K * bf * trial_a s As pu = As * fys - pu)
        by (unfold trial_a; fold conc K beta bf fys; field;
            repeat split; lra)).
    + apply flange_branch_inv in Hr. destruct Hr as (Ec & Hc & _).
      fold conc K beta bf fys in Ec.
      assert (Eta : trial_a s As pu = beta * c r).
      { unfold trial_a. fold conc K beta bf fys. now rewrite Ec. }
      assert (Ha : beta * c r <= beta * cm).
      { rewrite <- Eta.
        destruct (is_less_or_equal (beta * cm) hf) eqn:Hcb.
        - assert (Hle' : K * bf * trial_a s As pu <= K * bf * (beta * cm))
            by (rewrite Etr; lra).
          apply Rmult_le_reg_l in Hle'; [lra|exact HKbf].
        - apply is_less_or_equal_false in Hcb.
          apply is_less_or_equal_true in Hle. lra. }
      apply Rmult_le_reg_l in Ha; lra.
    + apply web_branch_inv in Hr. destruct Hr as (Hdw & Ec & Hc & _).
      fold conc K beta bf bw hf fys in Hdw, Ec.
      assert (H0w : 0 <= K * beta * bw) by (apply Rmult_le_pos; lra).
      pose proof (Rabs_ge_pos _ H0w Hdw) as Hdwpos.
      assert (Ew : K * beta * bw * c r
                   = As * fys - pu - K * (bf - bw) * hf).
      { rewrite Ec. apply Rmult_div_cancel. lra. }
      destruct (is_less_or_equal (beta * cm) hf) eqn:Hcb.
      * exfalso.
        apply is_less_or_equal_true in Hcb.
        apply is_less_or_equal_false in Hle.
        assert (Hle' : K * bf * trial_a s As pu <= K * bf * (beta * cm))
          by (rewrite Etr; lra).
        apply Rmult_le_reg_l in Hle'; [lra|exact HKbf].
      * assert (Hle' : K * beta * bw * c r <= K * beta * bw * cm)
          by (rewrite Ew; lra).
        apply Rmult_le_reg_l in Hle'; lra.
Qed.

(** Hence the steel strain of such an analysis is not below the minimum
    allowable strain. *)
Lemma strain_below_capacity (section : BaseSection) (pu As : R)
  (cap : CapacityResult) (r : AnalysisResult) :
  Section.constructed section ->
  get_maximum_capacity const section pu = Ok cap ->
  As <= cap_as_max cap ->
  _analyze_section const section As pu 0.0 = Ok r ->
  min_allowable_tensile_strain (Section.tension_steel section)
  <= net_tensile_strain r.
Proof.
  intros Hs Hcap HAs Hr.
  pose proof (depth_below_capacity _ _ _ _ _ Hs Hcap HAs Hr) as Hc.
  pose proof (strain_at_c_max _ Hs) as Em.
  pose proof (constructed_effective_depth _ Hs) as Hd.
  pose proof (ultimate_strain_range (Section.concrete section)) as He.
  apply analyze_section_strain in Hr. destruct Hr as (Hc0 & ->).
  rewrite <- Em.
  destruct (Rle_lt_or_eq_dec _ _ Hc) as [Hlt|Heq].
  - left. apply strain_decreasing_in_depth; lra.
  - rewrite Heq. lra.
Qed.

End BelowCapacity.

(** ** What a design result records *)

Section DesignFacts.

Variable const : Constants.

Lemma find_as_for_mu_inv (section : BaseSection)
  (target_mu pu as_upper_bound v : R) :
  _find_as_for_mu const section target_mu pu as_upper_bound = Ok v ->
  0 <= target_mu /\
  _find_as_loop const section target_mu pu 100 0.0 as_upper_bound = Ok v.
Proof.
  unfold _find_as_for_mu.
  destruct (target_mu <? 0) eqn:Ht; [discriminate|].
  apply Rltb_false in Ht. auto.
Qed.

(** The area returned by the search is the upper bound it was given or
    an area whose analysis reached the target. *)
Lemma find_as_for_mu_sufficient (section : BaseSection)
  (target_mu pu as_upper_bound v : R) :
  0 <= as_upper_bound ->
  _find_as_for_mu const section target_mu pu as_upper_bound = Ok v ->
  v = as_upper_bound \/
  exists r, _analyze_section const section v pu 0.0 = Ok r /\
            target_mu <= phi_mn r.
Proof.
  intros Hub H. apply find_as_for_mu_inv in H. destruct H as [_ H].
  apply find_as_loop_post in H; [|lra]. tauto.
Qed.

Lemma find_as_for_mu_target_mono (section : BaseSection)
  (t1 t2 pu as_upper_bound v1 v2 : R) :
  t1 <= t2 -> 0 <= as_upper_bound ->
  _find_as_for_mu const section t1 pu as_upper_bound = Ok v1 ->
  _find_as_for_mu const section t2 pu as_upper_bound = Ok v2 ->
  v1 <= v2.
Proof.
  intros Ht Hub H1 H2.
  apply find_as_for_mu_inv in H1. destruct H1 as [_ H1].
  apply find_as_for_mu_inv in H2. destruct H2 as [_ H2].
  apply (find_as_loop_target_mono const section t1 t2 pu 100 Ht
           0.0 as_upper_bound); [lra|exact H1|exact H2].
Qed.

(** Every field of a design result, in terms of the calls that produced
    it. *)
Lemma design_result_fields (section : BaseSection) (mu pu : R)
  (r : DesignResult) :
  design_flexural_reinforcement const section mu pu = Ok r ->
  exists cap Mcr as_strength,
    0 <= mu /\
    get_maximum_capacity const section pu = Ok cap /\
    Section.cracking_moment section = Ok Mcr /\
    as_max r = cap_as_max cap /\
    (if MIN_FLEXURAL_STRENGTH_FACTOR const * Mcr >? 0
     then _find_as_for_mu const section
            (MIN_FLEXURAL_STRENGTH_FACTOR const * Mcr) pu (cap_as_max cap)
     else Ok 0.0) = Ok (as_min r) /\
    is_less_or_equal mu (max_phi_mn cap) = true /\
    _find_as_for_mu const section mu pu (cap_as_max cap) = Ok as_strength /\
    as_required r = Rmax as_strength (as_min r) /\
    is_min_rebar_controlled r
      = is_greater_or_equal (as_required r) (as_min r)
        && negb (is_equal (as_required r) as_strength) /\
    _analyze_section const section (as_required r) pu 0.0
      = Ok (design_analysis_result r).
Proof.
  unfold design_flexural_reinforcement. intros H.
  destruct (mu <? 0) eqn:Hmu; [discriminate|]. apply Rltb_false in Hmu.
  apply bind_Ok_inv in H. destruct H as ([] & _ & H).
  apply bind_Ok_inv in H. destruct H as (cap & Hcap & H).
  apply bind_Ok_inv in H. destruct H as (Mcr & HMcr & H).
  apply bind_Ok_inv in H. destruct H as (As_min & Hmin & H).
  destruct (is_less_or_equal mu (max_phi_mn cap)) eqn:Hle; simpl in H;
    [|discriminate].
  apply bind_Ok_inv in H. destruct H as (as_strength & Hs & H).
  apply bind_Ok_inv in H. destruct H as (res & Hres & H).
  injection H as <-. simpl.
  exists cap, Mcr, as_strength. repeat split; auto.
Qed.

(** The minimum area never exceeds the strength area when the demand is
    at least the cracking target, and conversely. *)
Lemma design_areas_ordered (section : BaseSection) (mu pu Mcr : R)
  (cap : CapacityResult) (As_min as_strength : R) :
  get_maximum_capacity const section pu = Ok cap ->
  (if MIN_FLEXURAL_STRENGTH_FACTOR const * Mcr >? 0
   then _find_as_for_mu const section
          (MIN_FLEXURAL_STRENGTH_FACTOR const * Mcr) pu (cap_as_max cap)
   else Ok 0.0) = Ok As_min ->
  _find_as_for_mu const section mu pu (cap_as_max cap) = Ok as_strength ->
  (MIN_FLEXURAL_STRENGTH_FACTOR const * Mcr <= mu -> As_min <= as_strength)
  /\
  (0 < MIN_FLEXURAL_STRENGTH_FACTOR const * Mcr ->
   mu <= MIN_FLEXURAL_STRENGTH_FACTOR const * Mcr -> as_strength <= As_min).
Proof.
  intros Hcap Hmin Hstr.
  apply get_maximum_capacity_inv in Hcap.
  destruct Hcap as (_ & _ & Hub & _).
  pose proof (find_as_for_mu_bounds const _ _ _ _ _ Hub Hstr) as Hb.
  destruct (MIN_FLEXURAL_STRENGTH_FACTOR const * Mcr >? 0) eqn:Hm.
  - apply Rltb_true in Hm. split.
    + intros Hle.
      exact (find_as_for_mu_target_mono _ _ _ _ _ _ _ Hle Hub Hmin Hstr).
    + intros _ Hle.
      exact (find_as_for_mu_target_mono _ _ _ _ _ _ _ Hle Hub Hstr Hmin).
  - apply Rltb_false in Hm. injection Hmin as <-. split; intros; lra.
Qed.

End DesignFacts.

(** ** What a check result records *)

Section CheckFacts.

Variable const : Constants.

Lemma check_section_adequacy_value (section : BaseSection)
  (as_provided mu pu Mcr : R) (a : AnalysisResult) :
  0 <= as_provided ->
  _analyze_section const section as_provided pu 0.0 = Ok a ->
  Section.cracking_moment section = Ok Mcr ->
  let s := is_greater_or_equal (phi_mn a) mu in
  let d := is_greater_or_equal (net_tensile_strain a)
             (min_allowable_tensile_strain (Section.tension_steel section)) in
  let m := is_greater_or_equal (phi_mn a)
             (MIN_FLEXURAL_STRENGTH_FACTOR const * Mcr) in
  check_section_adequacy const section as_provided mu pu
  = Ok {| is_ok := s && (d && (m && true));
          strength_ok := s; ductility_ok := d; min_rebar_ok := m;
          analysis_result := a |}.
Proof.
  intros Has Ha HMcr. unfold check_section_adequacy.
  assert (E : (as_provided <? 0) = false) by (apply Rltb_false; exact Has).
  rewrite E, Ha, bind_Ok, HMcr, bind_Ok. reflexivity.
Qed.

Lemma check_section_adequacy_fields (section : BaseSection)
  (as_provided mu pu : R) (k : CheckResult) :
  check_section_adequacy const section as_provided mu pu = Ok k ->
  exists Mcr,
    0 <= as_provided /\
    _analyze_section const section as_provided pu 0.0
      = Ok (analysis_result k) /\
    Section.cracking_moment section = Ok Mcr /\
    strength_ok k = is_greater_or_equal (phi_mn (analysis_result k)) mu /\
    ductility_ok k
      = is_greater_or_equal (net_tensile_strain (analysis_result k))
          (min_allowable_tensile_strain (Section.tension_steel section)) /\
    min_rebar_ok k
      = is_greater_or_equal (phi_mn (analysis_result k))
          (MIN_FLEXURAL_STRENGTH_FACTOR const * Mcr) /\
    is_ok k = strength_ok k && ductility_ok k && min_rebar_ok k.
Proof.
  unfold check_section_adequacy. intros H.
  destruct (as_provided <? 0) eqn:Has; [discriminate|].
  apply Rltb_false in Has.
  apply bind_Ok_inv in H. destruct H as (a & Ha & H).
  apply bind_Ok_inv in H. destruct H as (Mcr & HMcr & H).
  injection H as <-. cbn [analysis_result strength_ok ductility_ok
                            min_rebar_ok is_ok forallb].
  exists Mcr. repeat split; auto.
  rewrite andb_true_r, andb_assoc. reflexivity.
Qed.

End CheckFacts.

(** ** The rectangular beam: cracking moment and analyzability *)

Lemma sqrt_24_bounds : 4 < sqrt 24 < 5.
Proof.
  assert (E4 : sqrt (4 * 4) = 4) by (apply sqrt_square; lra).
  assert (E5 : sqrt (5 * 5) = 5) by (apply sqrt_square; lra).
  assert (H4 : sqrt (4 * 4) < sqrt 24) by (apply sqrt_lt_1; lra).
  assert (H5 : sqrt 24 < sqrt (5 * 5)) by (apply sqrt_lt_1; lra).
  lra.
Qed.

Lemma beam_section_cracking_moment :
  exists Mcr,
    Section.cracking_moment (RectangularSection Examples.beam_section)
      = Ok Mcr /\
    60e6 < Mcr < 76e6.
Proof.
  pose proof sqrt_24_bounds as Hs.
  cbn [Section.cracking_moment]. unfold Rectangular.cracking_moment.
  rewrite modulus_of_rupture_defined by (simpl; lra).
  rewrite bind_Ok.
  rewrite Rectangular_Ig_defined
    by (simpl; lra || exact beam_section_height_in_range).
  rewrite bind_Ok. cbv zeta. rewrite fdiv_ok by (simpl; lra).
  eexists. split; [reflexivity|].
  simpl. lra.
Qed.

Lemma beam_section_analyzable (const : Constants) (As : R) :
  0 < As ->
  exists r,
    _analyze_section const (RectangularSection Examples.beam_section)
      As 0 0.0 = Ok r.
Proof.
  intros HAs.
  destruct (beam_section_analysis_returns const As 0) as (r & Hr & _);
    [lra|eauto].
Qed.

(* ================================================================== *)
(** * The search for the required area *)
(* ================================================================== *)

(** X1.  What [_find_as_for_mu] returns.  When the search returns an area
    [v] from an upper bound that is not negative, the target was not
    negative; [v] is the upper bound itself or an area that the analyzer
    found sufficient for the target; and at most 1e-9 below [v], or
    exactly the upper bound divided by 2^100 below it, lies an area that
    is zero or that the analyzer found insufficient. *)
Theorem find_as_for_mu_brackets_target :
  forall (const : Constants) (section : BaseSection)
         (target_mu pu as_upper_bound v : R),
    0 <= as_upper_bound ->
    _find_as_for_mu const section target_mu pu as_upper_bound = Ok v ->
    0 <= target_mu /\
    (v = as_upper_bound \/
     exists r, _analyze_section const section v pu 0.0 = Ok r /\
               target_mu <= phi_mn r) /\
    exists lo,
      0 <= lo <= v /\
      (lo = 0 \/
       exists r, _analyze_section const section lo pu 0.0 = Ok r /\
                 phi_mn r < target_mu) /\
      (v - lo < 1e-9 \/ v - lo = as_upper_bound / 2 ^ 100).
Proof.
  intros const section target_mu pu ub v Hub H.
  apply find_as_for_mu_inv in H. destruct H as [Ht H].
  apply find_as_loop_post in H; [|lra].
  destruct H as (Hv & lo & H1 & H2 & H3 & H4).
  split; [exact Ht|]. split; [exact Hv|].
  exists lo. split; [lra|]. split.
  - destruct H3 as [H3|H3]; [left; lra|right; exact H3].
  - destruct H4 as [H4|H4]; [left; exact H4|right].
    rewrite H4. f_equal. lra.
Qed.

(** X1, witness: the search on the rectangular beam for 100 kNm below
    3000 mm2. *)
Lemma find_as_for_mu_brackets_target_witness :
  exists v,
    _find_as_for_mu kds (RectangularSection Examples.beam_section)
      100e6 0 3000 = Ok v /\
    (v = 3000 \/
     exists r,
       _analyze_section kds (RectangularSection Examples.beam_section)
         v 0 0.0 = Ok r /\ 100e6 <= phi_mn r).
Proof.
  destruct (find_as_for_mu_returns kds
              (RectangularSection Examples.beam_section) 100e6 0 3000
              (beam_section_analyzable kds)) as (v & Hv & _);
    [lra|lra|].
  exists v. split; [exact Hv|].
  assert (Hub : 0 <= 3000) by lra.
  exact (proj1 (proj2
    (find_as_for_mu_brackets_target kds _ 100e6 0 3000 v Hub Hv))).
Defined.

(** X2.  The search is monotone in its target: from the same bounds, a
    higher target never returns a smaller area.  This holds for the loop
    after any number of iterations and for [_find_as_for_mu], and it does
    not depend on the strength being monotone in the area. *)
Theorem find_as_for_mu_monotone_in_target :
  forall (const : Constants) (section : BaseSection) (t1 t2 pu : R),
    t1 <= t2 ->
    (forall (n : nat) (lo hi v1 v2 : R),
        lo <= hi ->
        _find_as_loop const section t1 pu n lo hi = Ok v1 ->
        _find_as_loop const section t2 pu n lo hi = Ok v2 ->
        v1 <= v2) /\
    (forall as_upper_bound v1 v2 : R,
        0 <= as_upper_bound ->
        _find_as_for_mu const section t1 pu as_upper_bound = Ok v1 ->
        _find_as_for_mu const section t2 pu as_upper_bound = Ok v2 ->
        v1 <= v2).
Proof.
  intros const section t1 t2 pu Ht. split.
  - intros n lo hi v1 v2 Hle H1 H2.
    exact (find_as_loop_target_mono const section t1 t2 pu n Ht
             lo hi v1 v2 Hle H1 H2).
  - intros ub v1 v2 Hub H1 H2.
    unfold _find_as_for_mu in H1, H2.
    destruct (t1 <? 0); [discriminate|].
    destruct (t2 <? 0); [discriminate|].
    assert (H0 : 0.0 <= ub) by lra.
    exact (find_as_loop_target_mono const section t1 t2 pu 100 Ht
             0.0 ub v1 v2 H0 H1 H2).
Qed.

(** X2, witness: the searches on the rectangular beam for 50 kNm and for
    100 kNm below 3000 mm2. *)
Lemma find_as_for_mu_monotone_in_target_witness :
  exists v1 v2,
    _find_as_for_mu kds (RectangularSection Examples.beam_section)
      50e6 0 3000 = Ok v1 /\
    _find_as_for_mu kds (RectangularSection Examples.beam_section)
      100e6 0 3000 = Ok v2 /\
    v1 <= v2.
Proof.
  destruct (find_as_for_mu_returns kds
              (RectangularSection Examples.beam_section) 50e6 0 3000
              (beam_section_analyzable kds)) as (v1 & Hv1 & _);
    [lra|lra|].
  destruct (find_as_for_mu_returns kds
              (RectangularSection Examples.beam_section) 100e6 0 3000
              (beam_section_analyzable kds)) as (v2 & Hv2 & _);
    [lra|lra|].
  exists v1, v2. split; [exact Hv1|]. split; [exact Hv2|].
  assert (Ht : 50e6 <= 100e6) by lra.
  assert (Hub : 0 <= 3000) by lra.
  exact (proj2 (find_as_for_mu_monotone_in_target kds _ 50e6 100e6 0 Ht)
           3000 v1 v2 Hub Hv1 Hv2).
Defined.

(* ================================================================== *)
(** * Design results *)
(* ================================================================== *)

(** X3.  When the minimum reinforcement is reported as governing.  In a
    design result the flag [is_min_rebar_controlled] is set exactly when
    the minimum area exceeds the strength area by at least the
    tolerance 1e-9 (the first test of the flag, "required is not below
    minimum", always passes).  A demand of at least the cracking target
    [MIN_FLEXURAL_STRENGTH_FACTOR * Mcr] leaves the flag unset and makes
    the required area the strength area; a set flag means that the demand
    is below the cracking target and that the required area is the
    minimum area. *)
Theorem min_rebar_flag_meaning :
  forall (const : Constants) (section : BaseSection) (mu pu : R)
         (r : DesignResult),
    design_flexural_reinforcement const section mu pu = Ok r ->
    exists Mcr as_strength,
      Section.cracking_moment section = Ok Mcr /\
      _find_as_for_mu const section mu pu (as_max r) = Ok as_strength /\
      (is_min_rebar_controlled r = true
       <-> 1e-9 <= as_min r - as_strength) /\
      (MIN_FLEXURAL_STRENGTH_FACTOR const * Mcr <= mu ->
       is_min_rebar_controlled r = false /\ as_required r = as_strength) /\
      (is_min_rebar_controlled r = true ->
       mu < MIN_FLEXURAL_STRENGTH_FACTOR const * Mcr /\
       as_required r = as_min r).
Proof.
  intros const section mu pu r H.
  apply design_result_fields in H.
  destruct H as (cap & Mcr & s & Hmu & Hcap & HMcr & Emax & Hmin & Hle
                 & Hs & Ereq & Eflag & Hres).
  pose proof (design_areas_ordered const _ _ _ _ _ _ _ Hcap Hmin Hs)
    as [Hord _].
  exists Mcr, s. rewrite Emax.
  split; [exact HMcr|]. split; [exact Hs|].
  assert (Hiff : is_min_rebar_controlled r = true
                 <-> 1e-9 <= as_min r - s).
  { rewrite Eflag, Ereq.
    unfold Rmax. destruct (Rle_dec s (as_min r)) as [Hc|Hc].
    - split.
      + intros Hb. apply andb_true_iff in Hb. destruct Hb as [_ Hb].
        apply negb_true_iff in Hb. unfold is_equal, TOLERANCE in Hb.
        apply Rltb_false in Hb.
        rewrite Rabs_right in Hb by lra. exact Hb.
      + intros Hd. apply andb_true_iff. split.
        * apply is_greater_or_equal_true. lra.
        * apply negb_true_iff. unfold is_equal, TOLERANCE.
          apply Rltb_false. rewrite Rabs_right by lra. exact Hd.
    - split.
      + intros Hb. apply andb_true_iff in Hb. destruct Hb as [_ Hb].
        apply negb_true_iff in Hb. unfold is_equal, TOLERANCE in Hb.
        apply Rltb_false in Hb.
        replace (s - s) with 0 in Hb by ring.
        rewrite Rabs_R0 in Hb. lra.
      + intros Hd. lra. }
  split; [exact Hiff|]. split.
  - intros Hge. specialize (Hord Hge). split.
    + apply not_true_is_false. intros Ef. apply Hiff in Ef. lra.
    + rewrite Ereq. apply Rmax_left. exact Hord.
  - intros Ef. apply Hiff in Ef. split.
    + apply Rnot_le_lt. intros Hge. specialize (Hord Hge). lra.
    + rewrite Ereq. apply Rmax_right. lra.
Qed.

(** X3, witness: the design of the rectangular beam for 100 kNm, which is
    above 1.2 times its cracking moment, is not governed by the minimum
    reinforcement. *)
Lemma min_rebar_flag_meaning_witness :
  exists r,
    design_flexural_reinforcement kds
      (RectangularSection Examples.beam_section) 100e6 0 = Ok r /\
    is_min_rebar_controlled r = false.
Proof.
  destruct beam_section_design_returns as [r Hr].
  exists r. split; [exact Hr|].
  destruct (min_rebar_flag_meaning kds _ 100e6 0 r Hr)
    as (Mcr & s & HMcr & _ & _ & Hge & _).
  destruct beam_section_cracking_moment as (Mcr' & HMcr' & Hb).
  rewrite HMcr' in HMcr. injection HMcr as <-.
  apply Hge. simpl. lra.
Defined.

Section RoundTrip.

Variable const : Constants.

Lemma check_or_raise_passes (section : BaseSection)
  (as_provided mu pu : R) (k : CheckResult) :
  check_section_adequacy const section as_provided mu pu = Ok k ->
  is_ok k = true ->
  check_section_adequacy_or_raise const section as_provided mu pu = Ok tt.
Proof.
  intros Hk Hok. unfold check_section_adequacy_or_raise.
  rewrite Hk, bind_Ok, Hok. reflexivity.
Qed.

(** The analysis stored in a design result reaches the demand, within the
    tolerance of the comparison. *)
Lemma designed_strength (section : BaseSection) (mu pu : R)
  (r : DesignResult) :
  design_flexural_reinforcement const section mu pu = Ok r ->
  is_greater_or_equal (phi_mn (design_analysis_result r)) mu = true.
Proof.
  intros H. apply design_result_fields in H.
  destruct H as (cap & Mcr & s & Hmu & Hcap & HMcr & Emax & Hmin & Hle
                 & Hs & Ereq & _ & Hres).
  pose proof (design_areas_ordered const _ _ _ _ _ _ _ Hcap Hmin Hs)
    as [Hord _].
  pose proof (get_maximum_capacity_inv const _ _ _ Hcap)
    as (_ & _ & Hub & Hcapa & Emaxphi).
  pose proof (find_as_for_mu_bounds const _ _ _ _ _ Hub Hs) as Hsb.
  apply is_less_or_equal_true in Hle.
  apply is_greater_or_equal_true.
  assert (Hatmax : as_required r = cap_as_max cap ->
                   phi_mn (design_analysis_result r) - mu > - 1e-9).
  { intros E. rewrite E, Hcapa in Hres. injection Hres as <-. lra. }
  destruct (Rle_dec (as_min r) s) as [Hc|Hc].
  - assert (E : as_required r = s) by (rewrite Ereq; apply Rmax_left; lra).
    destruct (find_as_for_mu_sufficient const _ _ _ _ _ Hub Hs)
      as [Ev|(a & Ha & Hsuf)].
    + apply Hatmax. lra.
    + rewrite E, Ha in Hres. injection Hres as <-. lra.
  - assert (E : as_required r = as_min r)
      by (rewrite Ereq; apply Rmax_right; lra).
    assert (Hlt : mu < MIN_FLEXURAL_STRENGTH_FACTOR const * Mcr).
    { apply Rnot_le_lt. intros Hge. specialize (Hord Hge). lra. }
    destruct (MIN_FLEXURAL_STRENGTH_FACTOR const * Mcr >? 0) eqn:Hpos.
    + destruct (find_as_for_mu_sufficient const _ _ _ _ _ Hub Hmin)
        as [Ev|(a & Ha & Hsuf)].
      * apply Hatmax. lra.
      * rewrite E, Ha in Hres. injection Hres as <-. lra.
    + injection Hmin as Hmin. lra.
Qed.

(** The required area of a design result is one the analyzer finds
    ductile. *)
Lemma designed_ductility (section : BaseSection) (mu pu : R)
  (r : DesignResult) :
  Section.constructed section ->
  design_flexural_reinforcement const section mu pu = Ok r ->
  is_greater_or_equal (net_tensile_strain (design_analysis_result r))
    (min_allowable_tensile_strain (Section.tension_steel section)) = true.
Proof.
  intros Hcons H. apply design_result_fields in H.
  destruct H as (cap & Mcr & s & Hmu & Hcap & HMcr & Emax & Hmin & Hle
                 & Hs & Ereq & _ & Hres).
  pose proof (get_maximum_capacity_inv const _ _ _ Hcap)
    as (_ & _ & Hub & _).
  pose proof (find_as_for_mu_bounds const _ _ _ _ _ Hub Hs) as Hsb.
  assert (Hmb : 0 <= as_min r <= cap_as_max cap).
  { destruct (MIN_FLEXURAL_STRENGTH_FACTOR const * Mcr >? 0).
    - exact (find_as_for_mu_bounds const _ _ _ _ _ Hub Hmin).
    - injection Hmin as Hmin. lra. }
  assert (Hreq : as_required r <= cap_as_max cap).
  { rewrite Ereq. apply Rmax_lub; lra. }
  pose proof (strain_below_capacity const _ _ _ _ _ Hcons Hcap Hreq Hres).
  apply is_greater_or_equal_true. lra.
Qed.

(** The analysis stored in a design result reaches the cracking target
    when the minimum area is below the maximum area, or when the demand
    is at least the cracking target. *)
Lemma designed_min_rebar (section : BaseSection) (mu pu Mcr : R)
  (r : DesignResult) :
  design_flexural_reinforcement const section mu pu = Ok r ->
  Section.cracking_moment section = Ok Mcr ->
  as_min r < as_max r \/ MIN_FLEXURAL_STRENGTH_FACTOR const * Mcr <= mu ->
  is_greater_or_equal (phi_mn (design_analysis_result r))
    (MIN_FLEXURAL_STRENGTH_FACTOR const * Mcr) = true.
Proof.
  intros H HMcr' Hcase.
  pose proof (designed_strength _ _ _ _ H) as Hstr.
  apply is_greater_or_equal_true in Hstr.
  apply design_result_fields in H.
  destruct H as (cap & Mcr0 & s & Hmu & Hcap & HMcr & Emax & Hmin & Hle
                 & Hs & Ereq & _ & Hres).
  rewrite HMcr' in HMcr. injection HMcr as <-.
  pose proof (design_areas_ordered const _ _ _ _ _ _ _ Hcap Hmin Hs)
    as [_ Hord].
  pose proof (get_maximum_capacity_inv const _ _ _ Hcap)
    as (_ & _ & Hub & _).
  apply is_greater_or_equal_true.
  destruct (Rle_dec (MIN_FLEXURAL_STRENGTH_FACTOR const * Mcr) mu)
    as [Hge|Hlt]; [lra|].
  destruct Hcase as [Hcase|Hcase]; [|lra].
  assert (Hpos : 0 < MIN_FLEXURAL_STRENGTH_FACTOR const * Mcr) by lra.
  assert (E : as_required r = as_min r).
  { rewrite Ereq. apply Rmax_right. apply Hord; lra. }
  assert (Hb : (MIN_FLEXURAL_STRENGTH_FACTOR const * Mcr >? 0) = true)
    by (apply Rltb_true; exact Hpos).
  rewrite Hb in Hmin.
  destruct (find_as_for_mu_sufficient const _ _ _ _ _ Hub Hmin)
    as [Ev|(a & Ha & Hsuf)].
  - lra.
  - rewrite E, Ha in Hres. injection Hres as <-. lra.
Qed.

End RoundTrip.

(** X4.  A design passes its own check.  When
    [design_flexural_reinforcement] returns a result for a constructed
    section, [check_section_adequacy] called with the required area and
    the same loads returns a result that carries the same analysis, with
    the strength check and the ductility check passed.  The minimum
    reinforcement check is passed as well, and
    [check_section_adequacy_or_raise] returns without raising, when the
    minimum area is below the maximum area or the demand is at least the
    cracking target. *)
Theorem designed_area_passes_check :
  forall (const : Constants) (section : BaseSection) (mu pu : R)
         (r : DesignResult),
    Section.constructed section ->
    design_flexural_reinforcement const section mu pu = Ok r ->
    exists (k : CheckResult) (Mcr : R),
      check_section_adequacy const section (as_required r) mu pu = Ok k /\
      Section.cracking_moment section = Ok Mcr /\
      analysis_result k = design_analysis_result r /\
      strength_ok k = true /\
      ductility_ok k = true /\
      (as_min r < as_max r \/
       MIN_FLEXURAL_STRENGTH_FACTOR const * Mcr <= mu ->
       min_rebar_ok k = true /\
       is_ok k = true /\
       check_section_adequacy_or_raise const section (as_required r) mu pu
         = Ok tt).
Proof.
  intros const section mu pu r Hcons H.
  pose proof (designed_strength const _ _ _ _ H) as Hstr.
  pose proof (designed_ductility const _ _ _ _ Hcons H) as Hduc.
  pose proof (design_result_fields const _ _ _ _ H)
    as (cap & Mcr & s & Hmu & Hcap & HMcr & Emax & Hmin & Hle
        & Hs & Ereq & _ & Hres).
  pose proof (get_maximum_capacity_inv const _ _ _ Hcap)
    as (_ & _ & Hub & _).
  pose proof (find_as_for_mu_bounds const _ _ _ _ _ Hub Hs) as Hsb.
  assert (Hreq : 0 <= as_required r).
  { rewrite Ereq. pose proof (Rmax_l s (as_min r)). lra. }
  pose proof (check_section_adequacy_value const section (as_required r)
                mu pu Mcr _ Hreq Hres HMcr) as Hk.
  cbv zeta in Hk. rewrite Hstr, Hduc in Hk.
  eexists. exists Mcr. split; [exact Hk|].
  cbn [analysis_result strength_ok ductility_ok min_rebar_ok is_ok].
  split; [exact HMcr|]. repeat split.
  - exact (designed_min_rebar const _ _ _ _ _ H HMcr H0).
  - rewrite (designed_min_rebar const _ _ _ _ _ H HMcr H0). reflexivity.
  - apply (check_or_raise_passes const _ _ _ _ _ Hk).
    cbn [is_ok].
    rewrite (designed_min_rebar const _ _ _ _ _ H HMcr H0). reflexivity.
Qed.

(** X4, witness: the required area designed for the rectangular beam under
    100 kNm passes [check_section_adequacy_or_raise]. *)
Lemma designed_area_passes_check_witness :
  exists r,
    design_flexural_reinforcement kds
      (RectangularSection Examples.beam_section) 100e6 0 = Ok r /\
    check_section_adequacy_or_raise kds
      (RectangularSection Examples.beam_section) (as_required r) 100e6 0
    = Ok tt.
Proof.
  destruct beam_section_design_returns as [r Hr].
  exists r. split; [exact Hr|].
  destruct (designed_area_passes_check kds _ 100e6 0 r
              beam_section_constructed Hr)
    as (k & Mcr & _ & HMcr & _ & _ & _ & Hpass).
  destruct beam_section_cracking_moment as (Mcr' & HMcr' & Hb).
  rewrite HMcr' in HMcr. injection HMcr as <-.
  apply Hpass. right. simpl. lra.
Defined.

(** X5.  No ductility failure below the maximum area.  For a constructed
    section whose maximum capacity is defined, every provided area that
    does not exceed [As_max] passes the ductility check of
    [check_section_adequacy], and [check_section_adequacy_or_raise]
    never raises [DuctilityError] for it. *)
Theorem no_ductility_failure_below_maximum_area :
  forall (const : Constants) (section : BaseSection)
         (as_provided mu pu : R) (cap : CapacityResult),
    Section.constructed section ->
    get_maximum_capacity const section pu = Ok cap ->
    as_provided <= cap_as_max cap ->
    (forall k,
        check_section_adequacy const section as_provided mu pu = Ok k ->
        min_allowable_tensile_strain (Section.tension_steel section)
        <= net_tensile_strain (analysis_result k) /\
        ductility_ok k = true) /\
    (forall et et_min,
        check_section_adequacy_or_raise const section as_provided mu pu
        <> Raise (DuctilityError et et_min)).
Proof.
  intros const section as_provided mu pu cap Hcons Hcap Hle.
  assert (Hduct : forall k,
             check_section_adequacy const section as_provided mu pu = Ok k ->
             min_allowable_tensile_strain (Section.tension_steel section)
             <= net_tensile_strain (analysis_result k) /\
             ductility_ok k = true).
  { intros k Hk. apply check_section_adequacy_fields in Hk.
    destruct Hk as (Mcr & _ & Ha & _ & _ & Ed & _).
    pose proof (strain_below_capacity const _ _ _ _ _ Hcons Hcap Hle Ha)
      as Hs.
    split; [exact Hs|]. rewrite Ed. apply is_greater_or_equal_true. lra. }
  split; [exact Hduct|].
  intros et et_min Hraise.
  unfold check_section_adequacy_or_raise in Hraise.
  apply bind_Raise_inv in Hraise.
  destruct Hraise as [Hraise|(k & Hk & Hraise)].
  - unfold check_section_adequacy in Hraise.
    destruct (as_provided <? 0); [discriminate|].
    apply bind_Raise_inv in Hraise.
    destruct Hraise as [Hraise|(a & Ha & Hraise)].
    + apply analyze_section_raises in Hraise. exact Hraise.
    + apply bind_Raise_inv in Hraise.
      destruct Hraise as [Hraise|(Mcr & _ & Hraise)]; [|discriminate].
      destruct (cracking_moment_raises _ _ Hcons Hraise)
        as [[He _]|[He _]]; discriminate.
  - destruct (Hduct k Hk) as [_ Ed]. rewrite Ed in Hraise.
    destruct (is_ok k); [discriminate|]. simpl in Hraise.
    destruct (strength_ok k); simpl in Hraise; [|discriminate].
    destruct (min_rebar_ok k); simpl in Hraise; [discriminate|].
    apply bind_Raise_inv in Hraise.
    destruct Hraise as [Hraise|(Mcr & _ & Hraise)]; [|discriminate].
    apply check_section_adequacy_fields in Hk.
    destruct Hk as (Mcr & _ & _ & HMcr & _). congruence.
Qed.

(** X5, witness: 2000 mm2 in the rectangular beam, below its maximum
    area, pass the ductility check. *)
Lemma no_ductility_failure_below_maximum_area_witness :
  exists k,
    check_section_adequacy kds (RectangularSection Examples.beam_section)
      2000 100e6 0 = Ok k /\
    ductility_ok k = true.
Proof.
  destruct beam_section_capacity_values as (cap & Hcap & HAs & _).
  assert (Hle : 2000 <= cap_as_max cap) by lra.
  destruct (beam_section_analyzable kds 2000) as [a Ha]; [lra|].
  destruct beam_section_cracking_moment as (Mcr & HMcr & _).
  assert (H0 : 0 <= 2000) by lra.
  pose proof (check_section_adequacy_value kds _ 2000 100e6 0 Mcr a
                H0 Ha HMcr) as Hk.
  cbv zeta in Hk.
  eexists. split; [exact Hk|].
  exact (proj2 (proj1 (no_ductility_failure_below_maximum_area kds _
                         2000 100e6 0 cap beam_section_constructed
                         Hcap Hle) _ Hk)).
Defined.

(* ================================================================== *)
(** * How the operations fail *)
(* ================================================================== *)

Section Failures.

Variable const : Constants.

Lemma check_axial_load_limit_raises (section : BaseSection) (pu : R)
  (e : exn) :
  _check_axial_load_limit const section pu = Raise e ->
  is_SectionCapacityError e.
Proof.
  intros H.
  destruct (check_axial_load_limit_cases const section pu)
    as [(_ & _ & E)|(_ & E)]; rewrite E in H.
  - injection H as <-. exact I.
  - discriminate.
Qed.

Lemma get_maximum_capacity_raises (section : BaseSection) (pu : R)
  (e : exn) :
  get_maximum_capacity const section pu = Raise e ->
  is_SectionCapacityError e.
Proof.
  rewrite get_maximum_capacity_unfold. intros H.
  apply bind_Raise_inv in H. destruct H as [H|([] & _ & H)].
  - exact (check_axial_load_limit_raises _ _ _ H).
  - cbv zeta in H.
    destruct ((Cc_max section + pu) / fy (Section.tension_steel section)
              <? 0).
    + injection H as <-. exact I.
    + apply bind_Raise_inv in H.
      destruct H as [H|(a & _ & H)]; [|discriminate].
      exact (analyze_section_raises const _ _ _ _ H).
Qed.



End Failures.

(** X6.  How [get_maximum_capacity] fails.  A compression above the axial
    limit raises the axial-limit error; otherwise a negative [As_max]
    (a tension larger than the balanced concrete force) raises the
    "tension too large" error; otherwise the call fails exactly as the
    analysis at [As_max] fails.  Whatever it raises is a
    [SectionCapacityError]: neither of its two divisions can divide by
    zero, for any section. *)
Theorem get_maximum_capacity_failures :
  forall (const : Constants) (section : BaseSection) (pu : R),
    let limit := _get_max_axial_capacity const section 0.01 in
    let As_max :=
      (Cc_max section + pu) / fy (Section.tension_steel section) in
    (0 < pu /\ limit < pu ->
     get_maximum_capacity const section pu
     = Raise (SectionCapacityError (AxialLoadExceeded pu limit))) /\
    (pu <= 0 \/ pu <= limit ->
     (As_max < 0 ->
      get_maximum_capacity const section pu
      = Raise (SectionCapacityError TensionTooLarge)) /\
     (0 <= As_max ->
      forall e,
        _analyze_section const section As_max pu 0.0 = Raise e ->
        get_maximum_capacity const section pu = Raise e)) /\
    (forall e,
        get_maximum_capacity const section pu = Raise e ->
        is_SectionCapacityError e).
Proof.
  intros const section pu limit As_max.
  split; [|split].
  - intros [Hpos Hlim].
    rewrite get_maximum_capacity_unfold.
    destruct (check_axial_load_limit_cases const section pu)
      as [(_ & _ & E)|([Hc|Hc] & _)].
    + rewrite E. reflexivity.
    + lra.
    + fold limit in Hc. lra.
  - intros Hpass.
    assert (E : _check_axial_load_limit const section pu = Ok tt).
    { destruct (check_axial_load_limit_cases const section pu)
        as [(H1 & H2 & _)|(_ & E)]; [|exact E].
      fold limit in H2. lra. }
    rewrite get_maximum_capacity_unfold, E, bind_Ok. cbv zeta.
    fold As_max. split.
    + intros Hneg.
      assert (Eb : (As_max <? 0) = true) by (apply Rltb_true; exact Hneg).
      rewrite Eb. reflexivity.
    + intros Hnn e He.
      assert (Eb : (As_max <? 0) = false) by (apply Rltb_false; exact Hnn).
      rewrite Eb, He. reflexivity.
  - intros e He. exact (get_maximum_capacity_raises const _ _ _ He).
Qed.

(** X6, witness: 4000 kN of compression on the rectangular beam, above
    its axial limit of 3019.66 kN. *)
Lemma get_maximum_capacity_failures_witness :
  get_maximum_capacity kds (RectangularSection Examples.beam_section)
    4000000
  = Raise (SectionCapacityError
             (AxialLoadExceeded 4000000
                (_get_max_axial_capacity kds
                   (RectangularSection Examples.beam_section) 0.01))).
Proof.
  apply (proj1 (get_maximum_capacity_failures kds
                  (RectangularSection Examples.beam_section) 4000000)).
  rewrite beam_section_axial_capacity. split; lra.
Defined.



(** X8.  The order in which [check_section_adequacy_or_raise] reports.
    An exception of [check_section_adequacy] passes through unchanged.
    When the check returns a report, the call returns without raising
    exactly when [is_ok] holds; otherwise a failed ductility check raises
    [DuctilityError] whatever the other two checks say, a failed strength
    check raises [SectionCapacityError] only when the ductility check
    passed, and a failed minimum-reinforcement check raises
    [MinReinforcementError], carrying the cracking target, only when the
    other two passed. *)
Theorem check_or_raise_reports_first_failure :
  forall (const : Constants) (section : BaseSection)
         (as_provided mu pu : R),
    let call :=
      check_section_adequacy_or_raise const section as_provided mu pu in
    (forall e,
        check_section_adequacy const section as_provided mu pu = Raise e ->
        call = Raise e) /\
    (forall k,
        check_section_adequacy const section as_provided mu pu = Ok k ->
        (call = Ok tt <-> is_ok k = true) /\
        (ductility_ok k = false ->
         call = Raise (DuctilityError
                         (net_tensile_strain (analysis_result k))
                         (min_allowable_tensile_strain
                            (Section.tension_steel section)))) /\
        (ductility_ok k = true -> strength_ok k = false ->
         call = Raise (SectionCapacityError
                         (StrengthInsufficient
                            (phi_mn (analysis_result k)) mu))) /\
        (ductility_ok k = true -> strength_ok k = true ->
         min_rebar_ok k = false ->
         exists Mcr,
           Section.cracking_moment section = Ok Mcr /\
           call = Raise (MinReinforcementError
                           (phi_mn (analysis_result k))
                           (MIN_FLEXURAL_STRENGTH_FACTOR const * Mcr)))).
Proof.
  intros const section as_provided mu pu call. split.
  - intros e He. unfold call, check_section_adequacy_or_raise.
    rewrite He. reflexivity.
  - intros k Hk.
    pose proof (check_section_adequacy_fields const _ _ _ _ _ Hk)
      as (Mcr & _ & _ & HMcr & _ & _ & _ & Eok).
    unfold call, check_section_adequacy_or_raise.
    rewrite Hk, bind_Ok, Eok.
    destruct (ductility_ok k), (strength_ok k), (min_rebar_ok k);
      cbn [andb negb]; rewrite ?HMcr, ?bind_Ok;
      (split; [split; [auto; discriminate|auto; discriminate]|]);
      (split; [intros; (reflexivity || discriminate)|]);
      (split; [intros; (reflexivity || discriminate)|]);
      intros; try discriminate; exists Mcr; auto.
Qed.

(** X8, witness: 2000 mm2 in the rectangular beam under 100 kNm. *)
Lemma check_or_raise_reports_first_failure_witness :
  exists k,
    check_section_adequacy kds (RectangularSection Examples.beam_section)
      2000 100e6 0 = Ok k /\
    (check_section_adequacy_or_raise kds
       (RectangularSection Examples.beam_section) 2000 100e6 0 = Ok tt
     <-> is_ok k = true).
Proof.
  destruct (beam_section_analyzable kds 2000) as [a Ha]; [lra|].
  destruct beam_section_cracking_moment as (Mcr & HMcr & _).
  assert (H0 : 0 <= 2000) by lra.
  pose proof (check_section_adequacy_value kds _ 2000 100e6 0 Mcr a
                H0 Ha HMcr) as Hk.
  cbv zeta in Hk.
  eexists. split; [exact Hk|].
  exact (proj1 (proj2 (check_or_raise_reports_first_failure kds _
                         2000 100e6 0) _ Hk)).
Defined.

(* ================================================================== *)
(** * A T-section no wider than its web *)
(* ================================================================== *)

Section EqualWidths.

Variable const : Constants.





End EqualWidths.

Section EqualOperations.

Variable const : Constants.



Variable t : TShape.TSection.
Hypothesis Hbf : TShape.flange_width t = TShape.web_width t.
Hypothesis Hden :
  1e-9 <= Rabs (eta (TShape.concrete t) * 0.85 * fck (TShape.concrete t)
                * beta1 (TShape.concrete t) * TShape.web_width t).
Hypothesis Hpost : TShape.post_init t = Ok tt.
Hypothesis Hrange : TShape.height t ^ 3 <= FLOAT_MAX.








End EqualOperations.






(* ================================================================== *)
(** * Section geometry *)
(* ================================================================== *)





(* ================================================================== *)
(** * Materials and comparisons *)
(* ================================================================== *)

(** X13.  The stress-block factors fall with the concrete strength.  The
    three piecewise definitions [beta1], [eta] and [ultimate_strain] have
    no upward step at their break points: a concrete of higher [fck]
    never has a larger factor. *)
Theorem concrete_factors_non_increasing :
  forall c1 c2 : Concrete,
    fck c1 <= fck c2 ->
    beta1 c2 <= beta1 c1 /\
    eta c2 <= eta c1 /\
    ultimate_strain c2 <= ultimate_strain c1.
Proof.
  intros c1 c2 Hle.
  unfold beta1, eta, ultimate_strain, Rmax.
  repeat split; rdec; lra.
Qed.

(** X13, witness: C24 against C30. *)
Lemma concrete_factors_non_increasing_witness :
  beta1 Examples.c30_material <= beta1 Examples.c24_material.
Proof.
  assert (Hle : fck Examples.c24_material <= fck Examples.c30_material)
    by (simpl; lra).
  exact (proj1 (concrete_factors_non_increasing
                  Examples.c24_material Examples.c30_material Hle)).
Defined.

(** X14.  The mean compressive strength [fcm] exceeds [fck] by 4 to
    6 MPa, and it is strictly increasing in [fck]: the three pieces join
    without a step at 40 and at 60 MPa. *)
Theorem fcm_increasing :
  forall c1 c2 : Concrete,
    fck c1 + 4 <= fcm c1 <= fck c1 + 6 /\
    (fck c1 < fck c2 -> fcm c1 < fcm c2).
Proof.
  intros c1 c2. unfold fcm. repeat split; rdec; intros; lra.
Qed.

(** X14, witness: C24 against C30. *)
Lemma fcm_increasing_witness :
  fcm Examples.c24_material < fcm Examples.c30_material.
Proof.
  apply (proj2 (fcm_increasing
                  Examples.c24_material Examples.c30_material)).
  simpl. lra.
Defined.

(** X15.  The steel at the ductility limit.  [Steel.__post_init__] never
    raises for a grade of the table (its test on 600 MPa cannot fire);
    the minimum allowable strain lies strictly between the
    compression-controlled and the tension-controlled limits; so a
    section strained exactly to the minimum is in the transition zone,
    and [_calculate_phi] returns a factor strictly between the two code
    constants: the compression constant plus two thirds of the
    difference for a steel above 400 MPa. *)
Theorem phi_at_minimum_allowable_strain :
  forall (const : Constants) (steel : Steel),
    PHI_COMPRESSION_CONTROLLED_TIED const < PHI_TENSION_CONTROLLED const ->
    Steel_post_init steel = Ok tt /\
    compression_controlled_limit_strain steel
      < min_allowable_tensile_strain steel
      < tension_controlled_limit_strain steel /\
    exists p,
      _calculate_phi const steel (min_allowable_tensile_strain steel)
        = Ok p /\
      PHI_COMPRESSION_CONTROLLED_TIED const < p
        < PHI_TENSION_CONTROLLED const /\
      (400 < fy steel ->
       p = PHI_COMPRESSION_CONTROLLED_TIED const
           + (PHI_TENSION_CONTROLLED const
              - PHI_COMPRESSION_CONTROLLED_TIED const) * (2 / 3)).
Proof.
  intros const steel Hphi.
  pose proof (steel_limit_strains steel) as (Hccl & H1 & H2 & H3 & Hmin).
  pose proof (fy_pos steel) as Hfy.
  split; [|split; [lra|]].
  - unfold Steel_post_init.
    assert (E : (fy steel >? 600) = false) by (apply Rltb_false; lra).
    rewrite E. reflexivity.
  - destruct (calculate_phi_cases const steel
                (min_allowable_tensile_strain steel))
      as [[Hc _]|[[Hc _]|(_ & _ & Ep)]]; [lra|lra|].
    eexists. split; [exact Ep|].
    set (x := min_allowable_tensile_strain steel
              - compression_controlled_limit_strain steel) in *.
    set (D := tension_controlled_limit_strain steel
              - compression_controlled_limit_strain steel) in *.
    set (W := PHI_TENSION_CONTROLLED const
              - PHI_COMPRESSION_CONTROLLED_TIED const) in *.
    assert (HW : 0 < W) by (unfold W; lra).
    assert (HD : 0 < D) by lra.
    assert (Hx : 0 < x < D) by (unfold x, D; lra).
    assert (Hq : 0 < W * x / D < W).
    { split.
      - apply Rdiv_lt_0_compat; [apply Rmult_lt_0_compat; lra|exact HD].
      - apply (Rmult_lt_reg_r D); [exact HD|].
        replace (W * x / D * D) with (W * x) by (field; lra).
        apply Rmult_lt_compat_l; lra. }
    split; [unfold W in *; lra|].
    intros Hhigh.
    destruct (steel_strains_high steel Hhigh) as (E1 & E2 & E3).
    f_equal. unfold x, D. rewrite E1, E2, E3.
    set (y := fy steel / 200000).
    assert (Hy : 0 < y) by (unfold y; lra).
    replace (2.0 * y - y) with y by lra.
    replace (2.5 * y - y) with (3 / 2 * y) by lra.
    field. lra.
Qed.

(** X15, witness: SD400 steel with the factors 0.65 and 0.85. *)
Lemma phi_at_minimum_allowable_strain_witness :
  exists p,
    _calculate_phi kds Examples.s400_material
      (min_allowable_tensile_strain Examples.s400_material) = Ok p /\
    0.65 < p < 0.85.
Proof.
  assert (Hphi : PHI_COMPRESSION_CONTROLLED_TIED kds
                 < PHI_TENSION_CONTROLLED kds) by (simpl; lra).
  destruct (phi_at_minimum_allowable_strain kds Examples.s400_material Hphi)
    as (_ & _ & p & Ep & Hp & _).
  exists p. split; [exact Ep|exact Hp].
Defined.

(** X16.  The three tolerant comparisons of [core/helpers.py] are
    consistent with each other: [is_equal] is the conjunction of the
    other two and is symmetric, [is_greater_or_equal a b] is
    [is_less_or_equal b a], any two numbers are related one way or the
    other, and the true order and the true equality are accepted. *)
Theorem tolerant_comparisons_consistent :
  forall a b : R,
    is_equal a b = is_greater_or_equal a b && is_less_or_equal a b /\
    is_equal a b = is_equal b a /\
    is_greater_or_equal a b = is_less_or_equal b a /\
    is_greater_or_equal a b || is_less_or_equal a b = true /\
    is_equal a a = true /\
    (a <= b -> is_less_or_equal a b = true) /\
    (a < b - 1e-9 -> is_greater_or_equal a b = false).
Proof.
  intros a b.
  assert (Ha : Rabs (a - b) = Rabs (b - a)) by apply Rabs_minus_sym.
  assert (H0 : Rabs (a - a) = 0)
    by (replace (a - a) with 0 by ring; apply Rabs_R0).
  unfold is_equal. rewrite Ha, H0.
  unfold is_greater_or_equal, is_less_or_equal, TOLERANCE,
    Rgtb, Rltb.
  unfold Rabs. destruct (Rcase_abs (b - a));
    repeat match goal with
      | |- context [Rlt_dec ?x ?y] => destruct (Rlt_dec x y)
      end;
    repeat split; try reflexivity; intros; try lra.
Qed.

(** X16, witness: 1 against 2. *)
Lemma tolerant_comparisons_consistent_witness :
  is_less_or_equal 1 2 = true.
Proof.
  apply (proj1 (proj2 (proj2 (proj2 (proj2 (proj2
           (tolerant_comparisons_consistent 1 2))))))).
  lra.
Defined.

(* ================================================================== *)
(** * The bar table and the selector *)
(* ================================================================== *)

Lemma float_of_int_ok (z : Z) :
  Rabs (IZR z) <= FLOAT_MAX -> float_of_int z = Ok (IZR z).
Proof.
  intros H. unfold float_of_int.
  assert (E : (Rabs (IZR z) >? FLOAT_MAX) = false)
    by (apply Rltb_false; exact H).
  now rewrite E.
Qed.

Lemma float_of_int_inv (z : Z) (x : R) :
  float_of_int z = Ok x -> x = IZR z /\ Rabs (IZR z) <= FLOAT_MAX.
Proof.
  unfold float_of_int.
  destruct (Rabs (IZR z) >? FLOAT_MAX) eqn:E; [discriminate|].
  apply Rltb_false in E. intros [= <-]. auto.
Qed.

Lemma float_of_int_raises (z : Z) (e : exn) :
  float_of_int z = Raise e ->
  e = OverflowError /\ FLOAT_MAX < Rabs (IZR z).
Proof.
  unfold float_of_int.
  destruct (Rabs (IZR z) >? FLOAT_MAX) eqn:E; [|discriminate].
  apply Rltb_true in E. intros [= <-]. auto.
Qed.

Lemma fdiv_raises (a b : R) (e : exn) :
  fdiv a b = Raise e -> e = ZeroDivisionError /\ b = 0.
Proof.
  unfold fdiv. destruct (Req_dec_T b 0); [|discriminate].
  intros [= <-]. auto.
Qed.

Lemma fdiv_inv (a b x : R) : fdiv a b = Ok x -> b <> 0 /\ x = a / b.
Proof.
  unfold fdiv. destruct (Req_dec_T b 0); [discriminate|].
  intros [= <-]. auto.
Qed.

Lemma rebar_areas_range (b : Bars.BarSize) :
  71.33 <= Bars._REBAR_AREAS b <= 1140.
Proof. destruct b; simpl; lra. Qed.

Lemma nominal_range (b : Bars.BarSize) : (10 <= Bars.nominal b <= 38)%Z.
Proof. destruct b; simpl; lia. Qed.

Lemma bar_size_nominal (b : Bars.BarSize) :
  Bars.bar_size (Bars.nominal b) = Some b.
Proof. destruct b; reflexivity. Qed.

Lemma bar_size_some (dia : Z) (b : Bars.BarSize) :
  Bars.bar_size dia = Some b -> Bars.nominal b = dia.
Proof.
  unfold Bars.bar_size. intros H. apply find_some in H.
  destruct H as [_ H]. apply Z.eqb_eq in H. exact H.
Qed.

Lemma nominal_injective (b1 b2 : Bars.BarSize) :
  Bars.nominal b1 = Bars.nominal b2 -> b1 = b2.
Proof.
  intros H. pose proof (bar_size_nominal b1) as H1.
  rewrite H, bar_size_nominal in H1. congruence.
Qed.

Lemma rebar_areas_increasing (b1 b2 : Bars.BarSize) :
  (Bars.nominal b1 < Bars.nominal b2)%Z ->
  Bars._REBAR_AREAS b1 < Bars._REBAR_AREAS b2.
Proof. destruct b1, b2; simpl; intros H; try lia; lra. Qed.

(** [find] returns the first element that passes the test. *)
Lemma find_first {A : Type} (f : A -> bool) (l : list A) (x : A) :
  find f l = Some x ->
  f x = true /\
  exists l1 l2, l = l1 ++ x :: l2 /\ forall y, In y l1 -> f y = false.
Proof.
  induction l as [|a l IH]; simpl; [discriminate|].
  destruct (f a) eqn:Ea.
  - intros [= <-]. split; [exact Ea|].
    exists [], l. split; [reflexivity|]. intros y [].
  - intros H. destruct (IH H) as (Hx & l1 & l2 & El & Hl1).
    split; [exact Hx|].
    exists (a :: l1), l2. split; [rewrite El; reflexivity|].
    intros y [<-|Hy]; [exact Ea|exact (Hl1 y Hy)].
Qed.

Lemma find_none_all {A : Type} (f : A -> bool) (l : list A) :
  find f l = None -> forall y, In y l -> f y = false.
Proof. intros H y Hy. exact (find_none f l H y Hy). Qed.

Section SelectorFacts.

Import Selector.

Variable self : RebarSelector.
Variable as_required_pm : R.

Lemma option_for_spacing_some (s : Z) (o : SelectedOption) :
  option_for_spacing self as_required_pm s = Ok (Some o) ->
  spacing o = s /\ s <> 0%Z /\ as_required_pm <> 0 /\
  Rabs (IZR s) <= FLOAT_MAX /\
  exists d l1 l2,
    available_diameters self = l1 ++ d :: l2 /\
    (forall d', In d' l1 ->
       Bars._REBAR_AREAS d' < as_required_pm * (IZR s / 1000.0)) /\
    as_required_pm * (IZR s / 1000.0) <= Bars._REBAR_AREAS d /\
    diameter o = Bars.nominal d /\
    as_provided_per_meter o = Bars._REBAR_AREAS d * (1000 / IZR s) /\
    efficiency o = as_provided_per_meter o / as_required_pm.
Proof.
  unfold option_for_spacing. intros H.
  apply bind_Ok_inv in H. destruct H as (x & Hx & H).
  apply float_of_int_inv in Hx. destruct Hx as [-> Hrange].
  cbv zeta in H.
  destruct (best_dia_for_spacing self _) as [d|] eqn:Hd.
  2: { injection H as H. discriminate. }
  apply bind_Ok_inv in H. destruct H as (q & Hq & H).
  apply fdiv_inv in Hq. destruct Hq as [Hs0 ->].
  apply bind_Ok_inv in H. destruct H as (eff & He & H).
  apply fdiv_inv in He. destruct He as [Hr0 ->].
  injection H as <-. cbn [spacing diameter as_provided_per_meter efficiency].
  split; [reflexivity|]. split.
  { intros ->. apply Hs0. reflexivity. }
  split; [exact Hr0|]. split; [exact Hrange|].
  unfold best_dia_for_spacing in Hd. apply find_first in Hd.
  destruct Hd as (Hok & l1 & l2 & El & Hl1).
  exists d, l1, l2. split; [exact El|]. split.
  { intros d' Hd'. apply Hl1 in Hd'. apply Rleb_false in Hd'. exact Hd'. }
  split; [apply Rleb_true in Hok; exact Hok|].
  repeat split.
Qed.

Lemma option_for_spacing_none (s : Z) :
  option_for_spacing self as_required_pm s = Ok None ->
  forall d, In d (available_diameters self) ->
    Bars._REBAR_AREAS d < as_required_pm * (IZR s / 1000.0).
Proof.
  unfold option_for_spacing. intros H.
  apply bind_Ok_inv in H. destruct H as (x & Hx & H).
  apply float_of_int_inv in Hx. destruct Hx as [-> _].
  cbv zeta in H.
  destruct (best_dia_for_spacing self _) as [d|] eqn:Hd.
  - apply bind_Ok_inv in H. destruct H as (q & _ & H).
    apply bind_Ok_inv in H. destruct H as (eff & _ & H). discriminate.
  - intros d Hin. unfold best_dia_for_spacing in Hd.
    pose proof (find_none_all _ _ Hd d Hin) as Hf.
    apply Rleb_false in Hf. exact Hf.
Qed.

(** With a spacing that is not zero and is within the range of a float,
    and a requirement that is not zero, the loop body returns. *)
Lemma option_for_spacing_returns (s : Z) :
  s <> 0%Z -> Rabs (IZR s) <= FLOAT_MAX -> as_required_pm <> 0 ->
  exists o, option_for_spacing self as_required_pm s = Ok o.
Proof.
  intros Hs Hrange Hr. unfold option_for_spacing.
  rewrite float_of_int_ok, bind_Ok by exact Hrange. cbv zeta.
  destruct (best_dia_for_spacing self _); [|eauto].
  assert (Hs0 : IZR s <> 0).
  { intros E. apply Hs. apply eq_IZR. exact E. }
  rewrite fdiv_ok, bind_Ok by exact Hs0.
  rewrite fdiv_ok, bind_Ok by exact Hr. eauto.
Qed.

(** With a spacing of zero, a positive requirement and a diameter at
    hand, the loop body divides by zero. *)
Lemma option_for_spacing_zero :
  0 < as_required_pm -> available_diameters self <> [] ->
  option_for_spacing self as_required_pm 0 = Raise ZeroDivisionError.
Proof.
  intros Hr Hne. unfold option_for_spacing.
  rewrite float_of_int_ok, bind_Ok.
  2: { pose proof FLOAT_MAX_large. rewrite Rabs_R0. lra. }
  cbv zeta. unfold best_dia_for_spacing.
  destruct (available_diameters self) as [|d l]; [contradiction|].
  simpl find.
  assert (E : (Bars._REBAR_AREAS d >=? as_required_pm * (0 / 1000.0))
              = true).
  { apply Rleb_true. pose proof (rebar_areas_range d). lra. }
  rewrite E. rewrite fdiv_by_zero by reflexivity. reflexivity.
Qed.

Lemma collect_options_inv :
  forall (spacings : list Z) (acc out : list SelectedOption),
    collect_options self as_required_pm spacings acc = Ok out ->
    exists new,
      out = acc ++ new /\
      (length new <= length spacings)%nat /\
      forall o, In o new ->
        In (spacing o) spacings /\
        option_for_spacing self as_required_pm (spacing o) = Ok (Some o).
Proof.
  induction spacings as [|s rest IH]; intros acc out; simpl.
  - intros [= <-]. exists []. split; [now rewrite app_nil_r|].
    split; [apply le_n|]. intros o [].
  - intros H. apply bind_Ok_inv in H. destruct H as (o & Ho & H).
    apply IH in H. destruct H as (new & -> & Hlen & Hnew).
    destruct o as [opt|].
    + exists (opt :: new). split; [now rewrite <- app_assoc|].
      split; [simpl; lia|].
      intros o [<-|Hin].
      * destruct (option_for_spacing_some s opt Ho) as (Es & _).
        rewrite Es. split; [left; reflexivity|exact Ho].
      * destruct (Hnew o Hin) as [H1 H2]. split; [right; exact H1|exact H2].
    + exists new. split; [reflexivity|]. split; [lia|].
      intros o Hin. destruct (Hnew o Hin) as [H1 H2].
      split; [right; exact H1|exact H2].
Qed.

Lemma collect_options_returns :
  as_required_pm <> 0 ->
  forall (spacings : list Z) (acc : list SelectedOption),
    (forall s, In s spacings -> s <> 0%Z /\ Rabs (IZR s) <= FLOAT_MAX) ->
    exists out, collect_options self as_required_pm spacings acc = Ok out.
Proof.
  intros Hr. induction spacings as [|s rest IH]; intros acc Hall; simpl.
  - eauto.
  - destruct (Hall s (or_introl eq_refl)) as [Hs Hrange].
    destruct (option_for_spacing_returns s Hs Hrange Hr) as [o Ho].
    rewrite Ho, bind_Ok. apply IH.
    intros s' Hs'. apply Hall. right. exact Hs'.
Qed.

Lemma collect_options_zero :
  0 < as_required_pm -> available_diameters self <> [] ->
  forall (spacings : list Z) (acc : list SelectedOption),
    (forall s, In s spacings -> Rabs (IZR s) <= FLOAT_MAX) ->
    In 0%Z spacings ->
    collect_options self as_required_pm spacings acc
    = Raise ZeroDivisionError.
Proof.
  intros Hr Hne.
  induction spacings as [|s rest IH]; intros acc Hall Hin; simpl.
  - destruct Hin.
  - destruct (Z.eq_dec s 0) as [->|Hs].
    + rewrite (option_for_spacing_zero Hr Hne). reflexivity.
    + destruct (option_for_spacing_returns s Hs
                  (Hall s (or_introl eq_refl))) as [o Ho]; [lra|].
      rewrite Ho, bind_Ok. apply IH.
      * intros s' Hs'. apply Hall. right. exact Hs'.
      * destruct Hin as [E|Hin]; [congruence|exact Hin].
Qed.

End SelectorFacts.

(** *** Sorting and slicing *)

Lemma insert_by_efficiency_perm (x : Selector.SelectedOption)
  (l : list Selector.SelectedOption) :
  Permutation (Selector.insert_by_efficiency x l) (x :: l).
Proof.
  induction l as [|y l IH]; simpl; [reflexivity|].
  destruct (_ <=? _); [reflexivity|].
  rewrite IH. apply perm_swap.
Qed.

Lemma sort_by_efficiency_perm (l : list Selector.SelectedOption) :
  Permutation (Selector.sort_by_efficiency l) l.
Proof.
  induction l as [|x l IH]; simpl; [reflexivity|].
  rewrite insert_by_efficiency_perm. now apply perm_skip.
Qed.



Lemma firstn_strongly_sorted {A : Type} (R : A -> A -> Prop) (l : list A) :
  StronglySorted R l -> forall n, StronglySorted R (firstn n l).
Proof.
  induction 1 as [|a l Hs IH Hall]; intros n.
  - rewrite firstn_nil. constructor.
  - destruct n as [|n]; simpl; [constructor|].
    constructor; [apply IH|].
    rewrite Forall_forall in *. intros x Hx. apply Hall.
    revert Hx. clear. revert n.
    induction l as [|b l IHl]; intros n; destruct n; simpl; try tauto.
    intros [<-|H]; [now left|right; exact (IHl n H)].
Qed.

Lemma firstn_in {A : Type} (l : list A) :
  forall n x, In x (firstn n l) -> In x l.
Proof.
  induction l as [|b l IHl]; intros n x; destruct n; simpl; try tauto.
  intros [<-|H]; [now left|right; exact (IHl n x H)].
Qed.

Lemma slice_to_facts {A : Type} (R : A -> A -> Prop) (n : Z) (l : list A) :
  (forall x, In x (Selector.slice_to n l) -> In x l) /\
  (StronglySorted R l -> StronglySorted R (Selector.slice_to n l)) /\
  (length (Selector.slice_to n l) <= length l)%nat /\
  ((0 <= n)%Z -> (length (Selector.slice_to n l) <= Z.to_nat n)%nat).
Proof.
  unfold Selector.slice_to.
  destruct (0 <=? n)%Z eqn:E.
  - repeat split.
    + intros x. apply firstn_in.
    + intros Hs. now apply firstn_strongly_sorted.
    + rewrite length_firstn. lia.
    + intros _. rewrite length_firstn. lia.
  - apply Z.leb_gt in E. repeat split.
    + intros x. apply firstn_in.
    + intros Hs. now apply firstn_strongly_sorted.
    + rewrite length_firstn. lia.
    + lia.
Qed.

Lemma insert_sorted_in (x y : Z) (l : list Z) :
  In y (Selector.insert_sorted x l) <-> y = x \/ In y l.
Proof.
  induction l as [|z l IH]; simpl.
  - intuition.
  - destruct (x <=? z)%Z; simpl; [intuition|].
    rewrite IH. intuition.
Qed.

Lemma sorted_in (y : Z) (l : list Z) :
  In y (Selector.sorted l) <-> In y l.
Proof.
  induction l as [|x l IH]; simpl; [tauto|].
  rewrite insert_sorted_in, IH. intuition.
Qed.

Lemma insert_sorted_sorted (x : Z) (l : list Z) :
  Sorted Z.le l -> Sorted Z.le (Selector.insert_sorted x l).
Proof.
  induction l as [|y l IH]; intros Hs; simpl.
  - repeat constructor.
  - destruct (x <=? y)%Z eqn:E.
    + apply Z.leb_le in E. constructor; [exact Hs|].
      constructor. exact E.
    + apply Z.leb_gt in E. inversion Hs as [|? ? Hs' Hhd]; subst.
      constructor; [apply IH; exact Hs'|].
      destruct l as [|z l]; simpl.
      * constructor. lia.
      * destruct (x <=? z)%Z; constructor; [lia|].
        inversion Hhd; subst. assumption.
Qed.

Lemma sorted_strongly (l : list Z) :
  StronglySorted Z.le (Selector.sorted l).
Proof.
  apply Sorted_StronglySorted.
  - intros a b c Hab Hbc. lia.
  - induction l as [|x l IH]; simpl; [constructor|].
    apply insert_sorted_sorted. exact IH.
Qed.

Lemma table_keys_map (dias : list Z) :
  forall keys,
    Selector.table_keys dias = Some keys -> map Bars.nominal keys = dias.
Proof.
  induction dias as [|dia rest IH]; simpl; intros keys.
  - intros [= <-]. reflexivity.
  - destruct (Bars.bar_size dia) as [b|] eqn:Eb; [|discriminate].
    destruct (Selector.table_keys rest) as [bs|]; [|discriminate].
    intros [= <-]. simpl. rewrite (bar_size_some _ _ Eb), (IH bs eq_refl).
    reflexivity.
Qed.

Lemma table_keys_none (dias : list Z) :
  Selector.table_keys dias = None <->
  exists dia, In dia dias /\ Bars.bar_size dia = None.
Proof.
  induction dias as [|dia rest IH]; simpl.
  - split; [discriminate|]. intros (d & [] & _).
  - destruct (Bars.bar_size dia) as [b|] eqn:Eb.
    + destruct (Selector.table_keys rest) as [bs|].
      * split; [discriminate|].
        intros (d & [<-|Hd] & Hnone); [congruence|].
        assert (Hex : exists dia0, In dia0 rest /\ Bars.bar_size dia0 = None)
          by eauto.
        apply IH in Hex. discriminate.
      * split; [|reflexivity]. intros _.
        destruct (proj1 IH eq_refl) as (d & Hd & Hnone). eauto.
    + split; [|reflexivity]. intros _. eauto.
Qed.

Lemma strongly_sorted_after {A : Type} (R : A -> A -> Prop)
  (l1 l2 : list A) (d : A) :
  StronglySorted R (l1 ++ d :: l2) -> Forall (R d) l2.
Proof.
  induction l1 as [|a l1 IH]; simpl; intros H;
    inversion H; subst; [assumption|auto].
Qed.

(* ================================================================== *)
(** * The selector of bar options *)
(* ================================================================== *)

(** X17.  What the constructor of [RebarSelector] leaves.  It fails
    (with the [KeyError] of its dictionary comprehension) exactly when
    one of the given diameters is not a key of [_REBAR_AREAS]; otherwise
    the object holds the given diameters and the given spacings, both in
    ascending order. *)
Theorem rebar_selector_constructed :
  forall (available_diameters preferred_spacings : list Z),
    (Selector.RebarSelector_init available_diameters preferred_spacings
       = None
     <-> exists dia, In dia available_diameters /\
                     Bars.bar_size dia = None) /\
    (forall self,
        Selector.RebarSelector_init available_diameters preferred_spacings
          = Some self ->
        map Bars.nominal (Selector.available_diameters self)
          = Selector.sorted available_diameters /\
        Selector.preferred_spacings self
          = Selector.sorted preferred_spacings /\
        StronglySorted Z.le
          (map Bars.nominal (Selector.available_diameters self)) /\
        StronglySorted Z.le (Selector.preferred_spacings self) /\
        (forall dia, In dia (map Bars.nominal
                               (Selector.available_diameters self))
                     <-> In dia available_diameters) /\
        (forall s, In s (Selector.preferred_spacings self)
                   <-> In s preferred_spacings)).
Proof.
  intros ad ps. unfold Selector.RebarSelector_init. split.
  - destruct (Selector.table_keys (Selector.sorted ad)) as [keys|] eqn:Ek.
    + split; [discriminate|].
      intros (dia & Hin & Hnone). exfalso.
      assert (Hex : exists d, In d (Selector.sorted ad)
                              /\ Bars.bar_size d = None).
      { exists dia. split; [apply sorted_in; exact Hin|exact Hnone]. }
      apply table_keys_none in Hex. congruence.
    + split; [|reflexivity]. intros _.
      apply table_keys_none in Ek. destruct Ek as (dia & Hin & Hnone).
      exists dia. split; [apply sorted_in; exact Hin|exact Hnone].
  - intros self.
    destruct (Selector.table_keys (Selector.sorted ad)) as [keys|] eqn:Ek;
      [|discriminate].
    intros [= <-]. cbn [Selector.available_diameters
                          Selector.preferred_spacings].
    apply table_keys_map in Ek. rewrite Ek.
    split; [reflexivity|]. split; [reflexivity|].
    split; [apply sorted_strongly|]. split; [apply sorted_strongly|].
    split; intros x; apply sorted_in.
Qed.

(** X17, witness: the selector of diameters 25, 13, 19 and spacings 200,
    100 holds them in ascending order. *)
Lemma rebar_selector_constructed_witness :
  exists self,
    Selector.RebarSelector_init [25; 13; 19]%Z [200; 100]%Z = Some self /\
    Selector.preferred_spacings self = Selector.sorted [200; 100]%Z.
Proof.
  eexists. split; [reflexivity|].
  exact (proj1 (proj2 (proj2 (rebar_selector_constructed
                                [25; 13; 19]%Z [200; 100]%Z) _ eq_refl))).
Defined.

Lemma select_optimal_options_inv (self : Selector.RebarSelector)
  (as_required_pm : R) (top_n : Z) (opts : list Selector.SelectedOption) :
  Selector.select_optimal_options self as_required_pm top_n = Ok opts ->
  (as_required_pm <= 0 /\ opts = []) \/
  (0 < as_required_pm /\
   exists valid,
     Selector.collect_options self as_required_pm
       (Selector.preferred_spacings self) [] = Ok valid /\
     opts = Selector.slice_to top_n (Selector.sort_by_efficiency valid)).
Proof.
  unfold Selector.select_optimal_options.
  destruct (as_required_pm <=? 0) eqn:E.
  - apply Rleb_true in E. intros [= <-]. auto.
  - apply Rleb_false in E. intros H. right. split; [exact E|].
    apply bind_Ok_inv in H. destruct H as (valid & Hv & H).
    injection H as <-. eauto.
Qed.

(** Every option returned was built by the loop body for its spacing. *)
Lemma selected_option_origin (self : Selector.RebarSelector)
  (as_required_pm : R) (top_n : Z) (opts : list Selector.SelectedOption)
  (o : Selector.SelectedOption) :
  Selector.select_optimal_options self as_required_pm top_n = Ok opts ->
  In o opts ->
  0 < as_required_pm /\
  In (Selector.spacing o) (Selector.preferred_spacings self) /\
  Selector.option_for_spacing self as_required_pm (Selector.spacing o)
  = Ok (Some o).
Proof.
  intros H Hin. apply select_optimal_options_inv in H.
  destruct H as [[_ ->]|(Hr & valid & Hv & ->)]; [destruct Hin|].
  split; [exact Hr|].
  apply (proj1 (slice_to_facts (fun _ _ => True) _ _)) in Hin.
  apply (Permutation_in _ (sort_by_efficiency_perm valid)) in Hin.
  apply collect_options_inv in Hv.
  destruct Hv as (new & -> & _ & Hnew). simpl in Hin.
  exact (Hnew o Hin).
Qed.

(** X18.  What a selected option provides.  [select_optimal_options]
    returns the empty list for a requirement that is not positive.
    Every option it returns pairs one of the preferred spacings, not
    zero, with one of the available diameters whose single area covers
    the requirement over that spacing; its provision per metre is that
    area times [1000/spacing] and its efficiency the provision over the
    requirement.  With a positive spacing the provision is at least the
    requirement and the efficiency at least 1; a negative spacing is
    accepted too, and gives a negative provision. *)
Theorem selected_options_meet_requirement :
  forall (self : Selector.RebarSelector) (as_required_pm : R) (top_n : Z)
         (opts : list Selector.SelectedOption),
    Selector.select_optimal_options self as_required_pm top_n = Ok opts ->
    (as_required_pm <= 0 -> opts = []) /\
    (forall o, In o opts ->
       0 < as_required_pm /\
       In (Selector.spacing o) (Selector.preferred_spacings self) /\
       Selector.spacing o <> 0%Z /\
       exists d,
         In d (Selector.available_diameters self) /\
         Selector.diameter o = Bars.nominal d /\
         as_required_pm * (IZR (Selector.spacing o) / 1000.0)
           <= Bars._REBAR_AREAS d /\
         Selector.as_provided_per_meter o
           = Bars._REBAR_AREAS d * (1000 / IZR (Selector.spacing o)) /\
         Selector.efficiency o
           = Selector.as_provided_per_meter o / as_required_pm /\
         ((0 < Selector.spacing o)%Z ->
          as_required_pm <= Selector.as_provided_per_meter o /\
          1 <= Selector.efficiency o) /\
         ((Selector.spacing o < 0)%Z ->
          Selector.as_provided_per_meter o < 0 /\
          Selector.efficiency o < 0)).
Proof.
  intros self req top_n opts H. split.
  - intros Hle. apply select_optimal_options_inv in H.
    destruct H as [[_ E]|(Hr & _)]; [exact E|lra].
  - intros o Hin.
    destruct (selected_option_origin _ _ _ _ _ H Hin) as (Hr & Hsp & Ho).
    apply option_for_spacing_some in Ho.
    destruct Ho as (_ & Hs0 & _ & _ & d & l1 & l2 & El & _ & Hge & Ed
                    & Ep & Ee).
    split; [exact Hr|]. split; [exact Hsp|]. split; [exact Hs0|].
    exists d. split.
    { rewrite El. apply in_or_app. right. left. reflexivity. }
    split; [exact Ed|]. split; [exact Hge|]. split; [exact Ep|].
    split; [exact Ee|].
    pose proof (rebar_areas_range d) as Ha.
    set (s := IZR (Selector.spacing o)) in *.
    set (a := Bars._REBAR_AREAS d) in *.
    split.
    + intros Hpos. assert (Hs : 0 < s) by (apply IZR_lt in Hpos; exact Hpos).
      assert (Hp : req <= a * (1000 / s)).
      { apply (Rmult_le_reg_r (s / 1000)); [lra|].
        replace (a * (1000 / s) * (s / 1000)) with a by (field; lra).
        replace (s / 1000) with (s / 1000.0) by lra. exact Hge. }
      rewrite Ee, Ep. split; [exact Hp|].
      apply (Rmult_le_reg_r req); [exact Hr|].
      replace (a * (1000 / s) / req * req) with (a * (1000 / s))
        by (field; lra).
      lra.
    + intros Hneg. assert (Hs : s < 0) by (apply IZR_lt in Hneg; exact Hneg).
      assert (Hq : 1000 / s < 0).
      { apply Ropp_lt_cancel. rewrite Ropp_0.
        replace (- (1000 / s)) with (1000 / - s) by (field; lra).
        apply Rdiv_lt_0_compat; lra. }
      assert (Hp : a * (1000 / s) < 0).
      { replace 0 with (a * 0) by ring. apply Rmult_lt_compat_l; lra. }
      rewrite Ee, Ep. split; [exact Hp|].
      apply Ropp_lt_cancel. rewrite Ropp_0.
      replace (- (a * (1000 / s) / req)) with (- (a * (1000 / s)) / req)
        by (field; lra).
      apply Rdiv_lt_0_compat; lra.
Qed.

Lemma example_selector :
  exists self,
    Selector.RebarSelector_init [13; 16; 19]%Z [100; 200]%Z = Some self /\
    Selector.available_diameters self = [Bars.D13; Bars.D16; Bars.D19] /\
    Selector.preferred_spacings self = [100; 200]%Z.
Proof. eexists. split; [reflexivity|]. split; reflexivity. Qed.

Lemma example_selection_returns :
  forall self,
    Selector.preferred_spacings self = [100; 200]%Z ->
    exists opts, Selector.select_optimal_options self 1000 3 = Ok opts.
Proof.
  intros self Eps. unfold Selector.select_optimal_options.
  assert (E : (1000 <=? 0) = false) by (apply Rleb_false; lra).
  rewrite E, Eps.
  destruct (collect_options_returns self 1000) with
    (spacings := [100; 200]%Z) (acc := @nil Selector.SelectedOption)
    as [out Hout].
  - lra.
  - intros s [<-|[<-|[]]]; (split; [lia|]);
      unfold FLOAT_MAX; rewrite Rabs_right; lra.
  - rewrite Hout, bind_Ok. eauto.
Qed.

(** X18, witness: 1000 mm2/m with bars of 13, 16 and 19 mm at 100 or
    200 mm: the call returns, and a requirement of 0 returns nothing. *)
Lemma selected_options_meet_requirement_witness :
  exists self opts,
    Selector.RebarSelector_init [13; 16; 19]%Z [100; 200]%Z = Some self /\
    Selector.select_optimal_options self 1000 3 = Ok opts /\
    (1000 <= 0 -> opts = []).
Proof.
  destruct example_selector as (self & Hinit & _ & Eps).
  destruct (example_selection_returns self Eps) as [opts Hopts].
  exists self, opts. split; [exact Hinit|]. split; [exact Hopts|].
  exact (proj1 (selected_options_meet_requirement self 1000 3 opts Hopts)).
Defined.



(** X20.  The diameter of an option is the smallest that suffices.  For
    a selector built by its constructor, an option returned by
    [select_optimal_options] carries one of the diameters and one of the
    spacings that were given, and every available diameter smaller than
    the option's has a single area below the requirement over the
    option's spacing. *)
Theorem selected_diameter_is_smallest :
  forall (available_diameters preferred_spacings : list Z)
         (self : Selector.RebarSelector) (as_required_pm : R) (top_n : Z)
         (opts : list Selector.SelectedOption),
    Selector.RebarSelector_init available_diameters preferred_spacings
      = Some self ->
    Selector.select_optimal_options self as_required_pm top_n = Ok opts ->
    forall o, In o opts ->
      In (Selector.diameter o) available_diameters /\
      In (Selector.spacing o) preferred_spacings /\
      forall d',
        In d' (Selector.available_diameters self) ->
        (Bars.nominal d' < Selector.diameter o)%Z ->
        Bars._REBAR_AREAS d'
        < as_required_pm * (IZR (Selector.spacing o) / 1000.0).
Proof.
  intros ad ps self req top_n opts Hinit H o Hin.
  destruct (proj2 (rebar_selector_constructed ad ps) self Hinit)
    as (_ & _ & Hsd & _ & Hmd & Hms).
  destruct (selected_option_origin _ _ _ _ _ H Hin) as (Hr & Hsp & Ho).
  apply option_for_spacing_some in Ho.
  destruct Ho as (_ & _ & _ & _ & d & l1 & l2 & El & Hl1 & _ & Ed & _).
  split.
  { apply Hmd. rewrite Ed. apply in_map. rewrite El.
    apply in_or_app. right. left. reflexivity. }
  split; [apply Hms; exact Hsp|].
  intros d' Hd' Hlt. rewrite Ed in Hlt. rewrite El in Hd', Hsd.
  apply in_app_or in Hd'. destruct Hd' as [Hd'|[Hd'|Hd']].
  - exact (Hl1 d' Hd').
  - subst d'. lia.
  - exfalso. rewrite map_app in Hsd. simpl map in Hsd.
    apply strongly_sorted_after in Hsd.
    rewrite Forall_forall in Hsd.
    specialize (Hsd (Bars.nominal d') (in_map _ _ _ Hd')). lia.
Qed.

(** X20, witness: no option of the example selection is at 150 mm, which
    was not asked for. *)
Lemma selected_diameter_is_smallest_witness :
  exists self opts,
    Selector.RebarSelector_init [13; 16; 19]%Z [100; 200]%Z = Some self /\
    Selector.select_optimal_options self 1000 3 = Ok opts /\
    forall o, In o opts -> In (Selector.spacing o) [100; 200]%Z.
Proof.
  destruct example_selector as (self & Hinit & _ & Eps).
  destruct (example_selection_returns self Eps) as [opts Hopts].
  exists self, opts. split; [exact Hinit|]. split; [exact Hopts|].
  intros o Ho.
  exact (proj1 (proj2 (selected_diameter_is_smallest _ _ self 1000 3 opts
                         Hinit Hopts o Ho))).
Defined.

(** X21.  How [select_optimal_options] fails.  For a positive
    requirement, a selector with a diameter at hand and spacings within
    the range of a float: the call raises [ZeroDivisionError] when one
    of the preferred spacings is zero, and returns otherwise.  A selector
    without diameters returns the empty list whatever its spacings
    within range. *)
Theorem select_optimal_options_failures :
  forall (self : Selector.RebarSelector) (as_required_pm : R) (top_n : Z),
    0 < as_required_pm ->
    (forall s, In s (Selector.preferred_spacings self) ->
               Rabs (IZR s) <= FLOAT_MAX) ->
    (Selector.available_diameters self <> [] ->
     In 0%Z (Selector.preferred_spacings self) ->
     Selector.select_optimal_options self as_required_pm top_n
     = Raise ZeroDivisionError) /\
    (~ In 0%Z (Selector.preferred_spacings self) ->
     exists opts,
       Selector.select_optimal_options self as_required_pm top_n
       = Ok opts) /\
    (Selector.available_diameters self = [] ->
     Selector.select_optimal_options self as_required_pm top_n = Ok []).
Proof.
  intros self req top_n Hr Hrange.
  assert (E : (req <=? 0) = false) by (apply Rleb_false; exact Hr).
  unfold Selector.select_optimal_options. rewrite E.
  split; [|split].
  - intros Hne Hin.
    rewrite (collect_options_zero self req Hr Hne _ [] Hrange Hin).
    reflexivity.
  - intros Hnin.
    destruct (collect_options_returns self req) with
      (spacings := Selector.preferred_spacings self)
      (acc := @nil Selector.SelectedOption) as [out Hout].
    + lra.
    + intros s Hs. split; [|exact (Hrange s Hs)].
      intros ->. exact (Hnin Hs).
    + rewrite Hout, bind_Ok. eauto.
  - intros Hnil.
    assert (Hcol : forall spacings,
               (forall s, In s spacings -> Rabs (IZR s) <= FLOAT_MAX) ->
               Selector.collect_options self req spacings [] = Ok []).
    { induction spacings as [|s rest IH]; intros Hall; simpl;
        [reflexivity|].
      unfold Selector.option_for_spacing.
      rewrite float_of_int_ok, bind_Ok
        by (apply Hall; left; reflexivity).
      cbv zeta. unfold Selector.best_dia_for_spacing. rewrite Hnil.
      simpl find. cbv iota. rewrite bind_Ok. apply IH.
      intros s' Hs'. apply Hall. right. exact Hs'. }
    rewrite (Hcol _ Hrange), bind_Ok.
    unfold Selector.slice_to. simpl.
    destruct (0 <=? top_n)%Z; rewrite firstn_nil; reflexivity.
Qed.

(** X21, witness: a spacing of zero among the preferred ones. *)
Lemma select_optimal_options_failures_witness :
  Selector.select_optimal_options
    {| Selector.available_diameters := [Bars.D13];
       Selector.preferred_spacings := [0; 100]%Z |} 1000 3
  = Raise ZeroDivisionError.
Proof.
  assert (Hr : 0 < 1000) by lra.
  assert (Hrange : forall s, In s [0; 100]%Z -> Rabs (IZR s) <= FLOAT_MAX).
  { intros s [<-|[<-|[]]]; unfold FLOAT_MAX; rewrite Rabs_right; lra. }
  apply (proj1 (select_optimal_options_failures
                  {| Selector.available_diameters := [Bars.D13];
                     Selector.preferred_spacings := [0; 100]%Z |}
                  1000 3 Hr Hrange)).
  - cbn [Selector.available_diameters]. discriminate.
  - cbn [Selector.preferred_spacings]. left. reflexivity.
Defined.

(* ================================================================== *)
(** * The detailer of bar layouts *)
(* ================================================================== *)

Lemma Zceil_pos (x : R) : 0 < x -> (1 <= Zceil x)%Z.
Proof.
  intros Hx. destruct (Zceil_bound x) as [_ H].
  assert (H0 : 0 < IZR (Zceil x)) by lra.
  apply lt_IZR in H0. lia.
Qed.

Lemma Zceil_upper (x : R) (z : Z) : x <= IZR z -> (Zceil x <= z)%Z.
Proof.
  intros H. destruct (Zceil_bound x) as [H1 _].
  assert (H0 : IZR (Zceil x) < IZR (z + 1)) by (rewrite plus_IZR; lra).
  apply lt_IZR in H0. lia.
Qed.

Lemma Zfloor_nonneg (x : R) : 0 <= x -> (0 <= Zfloor x)%Z.
Proof. intros H. apply Zfloor_lub. exact H. Qed.

(** The clear spacing between bars is at least 25 mm, whatever the
    factor, so the division by [dia + min_clear_spacing] is defined. *)
Lemma bar_pitch_pos (b : Bars.BarSize) (factor : R) :
  35 <= IZR (Bars.nominal b) + Rmax 25.0 (IZR (Bars.nominal b) * factor).
Proof.
  assert (H := Rmax_l 25.0 (IZR (Bars.nominal b) * factor)).
  assert (Hd : 10 <= IZR (Bars.nominal b))
    by (apply IZR_le; destruct (nominal_range b); assumption).
  lra.
Qed.

(** With room for one bar, at least one bar fits in a layer. *)
Lemma max_per_layer_pos (b : Bars.BarSize) (factor effective_width : R) :
  0 <= effective_width ->
  (1 <= Zfloor (effective_width
                / (IZR (Bars.nominal b)
                   + Rmax 25.0 (IZR (Bars.nominal b) * factor))) + 1)%Z.
Proof.
  intros Hw. assert (Hp := bar_pitch_pos b factor).
  match goal with
  | |- (1 <= Zfloor ?q + 1)%Z => assert (0 <= Zfloor q)%Z
  end.
  { apply Zfloor_nonneg. apply Rmult_le_pos; [lra|].
    apply Rlt_le, Rinv_0_lt_compat. lra. }
  lia.
Qed.

Section PlaceLayers.

Variables (rebar : Bars.Rebar) (cover_to_stirrup stirrup_dia : R).
Variable max_per_layer : Z.
Hypothesis Hmax : (1 <= max_per_layer)%Z.

(** The loop finishes within as many iterations as there are bars to
    place. *)
Lemma place_layers_returns :
  forall (fuel : nat) (n i : Z),
    (n <= Z.of_nat fuel)%Z ->
    exists ls,
      Detailer.place_layers fuel rebar cover_to_stirrup stirrup_dia
        max_per_layer n i = Some ls.
Proof.
  induction fuel as [|fuel IH]; intros n i Hn; simpl;
    destruct (n >? 0)%Z eqn:E; try (eexists; reflexivity).
  - apply Z.gtb_lt in E. lia.
  - apply Z.gtb_lt in E.
    destruct (IH (n - Z.min n max_per_layer)%Z (i + 1)%Z) as [ls Hls];
      [lia|].
    rewrite Hls. eexists; reflexivity.
Qed.

(** What the loop leaves: layer [k] holds [min(max_per_layer,
    n - k*max_per_layer)] bars at the height of index [i + k]. *)
Lemma place_layers_inv :
  forall (fuel : nat) (n i : Z) (ls : list Detailer.RebarLayer),
    Detailer.place_layers fuel rebar cover_to_stirrup stirrup_dia
      max_per_layer n i = Some ls ->
    fold_right (fun l acc => (Detailer.num_rebars l + acc)%Z) 0%Z ls
      = Z.max 0 n /\
    ((0 < n)%Z -> ls <> []) /\
    (n <= max_per_layer * Z.of_nat (length ls))%Z /\
    ((0 < n)%Z -> (max_per_layer * (Z.of_nat (length ls) - 1) < n)%Z) /\
    forall (k : nat) (l : Detailer.RebarLayer),
      nth_error ls k = Some l ->
      Detailer.num_rebars l
        = Z.min max_per_layer (n - max_per_layer * Z.of_nat k) /\
      (1 <= Detailer.num_rebars l <= max_per_layer)%Z /\
      Detailer.y_from_bottom l
        = cover_to_stirrup + stirrup_dia
          + IZR (Bars.nominal (Bars.diameter rebar)) / 2
          + IZR (i + Z.of_nat k)
            * (IZR (Bars.nominal (Bars.diameter rebar)) + 25.0) /\
      Detailer.rebar l = rebar.
Proof.
  induction fuel as [|fuel IH]; intros n i ls H; simpl in H;
    destruct (n >? 0)%Z eqn:E.
  - discriminate.
  - rewrite Z.gtb_ltb, Z.ltb_ge in E.
    injection H as <-. simpl.
    split; [lia|]. split; [lia|]. split; [lia|]. split; [lia|].
    intros [|k] l Hk; discriminate.
  - apply Z.gtb_lt in E.
    destruct (Detailer.place_layers fuel rebar cover_to_stirrup stirrup_dia
                max_per_layer (n - Z.min n max_per_layer) (i + 1))
      as [rest|] eqn:Hrest; [|discriminate].
    injection H as <-.
    destruct (IH _ _ _ Hrest) as (Hsum & _ & Hlen & Hlen' & Hnth).
    assert (Hempty : (n <= max_per_layer)%Z -> rest = []).
    { intros Hle. destruct rest as [|l0 rest']; [reflexivity|].
      destruct (Hnth 0%nat l0 eq_refl) as (Hl0 & Hl1 & _).
      simpl in Hl0. lia. }
    simpl fold_right. simpl length. rewrite Nat2Z.inj_succ.
    split; [simpl Detailer.num_rebars; lia|].
    split; [discriminate|].
    split.
    { destruct (Z_le_gt_dec n max_per_layer) as [Hle|Hgt]; [nia|nia]. }
    split.
    { intros _. destruct (Z_le_gt_dec n max_per_layer) as [Hle|Hgt].
      - rewrite (Hempty Hle). simpl. lia.
      - assert (0 < n - Z.min n max_per_layer)%Z by lia.
        specialize (Hlen' H). nia. }
    intros [|k] l Hk; simpl in Hk.
    + injection Hk as <-. simpl.
      rewrite Z.mul_0_r, Z.sub_0_r, Z.add_0_r.
      split; [lia|]. split; [lia|]. split; reflexivity.
    + destruct (Hnth k l Hk) as (Hnum & Hrange & Hy & Hr).
      split.
      { rewrite Hnum, Nat2Z.inj_succ.
        destruct (Z_le_gt_dec n max_per_layer) as [Hle|Hgt].
        - rewrite (Hempty Hle) in Hk. destruct k; discriminate.
        - replace (n - Z.min n max_per_layer)%Z
            with (n - max_per_layer)%Z by lia.
          f_equal. ring. }
      split; [exact Hrange|]. split; [|exact Hr].
      rewrite Hy.
      replace (i + Z.of_nat (S k))%Z with (i + 1 + Z.of_nat k)%Z by lia.
      reflexivity.
  - rewrite Z.gtb_ltb, Z.ltb_ge in E.
    injection H as <-. simpl.
    split; [lia|]. split; [lia|]. split; [lia|]. split; [lia|].
    intros [|k] l Hk; discriminate.
Qed.

End PlaceLayers.

Section PlanLayout.

Variables (fuel : nat) (self : Detailer.RebarDetailer).
Variable selected_option : Selector.SelectedOption.
Variables section_width section_height as_required_total : R.
Variables cover_to_stirrup stirrup_dia : R.

Lemma plan_layout_no_bar :
  Bars.bar_size (Selector.diameter selected_option) = None ->
  Detailer.plan_layout fuel self selected_option section_width
    section_height as_required_total cover_to_stirrup stirrup_dia
  = Detailer.PlanRaises MaterialError.
Proof.
  intros H. unfold Detailer.plan_layout, Bars.Rebar_new. rewrite H.
  reflexivity.
Qed.

(** With a bar of the table, neither division of [plan_layout] divides
    by zero and the test [max_per_layer == 0] never fires: what is left
    is the two early returns and the loop. *)
Lemma plan_layout_unfold (b : Bars.BarSize) :
  Bars.bar_size (Selector.diameter selected_option) = Some b ->
  Detailer.plan_layout fuel self selected_option section_width
    section_height as_required_total cover_to_stirrup stirrup_dia
  = if as_required_total >? 0 then
      if section_width - 2 * cover_to_stirrup - 2 * stirrup_dia
         - IZR (Bars.nominal b) <? 0
      then Detailer.NoLayout
      else
        match Detailer.place_layers fuel
                {| Bars.material := Detailer.steel_material self;
                   Bars.diameter := b |}
                cover_to_stirrup stirrup_dia
                (Zfloor ((section_width - 2 * cover_to_stirrup
                          - 2 * stirrup_dia - IZR (Bars.nominal b))
                         / (IZR (Bars.nominal b)
                            + Rmax 25.0 (IZR (Bars.nominal b)
                                         * Detailer.min_spacing_factor self)))
                 + 1)
                (Zceil (as_required_total / Bars._REBAR_AREAS b)) 0 with
        | None => Detailer.OutOfFuel
        | Some layers =>
            Detailer.Planned
              {| Detailer.layout_option := selected_option;
                 Detailer.layers := layers;
                 Detailer.as_provided_total :=
                   IZR (fold_right
                          (fun l acc => (Detailer.num_rebars l + acc)%Z)
                          0%Z layers)
                   * Bars._REBAR_AREAS b;
                 Detailer.section_height := section_height |}
        end
    else Detailer.NoLayout.
Proof.
  intros H. unfold Detailer.plan_layout, Bars.Rebar_new. rewrite H.
  cbv zeta. unfold Bars.area. cbn [Bars.diameter Bars.material].
  destruct (as_required_total >? 0) eqn:E; [|reflexivity].
  apply Rltb_true in E.
  assert (Ha := rebar_areas_range b).
  rewrite fdiv_ok by lra. rewrite bind_Ok.
  assert (Hn : (Zceil (as_required_total / Bars._REBAR_AREAS b) =? 0)%Z
               = false).
  { apply Z.eqb_neq.
    assert (1 <= Zceil (as_required_total / Bars._REBAR_AREAS b))%Z
      by (apply Zceil_pos, Rdiv_lt_0_compat; lra).
    lia. }
  rewrite Hn.
  destruct (section_width - 2 * cover_to_stirrup - 2 * stirrup_dia
            - IZR (Bars.nominal b) <? 0) eqn:Ew; [reflexivity|].
  apply Rltb_false in Ew.
  assert (Hp := bar_pitch_pos b (Detailer.min_spacing_factor self)).
  rewrite fdiv_ok by lra.
  assert (Hm := max_per_layer_pos b (Detailer.min_spacing_factor self)
                  _ Ew).
  match type of Hm with
  | (1 <= ?m)%Z => assert (Hm' : (m =? 0)%Z = false)
                    by (apply Z.eqb_neq; lia)
  end.
  rewrite Hm'. reflexivity.
Qed.

End PlanLayout.

(** X22.  The outcomes of [plan_layout].  The only exception is the
    [MaterialError] of the [Rebar] constructor, raised exactly when the
    diameter of the option is not in the table: neither division divides
    by zero.  For a diameter of the table the call returns [None]
    exactly when nothing is required or the width left between the
    stirrups is less than one bar; the test [max_per_layer == 0] never
    decides.  Otherwise the loop ends, within as many iterations as bars
    are required, and a layout is returned. *)
Theorem plan_layout_outcomes :
  forall (fuel : nat) (self : Detailer.RebarDetailer)
         (selected_option : Selector.SelectedOption)
         (section_width section_height as_required_total
          cover_to_stirrup stirrup_dia : R),
    (forall e,
        Detailer.plan_layout fuel self selected_option section_width
          section_height as_required_total cover_to_stirrup stirrup_dia
        = Detailer.PlanRaises e ->
        e = MaterialError) /\
    (Detailer.plan_layout fuel self selected_option section_width
       section_height as_required_total cover_to_stirrup stirrup_dia
     = Detailer.PlanRaises MaterialError
     <-> Bars.bar_size (Selector.diameter selected_option) = None) /\
    (forall b,
        Bars.bar_size (Selector.diameter selected_option) = Some b ->
        (Detailer.plan_layout fuel self selected_option section_width
           section_height as_required_total cover_to_stirrup stirrup_dia
         = Detailer.NoLayout
         <-> as_required_total <= 0 \/
             section_width - 2 * cover_to_stirrup - 2 * stirrup_dia
             - IZR (Bars.nominal b) < 0) /\
        (0 < as_required_total ->
         0 <= section_width - 2 * cover_to_stirrup - 2 * stirrup_dia
              - IZR (Bars.nominal b) ->
         as_required_total <= INR fuel * Bars._REBAR_AREAS b ->
         exists layout,
           Detailer.plan_layout fuel self selected_option section_width
             section_height as_required_total cover_to_stirrup stirrup_dia
           = Detailer.Planned layout)).
Proof.
  intros fuel self opt w h req c s.
  destruct (Bars.bar_size (Selector.diameter opt)) as [b|] eqn:Hb.
  - rewrite (plan_layout_unfold fuel self opt w h req c s b Hb).
    assert (Ha := rebar_areas_range b).
    destruct (req >? 0) eqn:E;
      [apply Rltb_true in E|apply Rltb_false in E].
    + destruct (w - 2 * c - 2 * s - IZR (Bars.nominal b) <? 0) eqn:Ew;
        [apply Rltb_true in Ew|apply Rltb_false in Ew].
      * split; [discriminate|]. split; [split; discriminate|].
        intros b' Hb'. injection Hb' as <-.
        split; [split; auto|]. intros _ Hw. lra.
      * destruct (Detailer.place_layers fuel _ c s _ _ 0) as [ls|] eqn:Hls.
        { split; [discriminate|]. split; [split; discriminate|].
          intros b' Hb'. injection Hb' as <-.
          split; [split; [discriminate|lra]|]. intros _ _ _.
          eexists; reflexivity. }
        { split; [discriminate|]. split; [split; discriminate|].
          intros b' Hb'. injection Hb' as <-.
          split; [split; [discriminate|lra]|]. intros _ _ Hfuel.
          exfalso.
          match type of Hls with
          | Detailer.place_layers _ ?r _ _ ?m ?n _ = _ =>
              destruct (place_layers_returns r c s m
                          (max_per_layer_pos b _ _ Ew) fuel n 0%Z)
                as [ls Hls']
          end.
          - apply Zceil_upper. rewrite <- INR_IZR_INZ.
            apply Rmult_le_reg_r with (Bars._REBAR_AREAS b); [lra|].
            unfold Rdiv. rewrite Rmult_assoc, Rinv_l by lra. lra.
          - congruence. }
    + split; [discriminate|]. split; [split; discriminate|].
      intros b' Hb'. injection Hb' as <-.
      split; [split; auto|]. intros Hr. lra.
  - rewrite (plan_layout_no_bar fuel self opt w h req c s Hb).
    split; [intros e He; congruence|].
    split; [split; auto|]. intros b' Hb'. discriminate.
Qed.

(** X22, witness: six bars of 25 mm across a width of 400 mm. *)
Lemma plan_layout_outcomes_witness :
  exists layout,
    Detailer.plan_layout 6
      {| Detailer.steel_material := Examples.s400_material;
         Detailer.min_spacing_factor := 1.0 |}
      {| Selector.diameter := 25; Selector.spacing := 100;
         Selector.as_provided_per_meter := 5067;
         Selector.efficiency := 1.0134 |}
      400 600 3000 50 13
    = Detailer.Planned layout.
Proof.
  apply (proj2 (proj2 (proj2 (plan_layout_outcomes 6
                  {| Detailer.steel_material := Examples.s400_material;
                     Detailer.min_spacing_factor := 1.0 |}
                  {| Selector.diameter := 25; Selector.spacing := 100;
                     Selector.as_provided_per_meter := 5067;
                     Selector.efficiency := 1.0134 |}
                  400 600 3000 50 13)) Bars.D25 eq_refl)).
  - lra.
  - simpl. lra.
  - simpl. lra.
Defined.

(** The worked layout: a requirement of 3000 mm2 in bars of 25 mm across
    a width of 400 mm. *)
Lemma example_plan_returns :
  exists layout,
    Detailer.plan_layout 6
      {| Detailer.steel_material := Examples.s400_material;
         Detailer.min_spacing_factor := 1.0 |}
      {| Selector.diameter := 25; Selector.spacing := 100;
         Selector.as_provided_per_meter := 5067;
         Selector.efficiency := 1.0134 |}
      400 600 3000 50 13
    = Detailer.Planned layout.
Proof.
  rewrite (plan_layout_unfold 6 _
             {| Selector.diameter := 25; Selector.spacing := 100;
                Selector.as_provided_per_meter := 5067;
                Selector.efficiency := 1.0134 |}
             _ _ _ _ _ Bars.D25 eq_refl).
  assert (E1 : (3000 >? 0) = true) by (apply Rltb_true; lra).
  rewrite E1.
  assert (Hw : 0 <= 400 - 2 * 50 - 2 * 13 - IZR (Bars.nominal Bars.D25))
    by (simpl; lra).
  assert (E2 : (400 - 2 * 50 - 2 * 13 - IZR (Bars.nominal Bars.D25) <? 0)
               = false) by (apply Rltb_false; exact Hw).
  rewrite E2.
  match goal with
  | |- context [Detailer.place_layers _ ?r ?c ?s ?m ?n 0%Z] =>
      destruct (place_layers_returns r c s m
                  (max_per_layer_pos Bars.D25 _ _ Hw) 6 n 0%Z)
        as [ls Hls]
  end.
  - apply Zceil_upper. simpl. lra.
  - cbn [Detailer.steel_material Detailer.min_spacing_factor] in *.
    rewrite Hls. eexists; reflexivity.
Qed.

(** X23.  What a planned layout holds.  When [plan_layout] returns a
    layout, the diameter is one of the table and the requirement is
    positive; with [m = floor(effective_width / (dia + clear)) + 1] bars
    per layer and [n = ceil(as_required_total / area)] bars in all:
    [m] bars fit between the stirrups at the clear spacing and [m + 1]
    do not; the layers hold [n] bars together, layer [k] holding
    [min(m, n - k*m)] of them, so every layer but the last is full and
    none is empty, and there are [ceil(n/m)] layers; layer [k] lies
    [k * (dia + 25)] above the first; the area provided is [n] times the
    bar area, which covers the requirement with less than one bar to
    spare. *)
Theorem planned_layout_counts :
  forall (fuel : nat) (self : Detailer.RebarDetailer)
         (selected_option : Selector.SelectedOption)
         (section_width section_height as_required_total
          cover_to_stirrup stirrup_dia : R)
         (layout : Detailer.RebarLayout),
    Detailer.plan_layout fuel self selected_option section_width
      section_height as_required_total cover_to_stirrup stirrup_dia
    = Detailer.Planned layout ->
    exists b,
      Bars.bar_size (Selector.diameter selected_option) = Some b /\
      0 < as_required_total /\
      let dia := IZR (Bars.nominal b) in
      let clear := Rmax 25.0 (dia * Detailer.min_spacing_factor self) in
      let room := section_width - 2 * cover_to_stirrup - 2 * stirrup_dia in
      let m := (Zfloor ((room - dia) / (dia + clear)) + 1)%Z in
      let n := Zceil (as_required_total / Bars._REBAR_AREAS b) in
      (1 <= m)%Z /\ (1 <= n)%Z /\
      IZR m * dia + (IZR m - 1) * clear <= room /\
      room < (IZR m + 1) * dia + IZR m * clear /\
      Detailer.total_rebars layout = n /\
      Detailer.as_provided_total layout = IZR n * Bars._REBAR_AREAS b /\
      as_required_total <= Detailer.as_provided_total layout /\
      Detailer.as_provided_total layout
        < as_required_total + Bars._REBAR_AREAS b /\
      Detailer.layout_option layout = selected_option /\
      Detailer.section_height layout = section_height /\
      Detailer.layers layout <> [] /\
      (m * (Z.of_nat (length (Detailer.layers layout)) - 1) < n)%Z /\
      (n <= m * Z.of_nat (length (Detailer.layers layout)))%Z /\
      forall (k : nat) (l : Detailer.RebarLayer),
        nth_error (Detailer.layers layout) k = Some l ->
        Detailer.num_rebars l = Z.min m (n - m * Z.of_nat k) /\
        (1 <= Detailer.num_rebars l <= m)%Z /\
        Detailer.y_from_bottom l
          = cover_to_stirrup + stirrup_dia + dia / 2
            + IZR (Z.of_nat k) * (dia + 25.0) /\
        Detailer.rebar l
          = {| Bars.material := Detailer.steel_material self;
               Bars.diameter := b |}.
Proof.
  intros fuel self opt w h req c s layout H.
  destruct (Bars.bar_size (Selector.diameter opt)) as [b|] eqn:Hb;
    [|rewrite (plan_layout_no_bar fuel self opt w h req c s Hb) in H;
      discriminate].
  rewrite (plan_layout_unfold fuel self opt w h req c s b Hb) in H.
  exists b. split; [reflexivity|].
  destruct (req >? 0) eqn:E; [apply Rltb_true in E|discriminate].
  destruct (w - 2 * c - 2 * s - IZR (Bars.nominal b) <? 0) eqn:Ew;
    [discriminate|apply Rltb_false in Ew].
  split; [exact E|]. cbv zeta.
  assert (Ha := rebar_areas_range b).
  assert (Hp := bar_pitch_pos b (Detailer.min_spacing_factor self)).
  assert (Hm := max_per_layer_pos b (Detailer.min_spacing_factor self)
                  _ Ew).
  set (dia := IZR (Bars.nominal b)) in *.
  set (clear := Rmax 25.0 (dia * Detailer.min_spacing_factor self)) in *.
  set (q := (w - 2 * c - 2 * s - dia) / (dia + clear)) in *.
  set (m := (Zfloor q + 1)%Z) in *.
  set (n := Zceil (req / Bars._REBAR_AREAS b)) in *.
  assert (Hn : (1 <= n)%Z)
    by (apply Zceil_pos, Rdiv_lt_0_compat; lra).
  destruct (Detailer.place_layers fuel _ c s m n 0) as [ls|] eqn:Hls;
    [|discriminate].
  injection H as <-.
  destruct (place_layers_inv _ c s m Hm fuel n 0%Z ls Hls)
    as (Hsum & Hne & Hlen & Hlen' & Hnth).
  assert (Hq : IZR m - 1 <= q < IZR m).
  { unfold m. rewrite plus_IZR. destruct (Zfloor_bound q). lra. }
  assert (Hqm : q * (dia + clear) = w - 2 * c - 2 * s - dia).
  { unfold q, Rdiv. rewrite Rmult_assoc, Rinv_l by lra. lra. }
  assert (Hc : IZR n - 1 < req / Bars._REBAR_AREAS b <= IZR n)
    by (apply Zceil_bound).
  assert (Hcm : req / Bars._REBAR_AREAS b * Bars._REBAR_AREAS b = req).
  { unfold Rdiv. rewrite Rmult_assoc, Rinv_l by lra. lra. }
  cbn [Detailer.layers Detailer.as_provided_total Detailer.layout_option
       Detailer.section_height].
  unfold Detailer.total_rebars. cbn [Detailer.layers].
  rewrite Hsum. replace (Z.max 0 n) with n by lia.
  split; [exact Hm|]. split; [exact Hn|].
  split; [nra|]. split; [nra|].
  split; [reflexivity|]. split; [reflexivity|].
  split; [nra|]. split; [nra|].
  split; [reflexivity|]. split; [reflexivity|].
  split; [apply Hne; lia|].
  split; [apply Hlen'; lia|]. split; [exact Hlen|].
  intros k l Hk. destruct (Hnth k l Hk) as (H1 & H2 & H3 & H4).
  split; [exact H1|]. split; [exact H2|]. split; [|exact H4].
  rewrite H3. cbn [Bars.diameter]. rewrite Z.add_0_l. reflexivity.
Qed.

(** X23, witness: the worked layout is not empty. *)
Lemma planned_layout_counts_witness :
  exists layout,
    Detailer.plan_layout 6
      {| Detailer.steel_material := Examples.s400_material;
         Detailer.min_spacing_factor := 1.0 |}
      {| Selector.diameter := 25; Selector.spacing := 100;
         Selector.as_provided_per_meter := 5067;
         Selector.efficiency := 1.0134 |}
      400 600 3000 50 13
    = Detailer.Planned layout /\
    Detailer.layers layout <> [] /\
    Detailer.section_height layout = 600.
Proof.
  destruct example_plan_returns as [layout H].
  exists layout. split; [exact H|].
  destruct (planned_layout_counts _ _ _ _ _ _ _ _ layout H)
    as (b & _ & _ & Hrest).
  cbv zeta in Hrest.
  destruct Hrest as (_ & _ & _ & _ & _ & _ & _ & _ & _ & Hh & Hl & _).
  split; [exact Hl|exact Hh].
Defined.

(** The loop of [calculate_actual_d] over layers of at least one bar,
    between the heights [ylo] and [yhi]: the area grows, and the moment
    grows by the area times a height between the two. *)
Lemma accumulate_layers_bounds (ylo yhi : R) :
  forall (ls : list Detailer.RebarLayer) (moment_y total_area : R),
    (forall l, In l ls ->
       (1 <= Detailer.num_rebars l)%Z /\
       IZR (Detailer.num_rebars l) <= FLOAT_MAX /\
       ylo <= Detailer.y_from_bottom l <= yhi) ->
    exists mo ta,
      Detailer.accumulate_layers ls moment_y total_area = Ok (mo, ta) /\
      total_area <= ta /\
      (ls <> [] -> total_area < ta) /\
      ylo * (ta - total_area) <= mo - moment_y /\
      mo - moment_y <= yhi * (ta - total_area).
Proof.
  induction ls as [|l ls IH]; intros mo0 ta0 Hall; simpl.
  - exists mo0, ta0. split; [reflexivity|]. split; [lra|].
    split; [congruence|]. split; lra.
  - destruct (Hall l (or_introl eq_refl)) as (Hn & Hmax & Hy).
    assert (Hn' : 1 <= IZR (Detailer.num_rebars l)) by (apply IZR_le, Hn).
    rewrite float_of_int_ok, bind_Ok by (rewrite Rabs_right; lra).
    cbv zeta.
    assert (Ha := rebar_areas_range (Bars.diameter (Detailer.rebar l))).
    fold (Bars.area (Detailer.rebar l)) in Ha.
    set (layer_area :=
           IZR (Detailer.num_rebars l) * Bars.area (Detailer.rebar l)).
    assert (Hla : 0 < layer_area) by (unfold layer_area; nra).
    destruct (IH (mo0 + layer_area * Detailer.y_from_bottom l)
                 (ta0 + layer_area))
      as (mo & ta & E & Hta & _ & Hlo & Hhi).
    { intros l' Hl'. apply Hall. right. exact Hl'. }
    exists mo, ta. split; [exact E|]. split; [lra|].
    split; [intros _; lra|]. split; nra.
Qed.

(** X24.  The actual depth lies between the layers.  For a layout
    without layers [calculate_actual_d] returns 0.  For a layout whose
    layers hold at least one bar each, in numbers that convert to float,
    at heights between [ylo] and [yhi], it returns a depth between
    [section_height - yhi] and [section_height - ylo]: the total area is
    positive, so the guard of the division does not decide. *)
Theorem calculate_actual_d_between_layers :
  forall (layout : Detailer.RebarLayout) (ylo yhi : R),
    (forall l, In l (Detailer.layers layout) ->
       (1 <= Detailer.num_rebars l)%Z /\
       IZR (Detailer.num_rebars l) <= FLOAT_MAX /\
       ylo <= Detailer.y_from_bottom l <= yhi) ->
    (Detailer.layers layout = [] ->
     Detailer.calculate_actual_d layout = Ok 0) /\
    (Detailer.layers layout <> [] ->
     exists d,
       Detailer.calculate_actual_d layout = Ok d /\
       Detailer.section_height layout - yhi <= d /\
       d <= Detailer.section_height layout - ylo).
Proof.
  intros layout ylo yhi Hall. unfold Detailer.calculate_actual_d. split.
  - intros E. rewrite E. simpl.
    destruct (Req_dec_T 0.0 0) as [_|Hne]; [reflexivity|].
    exfalso. apply Hne. lra.
  - intros Hne.
    destruct (accumulate_layers_bounds ylo yhi (Detailer.layers layout)
                0.0 0.0 Hall)
      as (mo & ta & E & _ & Hta & Hlo & Hhi).
    specialize (Hta Hne). rewrite E, bind_Ok. cbv zeta. simpl fst.
    simpl snd.
    destruct (Req_dec_T ta 0) as [Hz|_]; [lra|].
    eexists. split; [reflexivity|].
    assert (Hq : mo / ta * ta = mo).
    { unfold Rdiv. rewrite Rmult_assoc, Rinv_l by lra. lra. }
    split; nra.
Qed.

(** X24, witness: four bars of 25 mm at 75.5 mm and two more at
    125.5 mm, in a section 600 mm high. *)
Lemma calculate_actual_d_between_layers_witness :
  exists d,
    Detailer.calculate_actual_d
      {| Detailer.layout_option :=
           {| Selector.diameter := 25; Selector.spacing := 100;
              Selector.as_provided_per_meter := 5067;
              Selector.efficiency := 1.0134 |};
         Detailer.layers :=
           [ {| Detailer.y_from_bottom := 75.5;
                Detailer.num_rebars := 4;
                Detailer.rebar :=
                  {| Bars.material := Examples.s400_material;
                     Bars.diameter := Bars.D25 |} |};
             {| Detailer.y_from_bottom := 125.5;
                Detailer.num_rebars := 2;
                Detailer.rebar :=
                  {| Bars.material := Examples.s400_material;
                     Bars.diameter := Bars.D25 |} |} ];
         Detailer.as_provided_total := 3040.2;
         Detailer.section_height := 600 |}
    = Ok d /\
    600 - 125.5 <= d /\ d <= 600 - 75.5.
Proof.
  refine (proj2 (calculate_actual_d_between_layers
                  {| Detailer.layout_option :=
                       {| Selector.diameter := 25; Selector.spacing := 100;
                          Selector.as_provided_per_meter := 5067;
                          Selector.efficiency := 1.0134 |};
                     Detailer.layers :=
                       [ {| Detailer.y_from_bottom := 75.5;
                            Detailer.num_rebars := 4;
                            Detailer.rebar :=
                              {| Bars.material := Examples.s400_material;
                                 Bars.diameter := Bars.D25 |} |};
                         {| Detailer.y_from_bottom := 125.5;
                            Detailer.num_rebars := 2;
                            Detailer.rebar :=
                              {| Bars.material := Examples.s400_material;
                                 Bars.diameter := Bars.D25 |} |} ];
                     Detailer.as_provided_total := 3040.2;
                     Detailer.section_height := 600 |}
                  75.5 125.5 _) _).
  - cbn [Detailer.layers].
    intros l [<-|[<-|[]]]; simpl; unfold FLOAT_MAX;
      (split; [lia|split; lra]).
  - discriminate.
Defined.

(** A planned layout is the record that [plan_layout] builds around the
    layers of its loop. *)
Lemma plan_layout_planned_inv (fuel : nat) (self : Detailer.RebarDetailer)
  (selected_option : Selector.SelectedOption)
  (section_width section_height as_required_total
   cover_to_stirrup stirrup_dia : R) (layout : Detailer.RebarLayout) :
  Detailer.plan_layout fuel self selected_option section_width
    section_height as_required_total cover_to_stirrup stirrup_dia
  = Detailer.Planned layout ->
  exists b,
    Bars.bar_size (Selector.diameter selected_option) = Some b /\
    0 < as_required_total /\
    0 <= section_width - 2 * cover_to_stirrup - 2 * stirrup_dia
         - IZR (Bars.nominal b) /\
    Detailer.section_height layout = section_height /\
    Detailer.place_layers fuel
      {| Bars.material := Detailer.steel_material self;
         Bars.diameter := b |}
      cover_to_stirrup stirrup_dia
      (Zfloor ((section_width - 2 * cover_to_stirrup - 2 * stirrup_dia
                - IZR (Bars.nominal b))
               / (IZR (Bars.nominal b)
                  + Rmax 25.0 (IZR (Bars.nominal b)
                               * Detailer.min_spacing_factor self)))
       + 1)
      (Zceil (as_required_total / Bars._REBAR_AREAS b)) 0
    = Some (Detailer.layers layout).
Proof.
  intros H.
  destruct (Bars.bar_size (Selector.diameter selected_option))
    as [b|] eqn:Hb;
    [|rewrite (plan_layout_no_bar fuel self selected_option section_width
                 section_height as_required_total cover_to_stirrup
                 stirrup_dia Hb) in H; discriminate].
  rewrite (plan_layout_unfold fuel self selected_option section_width
             section_height as_required_total cover_to_stirrup
             stirrup_dia b Hb) in H.
  exists b. split; [reflexivity|].
  destruct (as_required_total >? 0) eqn:E;
    [apply Rltb_true in E|discriminate].
  destruct (section_width - 2 * cover_to_stirrup - 2 * stirrup_dia
            - IZR (Bars.nominal b) <? 0) eqn:Ew;
    [discriminate|apply Rltb_false in Ew].
  split; [exact E|]. split; [exact Ew|].
  destruct (Detailer.place_layers fuel _ cover_to_stirrup stirrup_dia _ _ 0)
    as [ls|] eqn:Hls; [|discriminate].
  injection H as <-. split; reflexivity.
Qed.

(** X25.  The actual depth of a planned layout.  When [plan_layout]
    returns a layout for a requirement within the range of a float,
    [calculate_actual_d] returns for it: no bar count overflows and the
    total area is positive.  The depth is at most that of a single
    layer, [h - cover - stirrup - dia/2], and at least that of the
    topmost layer; with one layer it is the former. *)
Theorem planned_layout_actual_depth :
  forall (fuel : nat) (self : Detailer.RebarDetailer)
         (selected_option : Selector.SelectedOption)
         (section_width section_height as_required_total
          cover_to_stirrup stirrup_dia : R)
         (layout : Detailer.RebarLayout),
    Detailer.plan_layout fuel self selected_option section_width
      section_height as_required_total cover_to_stirrup stirrup_dia
    = Detailer.Planned layout ->
    as_required_total <= FLOAT_MAX ->
    exists b d,
      Bars.bar_size (Selector.diameter selected_option) = Some b /\
      Detailer.calculate_actual_d layout = Ok d /\
      d <= section_height - cover_to_stirrup - stirrup_dia
           - IZR (Bars.nominal b) / 2 /\
      section_height - cover_to_stirrup - stirrup_dia
      - IZR (Bars.nominal b) / 2
      - (INR (length (Detailer.layers layout)) - 1)
        * (IZR (Bars.nominal b) + 25.0) <= d /\
      (length (Detailer.layers layout) = 1%nat ->
       d = section_height - cover_to_stirrup - stirrup_dia
           - IZR (Bars.nominal b) / 2).
Proof.
  intros fuel self opt w h req c s layout H Hreq.
  destruct (plan_layout_planned_inv _ _ _ _ _ _ _ _ _ H)
    as (b & Hb & Hpos & Hw & Hh & Hls).
  assert (Hm := max_per_layer_pos b (Detailer.min_spacing_factor self)
                  _ Hw).
  destruct (place_layers_inv _ c s _ Hm fuel _ 0%Z _ Hls)
    as (_ & Hne & _ & _ & Hnth).
  assert (Ha := rebar_areas_range b).
  assert (Hd : 10 <= IZR (Bars.nominal b))
    by (apply IZR_le; destruct (nominal_range b); assumption).
  set (n := Zceil (req / Bars._REBAR_AREAS b)) in *.
  assert (Hn : (1 <= n)%Z) by (apply Zceil_pos, Rdiv_lt_0_compat; lra).
  assert (Hnmax : IZR n <= FLOAT_MAX).
  { destruct (Zceil_bound (req / Bars._REBAR_AREAS b)) as [Hc _].
    fold n in Hc.
    assert (req / Bars._REBAR_AREAS b <= req / 71.33).
    { unfold Rdiv. apply Rmult_le_compat_l; [lra|].
      apply Rinv_le_contravar; lra. }
    unfold FLOAT_MAX in *. lra. }
  set (ylo := c + s + IZR (Bars.nominal b) / 2).
  set (yhi := ylo + (INR (length (Detailer.layers layout)) - 1)
                    * (IZR (Bars.nominal b) + 25.0)).
  assert (Hall : forall l, In l (Detailer.layers layout) ->
             (1 <= Detailer.num_rebars l)%Z /\
             IZR (Detailer.num_rebars l) <= FLOAT_MAX /\
             ylo <= Detailer.y_from_bottom l <= yhi).
  { intros l Hl. apply In_nth_error in Hl. destruct Hl as [k Hk].
    destruct (Hnth k l Hk) as (Hnum & Hrange & Hy & _).
    cbn [Bars.diameter] in Hy. rewrite Z.add_0_l in Hy.
    assert (Hk' : (k < length (Detailer.layers layout))%nat)
      by (apply nth_error_Some; congruence).
    split; [lia|]. split.
    - assert (Detailer.num_rebars l <= n)%Z.
      { rewrite Hnum.
        match goal with
        | |- (Z.min ?m (n - ?m * _) <= n)%Z =>
            assert (0 <= m * Z.of_nat k)%Z by (apply Z.mul_nonneg_nonneg; lia)
        end.
        lia. }
      apply IZR_le in H0. lra.
    - rewrite Hy. unfold yhi, ylo. rewrite <- INR_IZR_INZ.
      assert (0 <= INR k) by apply pos_INR.
      assert (INR k <= INR (length (Detailer.layers layout)) - 1).
      { apply lt_INR in Hk'.
        assert (INR k + 1 <= INR (length (Detailer.layers layout))).
        { rewrite <- S_INR. apply le_INR. apply INR_lt in Hk'. lia. }
        lra. }
      split; nra. }
  exists b. 
  destruct (accumulate_layers_bounds ylo yhi (Detailer.layers layout)
              0.0 0.0 Hall)
    as (mo & ta & E & _ & Hta & Hlo & Hhi).
  assert (Hne' : Detailer.layers layout <> []) by (apply Hne; lia).
  specialize (Hta Hne').
  unfold Detailer.calculate_actual_d. rewrite E, bind_Ok. cbv zeta.
  simpl fst. simpl snd.
  destruct (Req_dec_T ta 0) as [Hz|_]; [lra|].
  eexists. split; [exact Hb|]. split; [reflexivity|].
  assert (Hq : mo / ta * ta = mo).
  { unfold Rdiv. rewrite Rmult_assoc, Rinv_l by lra. lra. }
  rewrite Hh. unfold yhi, ylo in *.
  split; [nra|]. split; [nra|].
  intros Hlen. rewrite Hlen in *. simpl INR in *. nra.
Qed.

(** X25, witness: the worked layout has an actual depth, which is not
    more than the depth of one layer of 25 mm bars. *)
Lemma planned_layout_actual_depth_witness :
  exists layout d,
    Detailer.plan_layout 6
      {| Detailer.steel_material := Examples.s400_material;
         Detailer.min_spacing_factor := 1.0 |}
      {| Selector.diameter := 25; Selector.spacing := 100;
         Selector.as_provided_per_meter := 5067;
         Selector.efficiency := 1.0134 |}
      400 600 3000 50 13
    = Detailer.Planned layout /\
    Detailer.calculate_actual_d layout = Ok d /\
    d <= 600 - 50 - 13 - 25 / 2.
Proof.
  destruct example_plan_returns as [layout H].
  assert (Hreq : 3000 <= FLOAT_MAX) by (unfold FLOAT_MAX; lra).
  destruct (planned_layout_actual_depth _ _ _ _ _ _ _ _ layout H Hreq)
    as (b & d & Hb & Hd & Hle & _).
  exists layout, d. split; [exact H|]. split; [exact Hd|].
  cbn [Selector.diameter] in Hb.
  assert (Eb : b = Bars.D25) by (vm_compute in Hb; congruence).
  rewrite Eb in Hle. simpl in Hle. exact Hle.
Defined.

(* ================================================================== *)
(** * Bars of the table *)
(* ================================================================== *)

(** X26.  The [Rebar] constructor and the table of areas.  The
    constructor raises [MaterialError], and nothing else, exactly for a
    diameter outside the ten of the table.  A constructed bar keeps its
    material and its diameter, and its area is the entry of the table,
    between 71.33 and 1140 mm2; of two bars the one with the larger
    diameter has the larger area. *)
Theorem rebar_of_the_table :
  forall (material : Steel) (dia : Z),
    (Bars.Rebar_new material dia = Raise MaterialError
     <-> ~ In dia [10; 13; 16; 19; 22; 25; 29; 32; 35; 38]%Z) /\
    (forall e, Bars.Rebar_new material dia = Raise e ->
               e = MaterialError) /\
    (forall r,
        Bars.Rebar_new material dia = Ok r ->
        Bars.material r = material /\
        Bars.nominal (Bars.diameter r) = dia /\
        Bars.area r = Bars._REBAR_AREAS (Bars.diameter r) /\
        71.33 <= Bars.area r <= 1140 /\
        forall (material' : Steel) (dia' : Z) (r' : Bars.Rebar),
          Bars.Rebar_new material' dia' = Ok r' ->
          (dia < dia')%Z -> Bars.area r < Bars.area r').
Proof.
  intros material dia. unfold Bars.Rebar_new.
  destruct (Bars.bar_size dia) as [b|] eqn:Hb.
  - assert (Hn := bar_size_some dia b Hb).
    split.
    { split; [discriminate|]. intros Hnin. exfalso. apply Hnin.
      rewrite <- Hn. destruct b; simpl; tauto. }
    split; [discriminate|].
    intros r [= <-]. cbn [Bars.material Bars.diameter].
    unfold Bars.area. cbn [Bars.diameter].
    split; [reflexivity|]. split; [exact Hn|]. split; [reflexivity|].
    split; [apply rebar_areas_range|].
    intros material' dia' r' Hr' Hlt.
    destruct (Bars.bar_size dia') as [b'|] eqn:Hb'; [|discriminate].
    injection Hr' as <-. cbn [Bars.diameter].
    apply rebar_areas_increasing.
    rewrite Hn, (bar_size_some dia' b' Hb'). exact Hlt.
  - split.
    { split; [|reflexivity]. intros _ Hin.
      assert (exists b, Bars.nominal b = dia) as [b Eb].
      { simpl in Hin.
        destruct Hin as [E|[E|[E|[E|[E|[E|[E|[E|[E|[E|[]]]]]]]]]]].
        - exists Bars.D10; exact E.
        - exists Bars.D13; exact E.
        - exists Bars.D16; exact E.
        - exists Bars.D19; exact E.
        - exists Bars.D22; exact E.
        - exists Bars.D25; exact E.
        - exists Bars.D29; exact E.
        - exists Bars.D32; exact E.
        - exists Bars.D35; exact E.
        - exists Bars.D38; exact E. }
      rewrite <- Eb, bar_size_nominal in Hb. discriminate. }
    split; [intros e [= <-]; reflexivity|]. discriminate.
Qed.

(** X26, witness: a bar of 16 mm is larger than one of 13 mm. *)
Lemma rebar_of_the_table_witness :
  Bars.area {| Bars.material := Examples.s400_material;
               Bars.diameter := Bars.D13 |}
  < Bars.area {| Bars.material := Examples.s500_material;
                 Bars.diameter := Bars.D16 |}.
Proof.
  apply (proj2 (proj2 (proj2 (proj2
           (proj2 (proj2 (rebar_of_the_table Examples.s400_material 13))
              {| Bars.material := Examples.s400_material;
                 Bars.diameter := Bars.D13 |} eq_refl))))
           Examples.s500_material 16%Z
           {| Bars.material := Examples.s500_material;
              Bars.diameter := Bars.D16 |} eq_refl).
  lia.
Defined.

(* ================================================================== *)
(** * From the selector to the detailer *)
(* ================================================================== *)

(** The diameter of a selected option is one of the selector's. *)
Lemma selected_option_bar (self : Selector.RebarSelector)
  (as_required_pm : R) (top_n : Z) (opts : list Selector.SelectedOption)
  (o : Selector.SelectedOption) :
  Selector.select_optimal_options self as_required_pm top_n = Ok opts ->
  In o opts ->
  exists d, In d (Selector.available_diameters self) /\
            Selector.diameter o = Bars.nominal d.
Proof.
  intros H Hin.
  destruct (selected_option_origin _ _ _ _ _ H Hin) as (_ & _ & Ho).
  apply option_for_spacing_some in Ho.
  destruct Ho as (_ & _ & _ & _ & d & l1 & l2 & El & _ & _ & Ed & _).
  exists d. split; [|exact Ed].
  rewrite El. apply in_or_app. right. left. reflexivity.
Qed.

(** X27.  Every selected option can be given to the detailer.  For an
    option returned by [select_optimal_options], [plan_layout] raises
    nothing: the diameter of the option is a key of the table, since the
    selector holds only such keys.  When something is required, the
    width between the stirrups takes one bar of the option, and the loop
    is given as many iterations as bars of the smallest size would be
    needed, the call returns a layout that carries the option. *)
Theorem selected_option_can_be_planned :
  forall (self : Selector.RebarSelector) (as_required_pm : R) (top_n : Z)
         (opts : list Selector.SelectedOption),
    Selector.select_optimal_options self as_required_pm top_n = Ok opts ->
    forall o, In o opts ->
    forall (fuel : nat) (detailer : Detailer.RebarDetailer)
           (section_width section_height as_required_total
            cover_to_stirrup stirrup_dia : R),
      (forall e,
          Detailer.plan_layout fuel detailer o section_width section_height
            as_required_total cover_to_stirrup stirrup_dia
          <> Detailer.PlanRaises e) /\
      (0 < as_required_total ->
       IZR (Selector.diameter o)
       <= section_width - 2 * cover_to_stirrup - 2 * stirrup_dia ->
       as_required_total <= INR fuel * 71.33 ->
       exists layout,
         Detailer.plan_layout fuel detailer o section_width section_height
           as_required_total cover_to_stirrup stirrup_dia
         = Detailer.Planned layout /\
         Detailer.layout_option layout = o).
Proof.
  intros self req_pm top_n opts H o Hin fuel detailer w h req c s.
  destruct (selected_option_bar _ _ _ _ _ H Hin) as (d & _ & Ed).
  assert (Hb : Bars.bar_size (Selector.diameter o) = Some d)
    by (rewrite Ed; apply bar_size_nominal).
  rewrite (plan_layout_unfold fuel detailer o w h req c s d Hb).
  assert (Ha := rebar_areas_range d).
  split.
  - intros e.
    destruct (req >? 0); [|discriminate].
    destruct (w - 2 * c - 2 * s - IZR (Bars.nominal d) <? 0);
      [discriminate|].
    destruct (Detailer.place_layers fuel _ c s _ _ 0); discriminate.
  - intros Hreq Hw Hfuel. rewrite Ed in Hw.
    assert (Hw' : 0 <= w - 2 * c - 2 * s - IZR (Bars.nominal d)) by lra.
    assert (E1 : (req >? 0) = true) by (apply Rltb_true; exact Hreq).
    assert (E2 : (w - 2 * c - 2 * s - IZR (Bars.nominal d) <? 0) = false)
      by (apply Rltb_false; exact Hw').
    rewrite E1, E2.
    match goal with
    | |- context [Detailer.place_layers _ ?r _ _ ?m ?n 0%Z] =>
        destruct (place_layers_returns r c s m
                    (max_per_layer_pos d _ _ Hw') fuel n 0%Z)
          as [ls Hls]
    end.
    + apply Zceil_upper. rewrite <- INR_IZR_INZ.
      apply Rmult_le_reg_r with (Bars._REBAR_AREAS d); [lra|].
      unfold Rdiv. rewrite Rmult_assoc, Rinv_l by lra.
      assert (0 <= INR fuel) by apply pos_INR. nra.
    + rewrite Hls. eexists. split; reflexivity.
Qed.

(** X27, witness: the options selected for 1000 mm2 per metre, planned
    for 3000 mm2 across a width of 400 mm. *)
Lemma selected_option_can_be_planned_witness :
  exists self opts,
    Selector.RebarSelector_init [13; 16; 19]%Z [100; 200]%Z = Some self /\
    Selector.select_optimal_options self 1000 3 = Ok opts /\
    forall o, In o opts ->
      exists layout,
        Detailer.plan_layout 50
          {| Detailer.steel_material := Examples.s400_material;
             Detailer.min_spacing_factor := 1.0 |}
          o 400 600 3000 50 13
        = Detailer.Planned layout /\
        Detailer.layout_option layout = o.
Proof.
  destruct example_selector as (self & Hinit & _ & Eps).
  destruct (example_selection_returns self Eps) as [opts Hopts].
  exists self, opts. split; [exact Hinit|]. split; [exact Hopts|].
  intros o Ho.
  apply (proj2 (selected_option_can_be_planned self 1000 3 opts Hopts o Ho
                  50
                  {| Detailer.steel_material := Examples.s400_material;
                     Detailer.min_spacing_factor := 1.0 |}
                  400 600 3000 50 13)).
  - lra.
  - destruct (selected_option_bar _ _ _ _ _ Hopts Ho) as (d & _ & Ed).
    rewrite Ed.
    assert (IZR (Bars.nominal d) <= 38)
      by (apply IZR_le; destruct (nominal_range d); assumption).
    lra.
  - simpl. lra.
Defined.
